(** * chessy: rules engine and search engine, shallow embedding

    The TypeScript sources embedded here are
    - [types/chess.ts]       (module [chess]),
    - [core/ChessBoard.ts]   (module [ChessBoard]),
    - [core/MoveGenerator.ts] (module [MoveGenerator]),
    - [core/ChessEngine.ts]  (module [ChessEngine], and [EngineHeap] for the
      reference-level view of the same class),
    - [ai/ChessAI.ts]        (module [ChessAI]).

    JavaScript values are modelled as follows.
    - A [Position] is a plain object used as a dictionary.  [Object.entries]
      enumerates its string keys in insertion order, so it is an association
      list; writing an existing key keeps its place, writing a new key appends.
      (JavaScript enumerates keys that are canonical array indices first; the
      code never writes such a key, and a position that has some is the list
      in enumeration order.)
    - A slot of a position holds a piece or [null]; reading a missing key gives
      [undefined].  All three are kept apart ([Slot]).
    - Numbers that are always integers (coordinates, clocks) are [Z]; search
      scores, which may be infinite or [NaN], are [JSNum.num].
    - A [Map<string, _>] is a [gmap string _]. *)

From Stdlib Require Import ZArith Lia List String Ascii Bool.
From stdpp Require Import base decidable option list gmap strings.
Import ListNotations.
Local Open Scope string_scope.
Local Open Scope list_scope.
Local Open Scope Z_scope.

(** ** types/chess.ts *)

Module chess.

Inductive PieceColor := white | black.
Inductive PieceType := pawn | rook | knight | bishop | queen | king.

Record Piece := mkPiece { type : PieceType; color : PieceColor }.

Definition Square := string.

(** The three things [position[sq]] can evaluate to. *)
Inductive Slot :=
| Undefined
| Null
| Occupied (p : Piece).

Definition Position := list (Square * Slot).

Inductive CastlingSide := kingside | queenside.

Record Move := mkMove {
  from : Square;
  to : Square;
  piece : Piece;
  captured : option Piece;
  promotion : option PieceType;
  castling : option CastlingSide;
  enPassant : bool
}.

Record CastlingRights := mkCastlingRights {
  whiteKingside : bool;
  whiteQueenside : bool;
  blackKingside : bool;
  blackQueenside : bool
}.

Record GameState := mkGameState {
  position : Position;
  activeColor : PieceColor;
  castlingRights : CastlingRights;
  enPassantTarget : option Square;
  halfmoveClock : Z;
  fullmoveNumber : Z;
  moveHistory : list Move
}.

Record AIConfig := mkAIConfig {
  depth : nat;
  timeLimit : Z;
  useOpeningBook : bool;
  useEndgameTablebase : bool
}.

Inductive Winner := won (c : PieceColor) | draw.

Inductive Reason :=
| checkmate | stalemate | insufficient_material | fifty_move
| threefold_repetition | resignation | timeout.

Record GameResult := mkGameResult { winner : Winner; reason : Reason }.

#[global] Instance PieceColor_eq_dec : EqDecision PieceColor.
Proof. solve_decision. Defined.
#[global] Instance PieceType_eq_dec : EqDecision PieceType.
Proof. solve_decision. Defined.
#[global] Instance Piece_eq_dec : EqDecision Piece.
Proof. solve_decision. Defined.
#[global] Instance Slot_eq_dec : EqDecision Slot.
Proof. solve_decision. Defined.
#[global] Instance CastlingSide_eq_dec : EqDecision CastlingSide.
Proof. solve_decision. Defined.
#[global] Instance Move_eq_dec : EqDecision Move.
Proof. solve_decision. Defined.
#[global] Instance CastlingRights_eq_dec : EqDecision CastlingRights.
Proof. solve_decision. Defined.
#[global] Instance Winner_eq_dec : EqDecision Winner.
Proof. solve_decision. Defined.
#[global] Instance Reason_eq_dec : EqDecision Reason.
Proof. solve_decision. Defined.
#[global] Instance GameResult_eq_dec : EqDecision GameResult.
Proof. solve_decision. Defined.

(** [c === 'white' ? 'black' : 'white'] *)
Definition opponent (c : PieceColor) : PieceColor :=
  match c with white => black | black => white end.

(** Truthiness of a slot: [undefined] and [null] are falsy. *)
Definition truthy (s : Slot) : option Piece :=
  match s with Occupied p => Some p | _ => None end.

(** Truthiness of an optional field of an object. *)
Definition present {A : Type} (o : option A) : bool :=
  match o with Some _ => true | None => false end.

(** [position[sq]] *)
Fixpoint pos_get (p : Position) (sq : Square) : Slot :=
  match p with
  | [] => Undefined
  | (k, v) :: rest => if String.eqb k sq then v else pos_get rest sq
  end.

(** [position[sq] = v] *)
Fixpoint pos_set (p : Position) (sq : Square) (v : Slot) : Position :=
  match p with
  | [] => [(sq, v)]
  | (k, w) :: rest =>
      if String.eqb k sq then (k, v) :: rest else (k, w) :: pos_set rest sq v
  end.

(** [s[i]] on a string: a one-character string, or [undefined]. *)
Definition char_at (s : string) (i : nat) : option ascii := String.get i s.

(** [s[0] + suffix]; string concatenation prints [undefined] by name. *)
Definition head_plus (s : string) (suffix : string) : string :=
  match char_at s 0 with
  | Some c => String c suffix
  | None => "undefined" +:+ suffix
  end.

(** [parseInt(s[i])] on one character: a decimal digit or [NaN]. *)
Definition parseInt_char (c : option ascii) : option Z :=
  match c with
  | Some a =>
      let n := Z.of_nat (nat_of_ascii a) in
      if (48 <=? n) && (n <=? 57) then Some (n - 48) else None
  | None => None
  end.

(** A position is a well-formed object when no key occurs twice. *)
Fixpoint unique_keys (p : Position) : bool :=
  match p with
  | [] => true
  | (k, _) :: rest =>
      negb (existsb (fun e => String.eqb (fst e) k) rest) && unique_keys rest
  end.

End chess.
Import chess.

(** ** core/ChessBoard.ts *)

Module ChessBoard.

Definition FILES : list ascii :=
  ["a"; "b"; "c"; "d"; "e"; "f"; "g"; "h"]%char.
Definition RANKS : list ascii :=
  ["1"; "2"; "3"; "4"; "5"; "6"; "7"; "8"]%char.

(** [arr.indexOf(x)]: the first index holding [x], or -1. *)
Fixpoint indexOf (arr : list ascii) (x : option ascii) : Z :=
  match arr with
  | [] => -1
  | a :: rest =>
      if bool_decide (Some a = x) then 0
      else let r := indexOf rest x in if r <? 0 then -1 else r + 1
  end.

Definition getAllSquares : list Square :=
  flat_map (fun f => map (fun r => String f (String r "")) RANKS) FILES.

(** [createInitialPosition]: the 64 keys are created file by file with
    [null], then the four ranks of pieces are written over them. *)
Definition createInitialPosition : Position :=
  let empty : Position := map (fun sq => (sq, Null)) getAllSquares in
  let backRank : list PieceType :=
    [rook; knight; bishop; queen; king; bishop; knight; rook] in
  let place (c : PieceColor) (r : ascii) (p : Position) : Position :=
    fold_left (fun acc '(f, t) =>
                 pos_set acc (String f (String r "")) (Occupied (mkPiece t c)))
              (combine FILES backRank) p in
  let pawns (c : PieceColor) (r : ascii) (p : Position) : Position :=
    fold_left (fun acc f =>
                 pos_set acc (String f (String r "")) (Occupied (mkPiece pawn c)))
              FILES p in
  pawns black "7"%char
    (place black "8"%char
       (pawns white "2"%char
          (place white "1"%char empty))).

Definition squareToCoordinates (square : Square) : Z * Z :=
  (indexOf FILES (char_at square 0), indexOf RANKS (char_at square 1)).

Definition coordinatesToSquare (file rank : Z) : option Square :=
  if (file <? 0) || (file >? 7) || (rank <? 0) || (rank >? 7) then None
  else
    match nth_error FILES (Z.to_nat file), nth_error RANKS (Z.to_nat rank) with
    | Some f, Some r => Some (String f (String r ""))
    | _, _ => None
    end.

(** [arr.includes(x)] *)
Definition includes (arr : list ascii) (x : option ascii) : bool :=
  existsb (fun a => bool_decide (Some a = x)) arr.

Definition isValidSquare (square : Square) : bool :=
  if negb (Nat.eqb (String.length square) 2) then false
  else includes FILES (char_at square 0) && includes RANKS (char_at square 1).

Inductive SquareColor := light | dark.

(** [(fileIndex + rankIndex) % 2 === 0 ? 'dark' : 'light']; [%] is the
    remainder of truncated division. *)
Definition getSquareColor (square : Square) : SquareColor :=
  let fileIndex := indexOf FILES (char_at square 0) in
  let rankIndex := indexOf RANKS (char_at square 1) in
  if Z.rem (fileIndex + rankIndex) 2 =? 0 then dark else light.

(** The object [{ files, ranks }]. *)
Definition getDistance (from to : Square) : Z * Z :=
  let fromFile := indexOf FILES (char_at from 0) in
  let fromRank := indexOf RANKS (char_at from 1) in
  let toFile := indexOf FILES (char_at to 0) in
  let toRank := indexOf RANKS (char_at to 1) in
  (Z.abs (toFile - fromFile), Z.abs (toRank - fromRank)).

(** [arr[i]] in a string concatenation: an index outside the array gives
    [undefined], printed by name. *)
Definition nameAt (arr : list ascii) (i : Z) : string :=
  if i <? 0 then "undefined"
  else match nth_error arr (Z.to_nat i) with
       | Some c => String c ""
       | None => "undefined"
       end.

(** The [while] loop of [getSquaresBetween].  It need not terminate:
    [fuel] bounds the number of tests of the loop condition, and [None]
    means the bound was reached.  (Two indices outside the arrays at once
    would add to [NaN] rather than concatenate; no terminating run meets
    that case.) *)
Fixpoint squaresBetweenLoop (fuel : nat)
    (currentFile currentRank toFile toRank fileDirection rankDirection : Z)
  : option (list Square) :=
  match fuel with
  | O => None
  | S fuel' =>
      if bool_decide (currentFile ≠ toFile)
         || bool_decide (currentRank ≠ toRank)
      then
        match squaresBetweenLoop fuel' (currentFile + fileDirection)
                                 (currentRank + rankDirection)
                                 toFile toRank fileDirection rankDirection with
        | Some squares =>
            Some ((nameAt FILES currentFile +:+ nameAt RANKS currentRank)
                    :: squares)
        | None => None
        end
      else Some []
  end.

Definition getSquaresBetween (fuel : nat) (from to : Square)
  : option (list Square) :=
  let fromFile := indexOf FILES (char_at from 0) in
  let fromRank := indexOf RANKS (char_at from 1) in
  let toFile := indexOf FILES (char_at to 0) in
  let toRank := indexOf RANKS (char_at to 1) in
  let fileDirection := Z.sgn (toFile - fromFile) in
  let rankDirection := Z.sgn (toRank - fromRank) in
  squaresBetweenLoop fuel (fromFile + fileDirection) (fromRank + rankDirection)
                     toFile toRank fileDirection rankDirection.

End ChessBoard.

(** ** core/MoveGenerator.ts *)

Module MoveGenerator.
Import ChessBoard.

(** The object literals the generator builds. *)
Definition quiet (from to : Square) (piece : Piece) : Move :=
  mkMove from to piece None None None false.
Definition capture (from to : Square) (piece target : Piece) : Move :=
  mkMove from to piece (Some target) None None false.

Definition promotionPieces : list PieceType := [queen; rook; bishop; knight].

(** One [fileOffset] of the capture loop of [generatePawnMoves]: the plain
    or promoting capture, then the en-passant capture. *)
Definition pawnCaptures (gameState : GameState) (from : Square) (piece : Piece)
    (file rank direction promotionRank fileOffset : Z) : list Move :=
  match coordinatesToSquare (file + fileOffset) (rank + direction) with
  | None => []
  | Some captureSquare =>
      (match truthy (pos_get (position gameState) captureSquare) with
       | Some targetPiece =>
           if bool_decide (color targetPiece ≠ color piece) then
             if rank + direction =? promotionRank then
               map (fun promotionPiece =>
                      mkMove from captureSquare piece (Some targetPiece)
                             (Some promotionPiece) None false)
                   promotionPieces
             else [capture from captureSquare piece targetPiece]
           else []
       | None => []
       end)
      ++
      (if bool_decide (Some captureSquare = enPassantTarget gameState) then
         let capturedPawn :=
           match coordinatesToSquare (file + fileOffset) rank with
           | Some capturedPawnSquare =>
               truthy (pos_get (position gameState) capturedPawnSquare)
           | None => None
           end in
         match capturedPawn with
         | Some cp => [mkMove from captureSquare piece (Some cp) None None true]
         | None => []
         end
       else [])
  end.

Definition generatePawnMoves (gameState : GameState) (from : Square)
    (piece : Piece) : list Move :=
  let position := position gameState in
  let direction := if bool_decide (color piece = white) then 1 else -1 in
  let startRank := if bool_decide (color piece = white) then 1 else 6 in
  let promotionRank := if bool_decide (color piece = white) then 7 else 0 in
  let '(file, rank) := squareToCoordinates from in
  let forward :=
    match coordinatesToSquare file (rank + direction) with
    | Some oneSquareForward =>
        match truthy (pos_get position oneSquareForward) with
        | None =>
            if rank + direction =? promotionRank then
              map (fun promotionPiece =>
                     mkMove from oneSquareForward piece None
                            (Some promotionPiece) None false)
                  promotionPieces
            else
              quiet from oneSquareForward piece ::
              (if rank =? startRank then
                 match coordinatesToSquare file (rank + 2 * direction) with
                 | Some twoSquaresForward =>
                     match truthy (pos_get position twoSquaresForward) with
                     | None => [quiet from twoSquaresForward piece]
                     | Some _ => []
                     end
                 | None => []
                 end
               else [])
        | Some _ => []
        end
    | None => []
    end in
  forward ++
  flat_map (pawnCaptures gameState from piece file rank direction promotionRank)
           [-1; 1].

(** The inner [for (let i = 1; i < 8; i++)] loop of [generateSlidingMoves]
    along one direction; [steps] are the remaining values of [i]. *)
Fixpoint slideRay (position : Position) (from : Square) (piece : Piece)
    (file rank fileDir rankDir : Z) (steps : list Z) : list Move :=
  match steps with
  | [] => []
  | i :: rest =>
      match coordinatesToSquare (file + i * fileDir) (rank + i * rankDir) with
      | None => []
      | Some toSquare =>
          match truthy (pos_get position toSquare) with
          | None =>
              quiet from toSquare piece ::
              slideRay position from piece file rank fileDir rankDir rest
          | Some targetPiece =>
              if bool_decide (color targetPiece ≠ color piece)
              then [capture from toSquare piece targetPiece]
              else []
          end
      end
  end.

Definition generateSlidingMoves (gameState : GameState) (from : Square)
    (piece : Piece) (directions : list (Z * Z)) : list Move :=
  let '(file, rank) := squareToCoordinates from in
  flat_map (fun '(fileDir, rankDir) =>
              slideRay (position gameState) from piece file rank fileDir rankDir
                       [1; 2; 3; 4; 5; 6; 7])
           directions.

Definition generateRookMoves gameState from piece : list Move :=
  generateSlidingMoves gameState from piece [(0, 1); (0, -1); (1, 0); (-1, 0)].

Definition generateBishopMoves gameState from piece : list Move :=
  generateSlidingMoves gameState from piece [(1, 1); (1, -1); (-1, 1); (-1, -1)].

Definition generateQueenMoves gameState from piece : list Move :=
  generateSlidingMoves gameState from piece
    [(0, 1); (0, -1); (1, 0); (-1, 0); (1, 1); (1, -1); (-1, 1); (-1, -1)].

(** The loop shared by [generateKnightMoves] and [generateKingMoves]. *)
Definition stepMoves (gameState : GameState) (from : Square) (piece : Piece)
    (offsets : list (Z * Z)) : list Move :=
  let '(file, rank) := squareToCoordinates from in
  flat_map (fun '(fileOffset, rankOffset) =>
              match coordinatesToSquare (file + fileOffset) (rank + rankOffset) with
              | Some toSquare =>
                  match truthy (pos_get (position gameState) toSquare) with
                  | None => [quiet from toSquare piece]
                  | Some targetPiece =>
                      if bool_decide (color targetPiece ≠ color piece)
                      then [capture from toSquare piece targetPiece]
                      else []
                  end
              | None => []
              end)
           offsets.

Definition generateKnightMoves gameState from piece : list Move :=
  stepMoves gameState from piece
    [(-2, -1); (-2, 1); (-1, -2); (-1, 2); (1, -2); (1, 2); (2, -1); (2, 1)].

(** [!position[sq]] *)
Definition vacant (position : Position) (sq : Square) : bool :=
  match truthy (pos_get position sq) with None => true | Some _ => false end.

(** [position[sq]?.type === t && position[sq]?.color === c] *)
Definition holds (position : Position) (sq : Square) (t : PieceType)
    (c : PieceColor) : bool :=
  match truthy (pos_get position sq) with
  | Some p => bool_decide (type p = t) && bool_decide (color p = c)
  | None => false
  end.

Definition castlingMove (from to : Square) (piece : Piece) (side : CastlingSide)
  : Move := mkMove from to piece None None (Some side) false.

Definition generateCastlingMoves (gameState : GameState) (from : Square)
    (piece : Piece) : list Move :=
  let position := position gameState in
  let rights := castlingRights gameState in
  if bool_decide (color piece = white) && String.eqb from "e1" then
    (if whiteKingside rights && vacant position "f1" && vacant position "g1"
        && holds position "h1" rook white
     then [castlingMove from "g1" piece kingside] else [])
    ++
    (if whiteQueenside rights && vacant position "d1" && vacant position "c1"
        && vacant position "b1" && holds position "a1" rook white
     then [castlingMove from "c1" piece queenside] else [])
  else if bool_decide (color piece = black) && String.eqb from "e8" then
    (if blackKingside rights && vacant position "f8" && vacant position "g8"
        && holds position "h8" rook black
     then [castlingMove from "g8" piece kingside] else [])
    ++
    (if blackQueenside rights && vacant position "d8" && vacant position "c8"
        && vacant position "b8" && holds position "a8" rook black
     then [castlingMove from "c8" piece queenside] else [])
  else [].

Definition generateKingMoves gameState from piece : list Move :=
  stepMoves gameState from piece
    [(-1, -1); (-1, 0); (-1, 1); (0, -1); (0, 1); (1, -1); (1, 0); (1, 1)]
  ++ generateCastlingMoves gameState from piece.

Definition generatePieceMoves (gameState : GameState) (from : Square)
    (piece : Piece) : list Move :=
  match type piece with
  | pawn => generatePawnMoves gameState from piece
  | rook => generateRookMoves gameState from piece
  | knight => generateKnightMoves gameState from piece
  | bishop => generateBishopMoves gameState from piece
  | queen => generateQueenMoves gameState from piece
  | king => generateKingMoves gameState from piece
  end.

Definition generatePseudoLegalMoves (gameState : GameState) : list Move :=
  flat_map (fun '(square, slot) =>
              match truthy slot with
              | Some piece =>
                  if bool_decide (color piece = activeColor gameState)
                  then generatePieceMoves gameState square piece
                  else []
              | None => []
              end)
           (position gameState).

(** The rook relocation both move-application routines share. *)
Definition castleRook (newPosition : Position) (side : CastlingSide)
    (c : PieceColor) : Position :=
  match side with
  | kingside =>
      let rookFrom := if bool_decide (c = white) then "h1" else "h8" in
      let rookTo := if bool_decide (c = white) then "f1" else "f8" in
      pos_set (pos_set newPosition rookTo (pos_get newPosition rookFrom))
              rookFrom Null
  | queenside =>
      let rookFrom := if bool_decide (c = white) then "a1" else "a8" in
      let rookTo := if bool_decide (c = white) then "d1" else "d8" in
      pos_set (pos_set newPosition rookTo (pos_get newPosition rookFrom))
              rookFrom Null
  end.

(** [move.piece.color === 'white' ? move.to[0] + '5' : move.to[0] + '4'] *)
Definition capturedPawnSquare (move : Move) : Square :=
  if bool_decide (color (piece move) = white)
  then head_plus (to move) "5" else head_plus (to move) "4".

Definition makeMove (gameState : GameState) (move : Move) : GameState :=
  let newPosition := position gameState in
  let newPosition := pos_set newPosition (to move) (Occupied (piece move)) in
  let newPosition := pos_set newPosition (from move) Null in
  let newPosition :=
    match castling move with
    | Some side => castleRook newPosition side (color (piece move))
    | None => newPosition
    end in
  let newPosition :=
    if enPassant move then pos_set newPosition (capturedPawnSquare move) Null
    else newPosition in
  let newPosition :=
    match promotion move with
    | Some t => pos_set newPosition (to move)
                        (Occupied (mkPiece t (color (piece move))))
    | None => newPosition
    end in
  mkGameState newPosition (opponent (activeColor gameState))
              (castlingRights gameState) (enPassantTarget gameState)
              (halfmoveClock gameState) (fullmoveNumber gameState)
              (moveHistory gameState).

Fixpoint findKing (position : Position) (c : PieceColor) : option Square :=
  match position with
  | [] => None
  | (square, slot) :: rest =>
      match truthy slot with
      | Some p =>
          if bool_decide (type p = king) && bool_decide (color p = c)
          then Some square else findKing rest c
      | None => findKing rest c
      end
  end.

Definition withActiveColor (gameState : GameState) (c : PieceColor) : GameState :=
  mkGameState (position gameState) c (castlingRights gameState)
              (enPassantTarget gameState) (halfmoveClock gameState)
              (fullmoveNumber gameState) (moveHistory gameState).

Definition isInCheck (gameState : GameState) (c : PieceColor) : bool :=
  match findKing (position gameState) c with
  | None => false
  | Some kingSquare =>
      let opponentGameState := withActiveColor gameState (opponent c) in
      existsb (fun move => String.eqb (to move) kingSquare)
              (generatePseudoLegalMoves opponentGameState)
  end.

Definition isLegalMove (gameState : GameState) (move : Move) : bool :=
  negb (isInCheck (makeMove gameState move) (activeColor gameState)).

Definition generateLegalMoves (gameState : GameState) : list Move :=
  List.filter (isLegalMove gameState) (generatePseudoLegalMoves gameState).

End MoveGenerator.

(** ** core/ChessEngine.ts, on values

    The fields of the class are the components of [Engine].  Objects are
    values here; the module [EngineHeap] below gives the same methods on
    references, where sharing between snapshots is visible. *)

(** Outcome of a call that may end in a [TypeError]. *)
Inductive Completion (A : Type) :=
| Return (a : A)
| TypeError.
Arguments Return {A} a.
Arguments TypeError {A}.

Module ChessEngine.

Record Engine := mkEngine {
  gameState : GameState;
  moveHistory : list string
}.

Definition createInitialGameState : GameState :=
  mkGameState ChessBoard.createInitialPosition white
              (mkCastlingRights true true true true) None 0 1 [].

(** [new ChessEngine()] *)
Definition create : Engine := mkEngine createInitialGameState [].

Definition getGameState (this : Engine) : GameState := gameState this.

Definition getLegalMoves (this : Engine) : list Move :=
  MoveGenerator.generateLegalMoves (gameState this).

(** [move.captured || move.piece.type === 'pawn' ? 0 : clock + 1] *)
Definition nextHalfmoveClock (gameState : GameState) (move : Move) : Z :=
  if present (captured move) || bool_decide (type (piece move) = pawn)
  then 0 else halfmoveClock gameState + 1.

Definition nextFullmoveNumber (gameState : GameState) : Z :=
  if bool_decide (activeColor gameState = black)
  then fullmoveNumber gameState + 1 else fullmoveNumber gameState.

(** The board part of [applyMove]. *)
Definition nextPosition (gameState : GameState) (move : Move) : Position :=
  let newPosition := position gameState in
  let newPosition :=
    pos_set newPosition (to move)
            (match promotion move with
             | Some t => Occupied (mkPiece t (color (piece move)))
             | None => Occupied (piece move)
             end) in
  let newPosition := pos_set newPosition (from move) Null in
  let newPosition :=
    match castling move with
    | Some side => MoveGenerator.castleRook newPosition side (color (piece move))
    | None => newPosition
    end in
  if enPassant move
  then pos_set newPosition (MoveGenerator.capturedPawnSquare move) Null
  else newPosition.

(** The en-passant target [applyMove] leaves in the new state. *)
Definition nextEnPassantTarget (move : Move) : option Square :=
  if bool_decide (type (piece move) = pawn) then
    match parseInt_char (char_at (from move) 1),
          parseInt_char (char_at (to move) 1) with
    | Some fromRank, Some toRank =>
        if Z.abs (toRank - fromRank) =? 2 then
          let enPassantRank :=
            if bool_decide (color (piece move) = white) then "3" else "6" in
          Some (head_plus (from move) enPassantRank)
        else None
    | _, _ => None
    end
  else None.

Definition nextCastlingRights (gameState : GameState) (move : Move)
  : CastlingRights :=
  let r := castlingRights gameState in
  let r :=
    if bool_decide (type (piece move) = king) then
      if bool_decide (color (piece move) = white)
      then mkCastlingRights false false (blackKingside r) (blackQueenside r)
      else mkCastlingRights (whiteKingside r) (whiteQueenside r) false false
    else r in
  if bool_decide (type (piece move) = rook) then
    let r := if String.eqb (from move) "a1"
             then mkCastlingRights (whiteKingside r) false
                                   (blackKingside r) (blackQueenside r)
             else r in
    let r := if String.eqb (from move) "h1"
             then mkCastlingRights false (whiteQueenside r)
                                   (blackKingside r) (blackQueenside r)
             else r in
    let r := if String.eqb (from move) "a8"
             then mkCastlingRights (whiteKingside r) (whiteQueenside r)
                                   (blackKingside r) false
             else r in
    if String.eqb (from move) "h8"
    then mkCastlingRights (whiteKingside r) (whiteQueenside r)
                          false (blackQueenside r)
    else r
  else r.

Definition applyMove (gameState : GameState) (move : Move) : GameState :=
  mkGameState (nextPosition gameState move)
              (opponent (activeColor gameState))
              (nextCastlingRights gameState move)
              (nextEnPassantTarget move)
              (nextHalfmoveClock gameState move)
              (nextFullmoveNumber gameState)
              (chess.moveHistory gameState).

Definition pieceToChar (piece : Piece) : ascii :=
  match type piece with
  | pawn => "p" | rook => "r" | knight => "n"
  | bishop => "b" | queen => "q" | king => "k"
  end%char.

Definition toUpperCase (c : ascii) : ascii :=
  let n := nat_of_ascii c in
  if (Nat.leb 97 n && Nat.leb n 122)%bool then ascii_of_nat (n - 32) else c.

(** [fen += emptyCount], for the counts 1 to 8 the loop can reach. *)
Definition digit (n : nat) : string := String (ascii_of_nat (48 + n)) "".

(** One rank of [positionToFEN]: the loop over [file] with its counter. *)
Fixpoint fenRank (position : Position) (rank : Z) (files : list Z)
    (emptyCount : nat) : string :=
  match files with
  | [] => if Nat.ltb 0 emptyCount then digit emptyCount else ""
  | file :: rest =>
      let piece :=
        match ChessBoard.coordinatesToSquare file rank with
        | Some square => truthy (pos_get position square)
        | None => None
        end in
      match piece with
      | None => fenRank position rank rest (S emptyCount)
      | Some p =>
          (if Nat.ltb 0 emptyCount then digit emptyCount else "")
          +:+ String (if bool_decide (color p = white)
                      then toUpperCase (pieceToChar p) else pieceToChar p)
                     (fenRank position rank rest 0)
      end
  end.

Definition fenOf (position : Position) : string :=
  fold_right (fun rank acc =>
                fenRank position rank [0; 1; 2; 3; 4; 5; 6; 7] 0
                +:+ (if 0 <? rank then "/" else "") +:+ acc)
             "" [7; 6; 5; 4; 3; 2; 1; 0].

Definition positionToFEN (this : Engine) : string :=
  fenOf (position (gameState this)).

Definition pushMove (gameState : GameState) (move : Move) : GameState :=
  mkGameState (position gameState) (activeColor gameState)
              (castlingRights gameState) (enPassantTarget gameState)
              (halfmoveClock gameState) (fullmoveNumber gameState)
              (chess.moveHistory gameState ++ [move]).

(** [legalMove.from === move.from && legalMove.to === move.to &&
     legalMove.promotion === move.promotion] *)
Definition sameMove (move legalMove : Move) : bool :=
  String.eqb (from legalMove) (from move)
  && String.eqb (to legalMove) (to move)
  && bool_decide (promotion legalMove = promotion move).

Definition makeMove (this : Engine) (move : Move) : bool * Engine :=
  let legalMoves := getLegalMoves this in
  let isLegal := existsb (sameMove move) legalMoves in
  if negb isLegal then (false, this)
  else
    let this := mkEngine (applyMove (gameState this) move) (moveHistory this) in
    let this := mkEngine (pushMove (gameState this) move) (moveHistory this) in
    let this := mkEngine (gameState this)
                         (moveHistory this ++ [positionToFEN this]) in
    (true, this).

(** [Object.values(position).filter(piece => piece !== null)] keeps
    [undefined]; the second filter then reads [.type] of every element. *)
Definition isInsufficientMaterial (this : Engine) : Completion bool :=
  let pieces :=
    List.filter (fun s => negb (bool_decide (s = Null)))
                (map snd (position (gameState this))) in
  if Nat.eqb (length pieces) 2 then Return true
  else if Nat.eqb (length pieces) 3 then
    if existsb (fun s => bool_decide (s = Undefined)) pieces then TypeError
    else
      let nonKingPieces :=
        List.filter (fun p => negb (bool_decide (type p = king)))
                    (omap truthy pieces) in
      Return (match nonKingPieces with
              | [p] => bool_decide (type p = bishop)
                       || bool_decide (type p = knight)
              | _ => false
              end)
  else Return false.

Definition isGameOver (this : Engine) : Completion (option GameResult) :=
  let legalMoves := getLegalMoves this in
  let isInCheck :=
    MoveGenerator.isInCheck (gameState this) (activeColor (gameState this)) in
  if Nat.eqb (length legalMoves) 0 && isInCheck then
    Return (Some (mkGameResult (won (opponent (activeColor (gameState this))))
                               checkmate))
  else if Nat.eqb (length legalMoves) 0 && negb isInCheck then
    Return (Some (mkGameResult draw stalemate))
  else if 100 <=? halfmoveClock (gameState this) then
    Return (Some (mkGameResult draw fifty_move))
  else
    let currentPosition := positionToFEN this in
    let repetitions :=
      length (List.filter (fun pos => String.eqb pos currentPosition)
                          (moveHistory this)) in
    if Nat.leb 3 repetitions then
      Return (Some (mkGameResult draw threefold_repetition))
    else
      match isInsufficientMaterial this with
      | TypeError => TypeError
      | Return true => Return (Some (mkGameResult draw insufficient_material))
      | Return false => Return None
      end.

Definition reset (this : Engine) : Engine :=
  mkEngine createInitialGameState [].

(** Submitting a list of moves one after the other. *)
Definition play (this : Engine) (moves : list Move) : Engine :=
  fold_left (fun e m => snd (makeMove e m)) moves this.

End ChessEngine.


(** ** core/ChessEngine.ts, on references

    A [GameState] object holds three references: its [position] object, its
    [castlingRights] object and its [moveHistory] array.  The spread
    [{ ...gameState }] copies the references, not the objects behind them.
    The heap is a list of objects, a reference is an index into it, and
    allocation appends. *)

Module EngineHeap.

(** References. *)
Abbreviation loc := nat (only parsing).

Inductive Obj :=
| PositionObj (p : Position)
| RightsObj (r : CastlingRights)
| MovesObj (l : list Move).

Record GameStateObj := mkGameStateObj {
  position : loc;
  activeColor : PieceColor;
  castlingRights : loc;
  enPassantTarget : option Square;
  halfmoveClock : Z;
  fullmoveNumber : Z;
  moveHistory : loc
}.

Record Engine := mkEngine {
  gameState : GameStateObj;
  fenHistory : list string  (* the private field [this.moveHistory] *)
}.

Definition alloc (h : list Obj) (o : Obj) : loc * list Obj :=
  (length h, h ++ [o]).

(** The value a state object denotes in a heap. *)
Definition load (h : list Obj) (g : GameStateObj) : option GameState :=
  match h !! position g, h !! castlingRights g, h !! moveHistory g with
  | Some (PositionObj p), Some (RightsObj r), Some (MovesObj l) =>
      Some (mkGameState p (activeColor g) r (enPassantTarget g)
                        (halfmoveClock g) (fullmoveNumber g) l)
  | _, _, _ => None
  end.

Definition createInitialGameState (h : list Obj) : GameStateObj * list Obj :=
  let '(lp, h) := alloc h (PositionObj ChessBoard.createInitialPosition) in
  let '(lr, h) := alloc h (RightsObj (mkCastlingRights true true true true)) in
  let '(lm, h) := alloc h (MovesObj []) in
  (mkGameStateObj lp white lr None 0 1 lm, h).

Definition create (h : list Obj) : Engine * list Obj :=
  let '(g, h) := createInitialGameState h in (mkEngine g [], h).

(** [return { ...this.gameState }] *)
Definition getGameState (this : Engine) : GameStateObj :=
  mkGameStateObj (position (gameState this)) (activeColor (gameState this))
                 (castlingRights (gameState this))
                 (enPassantTarget (gameState this))
                 (halfmoveClock (gameState this))
                 (fullmoveNumber (gameState this))
                 (moveHistory (gameState this)).

(** [applyMove]: [newPosition] and the new [castlingRights] are fresh
    objects; every other field, [moveHistory] included, comes from the
    spread of the old state. *)
Definition applyMove (h : list Obj) (g : GameStateObj) (move : Move)
  : option (GameStateObj * list Obj) :=
  match load h g with
  | Some v =>
      let '(lp, h) := alloc h (PositionObj (ChessEngine.nextPosition v move)) in
      let '(lr, h) :=
        alloc h (RightsObj (ChessEngine.nextCastlingRights v move)) in
      Some (mkGameStateObj lp (opponent (activeColor g)) lr
                           (ChessEngine.nextEnPassantTarget move)
                           (ChessEngine.nextHalfmoveClock v move)
                           (ChessEngine.nextFullmoveNumber v)
                           (moveHistory g),
            h)
  | None => None
  end.

(** [arr.push(move)] on the array behind a reference. *)
Definition push (h : list Obj) (l : loc) (move : Move) : list Obj :=
  match h !! l with
  | Some (MovesObj ms) => <[l := MovesObj (ms ++ [move])]> h
  | _ => h
  end.

(** [makeMove]; [None] only when the engine's state has a dangling
    reference, which no JavaScript heap has. *)
Definition makeMove (h : list Obj) (this : Engine) (move : Move)
  : option (bool * Engine * list Obj) :=
  match load h (gameState this) with
  | Some v =>
      let legalMoves := MoveGenerator.generateLegalMoves v in
      let isLegal := existsb (ChessEngine.sameMove move) legalMoves in
      if negb isLegal then Some (false, this, h)
      else
        match applyMove h (gameState this) move with
        | Some (g, h) =>
            let h := push h (moveHistory g) move in
            match load h g with
            | Some v' =>
                Some (true,
                      mkEngine g (fenHistory this
                                  ++ [ChessEngine.fenOf (chess.position v')]),
                      h)
            | None => None
            end
        | None => None
        end
  | None => None
  end.

Definition reset (h : list Obj) (this : Engine) : Engine * list Obj :=
  let '(g, h) := createInitialGameState h in (mkEngine g [], h).

End EngineHeap.

(** ** JavaScript numbers that occur as search scores *)

Module JSNum.

Inductive num :=
| NaN
| NegInf
| Fin (z : Z)
| PosInf.

#[global] Instance num_eq_dec : EqDecision num.
Proof. solve_decision. Defined.

Definition add (a b : num) : num :=
  match a, b with
  | NaN, _ | _, NaN => NaN
  | Fin x, Fin y => Fin (x + y)
  | PosInf, NegInf | NegInf, PosInf => NaN
  | PosInf, _ | _, PosInf => PosInf
  | NegInf, _ | _, NegInf => NegInf
  end.

Definition neg (a : num) : num :=
  match a with
  | NaN => NaN
  | NegInf => PosInf
  | Fin x => Fin (- x)
  | PosInf => NegInf
  end.

(** [a < b]; every comparison with [NaN] is false. *)
Definition ltb (a b : num) : bool :=
  match a, b with
  | NaN, _ | _, NaN => false
  | _, NegInf => false
  | NegInf, _ => true
  | PosInf, _ => false
  | Fin _, PosInf => true
  | Fin x, Fin y => x <? y
  end.

Definition eqb (a b : num) : bool :=
  match a, b with
  | NaN, _ | _, NaN => false
  | _, _ => bool_decide (a = b)
  end.

Definition leb (a b : num) : bool := ltb a b || eqb a b.
Definition gtb (a b : num) : bool := ltb b a.
Definition geb (a b : num) : bool := leb b a.

(** [Math.max], [Math.min], [Math.abs] *)
Definition max (a b : num) : num :=
  match a, b with
  | NaN, _ | _, NaN => NaN
  | _, _ => if ltb a b then b else a
  end.

Definition min (a b : num) : num :=
  match a, b with
  | NaN, _ | _, NaN => NaN
  | _, _ => if ltb b a then b else a
  end.

Definition abs (a : num) : num :=
  match a with
  | NaN => NaN
  | NegInf | PosInf => PosInf
  | Fin x => Fin (Z.abs x)
  end.

End JSNum.

(** ** ai/ChessAI.ts *)

Module ChessAI.
Import JSNum.

(** An entry of [transpositionTable]. *)
Record TTEntry := mkTTEntry {
  tt_score : num;
  tt_depth : nat;
  tt_move : option Move
}.

(** The fields of the class. *)
Record AI := mkAI {
  config : AIConfig;
  transpositionTable : gmap string TTEntry;
  killerMoves : list (list Move);
  historyTable : gmap string Z
}.

(** [new ChessAI(config)]; [initializeKillerMoves] makes 20 empty lists. *)
Definition create (config : AIConfig) : AI :=
  mkAI config ∅ (repeat [] 20) ∅.

Definition getPieceValue (pieceType : PieceType) : Z :=
  match pieceType with
  | pawn => 100 | knight => 320 | bishop => 330
  | rook => 500 | queen => 900 | king => 20000
  end.

Definition getPieceSquareTables (pieceType : PieceType) : list Z :=
  match pieceType with
  | pawn =>
      [ 0;  0;  0;  0;  0;  0;  0;  0;
        50; 50; 50; 50; 50; 50; 50; 50;
        10; 10; 20; 30; 30; 20; 10; 10;
        5;  5; 10; 25; 25; 10;  5;  5;
        0;  0;  0; 20; 20;  0;  0;  0;
        5; -5;-10;  0;  0;-10; -5;  5;
        5; 10; 10;-20;-20; 10; 10;  5;
        0;  0;  0;  0;  0;  0;  0;  0 ]
  | knight =>
      [ -50;-40;-30;-30;-30;-30;-40;-50;
        -40;-20;  0;  0;  0;  0;-20;-40;
        -30;  0; 10; 15; 15; 10;  0;-30;
        -30;  5; 15; 20; 20; 15;  5;-30;
        -30;  0; 15; 20; 20; 15;  0;-30;
        -30;  5; 10; 15; 15; 10;  5;-30;
        -40;-20;  0;  5;  5;  0;-20;-40;
        -50;-40;-30;-30;-30;-30;-40;-50 ]
  | bishop =>
      [ -20;-10;-10;-10;-10;-10;-10;-20;
        -10;  0;  0;  0;  0;  0;  0;-10;
        -10;  0;  5; 10; 10;  5;  0;-10;
        -10;  5;  5; 10; 10;  5;  5;-10;
        -10;  0; 10; 10; 10; 10;  0;-10;
        -10; 10; 10; 10; 10; 10; 10;-10;
        -10;  5;  0;  0;  0;  0;  5;-10;
        -20;-10;-10;-10;-10;-10;-10;-20 ]
  | rook =>
      [ 0;  0;  0;  0;  0;  0;  0;  0;
        5; 10; 10; 10; 10; 10; 10;  5;
        -5;  0;  0;  0;  0;  0;  0; -5;
        -5;  0;  0;  0;  0;  0;  0; -5;
        -5;  0;  0;  0;  0;  0;  0; -5;
        -5;  0;  0;  0;  0;  0;  0; -5;
        -5;  0;  0;  0;  0;  0;  0; -5;
        0;  0;  0;  5;  5;  0;  0;  0 ]
  | queen =>
      [ -20;-10;-10; -5; -5;-10;-10;-20;
        -10;  0;  0;  0;  0;  0;  0;-10;
        -10;  0;  5;  5;  5;  5;  0;-10;
        -5;  0;  5;  5;  5;  5;  0; -5;
        0;  0;  5;  5;  5;  5;  0; -5;
        -10;  5;  5;  5;  5;  5;  0;-10;
        -10;  0;  5;  0;  0;  0;  0;-10;
        -20;-10;-10; -5; -5;-10;-10;-20 ]
  | king =>
      [ -30;-40;-40;-50;-50;-40;-40;-30;
        -30;-40;-40;-50;-50;-40;-40;-30;
        -30;-40;-40;-50;-50;-40;-40;-30;
        -30;-40;-40;-50;-50;-40;-40;-30;
        -20;-30;-30;-40;-40;-30;-30;-20;
        -10;-20;-20;-20;-20;-20;-20;-10;
        20; 20;  0;  0;  0;  0; 20; 20;
        20; 30; 10;  0;  0; 10; 30; 20 ]
  end.

(** [square.charCodeAt(0) - 97]; [NaN] on the empty string. *)
Definition fileCode (square : string) : option Z :=
  match char_at square 0 with
  | Some c => Some (Z.of_nat (nat_of_ascii c) - 97)
  | None => None
  end.

(** [parseInt(square[1]) - 1] *)
Definition rankCode (square : string) : option Z :=
  match parseInt_char (char_at square 1) with
  | Some r => Some (r - 1)
  | None => None
  end.

Definition squareToIndex (square : string) : option Z :=
  match fileCode square, rankCode square with
  | Some file, Some rank => Some (rank * 8 + file)
  | _, _ => None
  end.

(** [table[i]] as a number in arithmetic: [undefined] adds as [NaN]. *)
Definition tableAt (table : list Z) (i : option Z) : num :=
  match i with
  | Some i =>
      if (0 <=? i) then
        match nth_error table (Z.to_nat i) with
        | Some v => Fin v
        | None => NaN
        end
      else NaN
  | None => NaN
  end.

Definition getMVVLVA (move : Move) : Z :=
  match captured move with
  | None => 0
  | Some victim =>
      getPieceValue (type victim) * 10 - getPieceValue (type (piece move))
  end.

Definition evaluateMaterial (gameState : GameState) : Z :=
  fold_left (fun score '(_, slot) =>
               match truthy slot with
               | Some piece =>
                   let value := getPieceValue (type piece) in
                   score + (if bool_decide (color piece = white)
                            then value else - value)
               | None => score
               end)
            (position gameState) 0.

Definition evaluatePosition_Positional (gameState : GameState) : num :=
  fold_left (fun score '(square, slot) =>
               match truthy slot with
               | Some piece =>
                   let tableValue :=
                     tableAt (getPieceSquareTables (type piece))
                             (squareToIndex square) in
                   add score (if bool_decide (color piece = white)
                              then tableValue else neg tableValue)
               | None => score
               end)
            (position gameState) (Fin 0).

Definition findKing (position : Position) (c : PieceColor) : option string :=
  MoveGenerator.findKing position c.

Definition getKingSafetyScore (gameState : GameState) (kingSquare : string)
    (c : PieceColor) : Z :=
  match fileCode kingSquare, rankCode kingSquare with
  | Some file, Some rank =>
      if (2 <=? file) && (file <=? 5) && (2 <=? rank) && (rank <=? 5)
      then -20 else 0
  | _, _ => 0
  end.

Definition evaluateKingSafety (gameState : GameState) : Z :=
  let score := 0 in
  let score :=
    match findKing (position gameState) white with
    | Some sq => score + getKingSafetyScore gameState sq white
    | None => score
    end in
  match findKing (position gameState) black with
  | Some sq => score - getKingSafetyScore gameState sq black
  | None => score
  end.

Definition rankNumbers : list ascii := ChessBoard.RANKS.

(** [position[file + rank]?.type === 'pawn'] with the given colour *)
Definition pawnAt (gameState : GameState) (file rank : ascii) (c : PieceColor)
  : bool :=
  match truthy (pos_get (position gameState) (String file (String rank ""))) with
  | Some p => bool_decide (type p = pawn) && bool_decide (color p = c)
  | None => false
  end.

Definition hasAdjacentPawns (gameState : GameState)
    (leftFile rightFile : option ascii) (c : PieceColor) : bool :=
  if negb (present leftFile) && negb (present rightFile) then false
  else
    existsb (fun rank =>
               (match leftFile with
                | Some f => pawnAt gameState f rank c | None => false end)
               || (match rightFile with
                   | Some f => pawnAt gameState f rank c | None => false end))
            rankNumbers.

(** [files[i]] for an index that may fall outside the array. *)
Definition fileAt (i : Z) : option ascii :=
  if i <? 0 then None else nth_error ChessBoard.FILES (Z.to_nat i).

Definition evaluatePawnStructure (gameState : GameState) : Z :=
  fold_left (fun score file =>
     let pawnsOf c :=
       Z.of_nat (length (List.filter (fun rank => pawnAt gameState file rank c)
                                     rankNumbers)) in
     let whitePawns := pawnsOf white in
     let blackPawns := pawnsOf black in
     let score := if 1 <? whitePawns then score - 20 * (whitePawns - 1)
                  else score in
     let score := if 1 <? blackPawns then score + 20 * (blackPawns - 1)
                  else score in
     let idx := ChessBoard.indexOf ChessBoard.FILES (Some file) in
     let leftFile := fileAt (idx - 1) in
     let rightFile := fileAt (idx + 1) in
     let score :=
       if (0 <? whitePawns)
          && negb (hasAdjacentPawns gameState leftFile rightFile white)
       then score - 15 else score in
     if (0 <? blackPawns)
        && negb (hasAdjacentPawns gameState leftFile rightFile black)
     then score + 15 else score)
   ChessBoard.FILES 0.

Definition evaluatePosition (gameState : GameState) : num :=
  let score := Fin 0 in
  let score := add score (Fin (evaluateMaterial gameState)) in
  let score := add score (evaluatePosition_Positional gameState) in
  let score := add score (Fin (evaluateKingSafety gameState)) in
  let score := add score (Fin (evaluatePawnStructure gameState)) in
  if bool_decide (activeColor gameState = white) then score else neg score.

Definition makeMove (gameState : GameState) (move : Move) : GameState :=
  let newPosition := position gameState in
  let newPosition := pos_set newPosition (to move) (Occupied (piece move)) in
  let newPosition := pos_set newPosition (from move) Null in
  mkGameState newPosition (opponent (activeColor gameState))
              (castlingRights gameState) (enPassantTarget gameState)
              (halfmoveClock gameState) (fullmoveNumber gameState)
              (moveHistory gameState).

(** [piece.color[0]] and [piece.type[0]] *)
Definition colorInitial (c : PieceColor) : ascii :=
  match c with white => "w" | black => "b" end%char.
Definition typeInitial (t : PieceType) : ascii :=
  match t with
  | pawn => "p" | rook => "r" | knight => "k"
  | bishop => "b" | queen => "q" | king => "k"
  end%char.

Definition getPositionKey (gameState : GameState) : string :=
  fold_right (fun rank acc =>
    fold_right (fun file acc =>
                  match truthy (pos_get (position gameState)
                                        (String file (String rank ""))) with
                  | Some piece =>
                      String (colorInitial (color piece))
                             (String (typeInitial (type piece)) acc)
                  | None => String "-"%char acc
                  end)
               acc ChessBoard.FILES)
    (String (colorInitial (activeColor gameState)) "")
    (rev ChessBoard.RANKS).

Definition typeName (t : PieceType) : string :=
  match t with
  | pawn => "pawn" | rook => "rook" | knight => "knight"
  | bishop => "bishop" | queen => "queen" | king => "king"
  end.

Definition getMoveKey (move : Move) : string :=
  from move +:+ "-" +:+ to move +:+ "-" +:+ typeName (type (piece move)).

(** [Array.prototype.sort] is stable; with a comparator [score b - score a]
    it is the stable sort by decreasing score. *)
Fixpoint insertByScore (score : Move → Z) (x : Move) (l : list Move)
  : list Move :=
  match l with
  | [] => [x]
  | y :: rest =>
      if score x <? score y then y :: insertByScore score x rest
      else x :: y :: rest
  end.

Definition sortByScore (score : Move → Z) (l : list Move) : list Move :=
  fold_right (insertByScore score) [] l.

(** [this.killerMoves[ply].includes(a)] compares object references.  The
    array sorted by [orderMoves] was allocated by the call of
    [generateLegalMoves] in its argument, the killer lists hold objects of
    earlier calls, so no element is ever found. *)
Definition includesRef (killers : list Move) (a : Move) : bool := false.

Definition orderScore (this : AI) (ply : nat) (a : Move) : Z :=
  let scoreA := 0 in
  let scoreA := if present (captured a) then scoreA + getMVVLVA a else scoreA in
  let scoreA := if present (promotion a) then scoreA + 900 else scoreA in
  let scoreA :=
    if Nat.ltb ply (length (killerMoves this))
       && includesRef (nth ply (killerMoves this) []) a
    then scoreA + 100 else scoreA in
  let historyA := default 0 (historyTable this !! getMoveKey a) in
  scoreA + historyA.

Definition orderMoves (this : AI) (moves : list Move) (ply : nat) : list Move :=
  sortByScore (orderScore this ply) moves.

(** The capture loop of [quiescenceSearch]; [recur] is the recursive call
    one ply deeper. *)
Fixpoint quiescenceLoop (recur : GameState → num → num → num)
    (gameState : GameState) (isMaximizing : bool) (captures : list Move)
    (alpha beta : num) : num :=
  match captures with
  | [] => if isMaximizing then alpha else beta
  | move :: rest =>
      let newGameState := makeMove gameState move in
      let score := recur newGameState alpha beta in
      if isMaximizing then
        if geb score beta then beta
        else quiescenceLoop recur gameState isMaximizing rest
                            (max alpha score) beta
      else
        if leb score alpha then alpha
        else quiescenceLoop recur gameState isMaximizing rest
                            alpha (min beta score)
  end.

(** [quiescenceSearch] at [depth = 11 - remaining]: with nothing remaining
    the test [depth > 10] succeeds. *)
Fixpoint quiescenceFrom (remaining : nat) (gameState : GameState)
    (alpha beta : num) (isMaximizing : bool) : num :=
  match remaining with
  | O => evaluatePosition gameState
  | S remaining' =>
      let standPat := evaluatePosition gameState in
      let cut :=
        if isMaximizing then geb standPat beta else leb standPat alpha in
      if cut then (if isMaximizing then beta else alpha)
      else
        let alpha := if isMaximizing then max alpha standPat else alpha in
        let beta := if isMaximizing then beta else min beta standPat in
        let captures :=
          sortByScore getMVVLVA
            (List.filter (fun move => present (captured move))
                         (MoveGenerator.generateLegalMoves gameState)) in
        quiescenceLoop
          (fun g a b => quiescenceFrom remaining' g a b (negb isMaximizing))
          gameState isMaximizing captures alpha beta
  end.

Definition quiescenceSearch (gameState : GameState) (alpha beta : num)
    (isMaximizing : bool) (depth : nat) : num :=
  quiescenceFrom (11 - depth) gameState alpha beta isMaximizing.

(** [killerMoves[ply].unshift(move)] followed by [slice(0, 2)], under the
    guard [!move.captured && ply < killerMoves.length]. *)
Definition storeKiller (this : AI) (move : Move) (ply : nat) : AI :=
  if negb (present (captured move)) && Nat.ltb ply (length (killerMoves this))
  then
    mkAI (config this) (transpositionTable this)
         (<[ply := take 2 (move :: nth ply (killerMoves this) [])]>
            (killerMoves this))
         (historyTable this)
  else this.

Definition storeEntry (this : AI) (positionKey : string) (e : TTEntry) : AI :=
  mkAI (config this) (<[positionKey := e]> (transpositionTable this))
       (killerMoves this) (historyTable this).

(** [ttEntry && ttEntry.depth >= depth] *)
Definition ttHit (this : AI) (positionKey : string) (depth : nat)
  : option TTEntry :=
  match transpositionTable this !! positionKey with
  | Some ttEntry => if Nat.leb depth (tt_depth ttEntry) then Some ttEntry
                    else None
  | None => None
  end.

(** The result object [{ score, move }]. *)
Record SearchResult := mkResult { score : num; move : option Move }.

Fixpoint minimax (this : AI) (gameState : GameState) (depth : nat)
    (alpha beta : num) (isMaximizing : bool) (ply : nat) {struct depth}
  : AI * SearchResult :=
  let positionKey := getPositionKey gameState in
  match ttHit this positionKey depth with
  | Some ttEntry => (this, mkResult (tt_score ttEntry) (tt_move ttEntry))
  | None =>
      match depth with
      | O =>
          (this, mkResult (quiescenceSearch gameState alpha beta isMaximizing 0)
                          None)
      | S depth' =>
          let moves :=
            orderMoves this (MoveGenerator.generateLegalMoves gameState) ply in
          if Nat.eqb (length moves) 0 then
            let isInCheck :=
              MoveGenerator.isInCheck gameState (activeColor gameState) in
            if isInCheck then
              (this, mkResult (if isMaximizing
                               then Fin (-10000 + Z.of_nat ply)
                               else Fin (10000 - Z.of_nat ply)) None)
            else (this, mkResult (Fin 0) None)
          else
            let '(this, bestScore, bestMove) :=
              (fix loop (moves : list Move) (this : AI) (alpha beta : num)
                   (bestScore : num) (bestMove : option Move)
                 : AI * num * option Move :=
                 match moves with
                 | [] => (this, bestScore, bestMove)
                 | move :: rest =>
                     let newGameState := makeMove gameState move in
                     let '(this, result) :=
                       minimax this newGameState depth' alpha beta
                               (negb isMaximizing) (S ply) in
                     let better :=
                       if isMaximizing then gtb (score result) bestScore
                       else ltb (score result) bestScore in
                     let bestScore :=
                       if better then score result else bestScore in
                     let bestMove := if better then Some move else bestMove in
                     let alpha :=
                       if isMaximizing then max alpha bestScore else alpha in
                     let beta :=
                       if isMaximizing then beta else min beta bestScore in
                     if leb beta alpha
                     then (storeKiller this move ply, bestScore, bestMove)
                     else loop rest this alpha beta bestScore bestMove
                 end)
                moves this alpha beta
                (if isMaximizing then NegInf else PosInf) None in
            (storeEntry this positionKey
                        (mkTTEntry bestScore depth bestMove),
             mkResult bestScore bestMove)
      end
  end.

(** [getBestMove]; [now k] is the value of the [k]-th call of [Date.now()]
    (call 0 sets [startTime], call [d] precedes the iteration at depth [d]).
    [remaining] counts the iterations up to [config.depth]. *)
Fixpoint iterativeDeepening (now : nat → Z) (startTime : Z) (this : AI)
    (gameState : GameState) (remaining depth : nat)
    (bestMove : option Move) (bestScore : num) : AI * option Move :=
  match remaining with
  | O => (this, bestMove)
  | S remaining' =>
      if timeLimit (config this) <? now depth - startTime
      then (this, bestMove)
      else
        let '(this, result) :=
          minimax this gameState depth NegInf PosInf true 0 in
        let bestScore :=
          if present (move result) then score result else bestScore in
        let bestMove :=
          if present (move result) then move result else bestMove in
        if gtb (abs bestScore) (Fin 9000) then (this, bestMove)
        else iterativeDeepening now startTime this gameState remaining'
                                (S depth) bestMove bestScore
  end.

Definition getBestMove (now : nat → Z) (this : AI) (gameState : GameState)
  : AI * option Move :=
  iterativeDeepening now (now O) this gameState (chess.depth (config this)) 1
                     None NegInf.

Inductive Level := easy | medium | hard | expert.

Definition setDifficulty (this : AI) (level : Level) : AI :=
  let config :=
    match level with
    | easy => mkAIConfig 2 1000 false false
    | medium => mkAIConfig 4 3000 true false
    | hard => mkAIConfig 6 5000 true true
    | expert => mkAIConfig 8 10000 true true
    end in
  mkAI config (transpositionTable this) (killerMoves this) (historyTable this).

End ChessAI.

(** ** ChessUI (src/unnamed/part_000): the values it computes

    The class draws into the DOM and talks to the network.  What is
    modelled is what its methods compute: the squares [renderBoard]
    creates, and the decision [handleSquareClick] takes, whose call
    [this.makeMove(move)] is returned as the move it submits. *)

Module ChessUI.

(** The [div] of one square: the colour in its [className], its
    [dataset.square], and the piece symbol in its [innerHTML] (by code
    point), if any. *)
Record SquareElement := mkSquareElement {
  className : ChessBoard.SquareColor;
  square : Square;
  innerHTML : option Z
}.

(** The symbols U+2654 to U+265F. *)
Definition getPieceSymbol (piece : Piece) : Z :=
  match color piece, type piece with
  | white, king => 9812 | white, queen => 9813 | white, rook => 9814
  | white, bishop => 9815 | white, knight => 9816 | white, pawn => 9817
  | black, king => 9818 | black, queen => 9819 | black, rook => 9820
  | black, bishop => 9821 | black, knight => 9822 | black, pawn => 9823
  end.

(** The elements [renderBoard] appends, in order: [rank] runs from 8 down
    to 1, [file] from 0 to 7. *)
Definition renderBoard (position : Position) : list SquareElement :=
  flat_map
    (fun rank =>
       map (fun file =>
              let fileChar := ascii_of_nat (97 + file) in
              let square := String fileChar (ChessEngine.digit rank) in
              mkSquareElement
                (if Nat.eqb ((file + rank) mod 2) 0
                 then ChessBoard.dark else ChessBoard.light)
                square
                (option_map getPieceSymbol (truthy (pos_get position square))))
           [0; 1; 2; 3; 4; 5; 6; 7]%nat)
    [8; 7; 6; 5; 4; 3; 2; 1]%nat.

(** The fields [handleSquareClick] reads and writes. *)
Record UI := mkUI {
  engine : ChessEngine.Engine;
  selectedSquare : option Square;
  legalMoves : list Move;
  isPlayerTurn : bool
}.

Definition selectSquare (this : UI) (square : Square) : UI :=
  mkUI (engine this) (Some square)
       (List.filter (fun move => String.eqb (from move) square)
                    (ChessEngine.getLegalMoves (engine this)))
       (isPlayerTurn this).

(** [piece && piece.color === gameState.activeColor] *)
Definition ownPiece (gameState : GameState) (square : Square) : bool :=
  match truthy (pos_get (position gameState) square) with
  | Some piece => bool_decide (color piece = activeColor gameState)
  | None => false
  end.

(** The new fields and the argument of [this.makeMove], if it is called.
    An empty string in [selectedSquare] is falsy like [null]. *)
Definition handleSquareClick (this : UI) (square : Square)
  : UI * option Move :=
  if negb (isPlayerTurn this) then (this, None)
  else
    let gameState := ChessEngine.getGameState (engine this) in
    let deselected :=
      mkUI (engine this) None (legalMoves this) (isPlayerTurn this) in
    let selected :=
      match selectedSquare this with
      | Some s => if String.eqb s "" then None else Some s
      | None => None
      end in
    match selected with
    | Some selectedSquare =>
        if String.eqb selectedSquare square then (deselected, None)
        else
          match List.find (fun m => String.eqb (from m) selectedSquare
                                    && String.eqb (to m) square)
                          (legalMoves this) with
          | Some move => (this, Some move)
          | None =>
              if ownPiece gameState square
              then (selectSquare this square, None)
              else (deselected, None)
          end
    | None =>
        if ownPiece gameState square then (selectSquare this square, None)
        else (this, None)
    end.

End ChessUI.

(** ** Notions used to state the properties *)

(** The states an engine goes through: one entry per accepted move, as
    [makeMove] records one history entry per accepted move. *)
Fixpoint recordedStates (this : ChessEngine.Engine) (moves : list Move)
  : list GameState :=
  match moves with
  | [] => []
  | m :: rest =>
      let '(ok, next) := ChessEngine.makeMove this m in
      if ok then ChessEngine.gameState next :: recordedStates next rest
      else recordedStates next rest
  end.

(** The repetition key as the specification words it: the piece placement
    together with the side to move. *)
Definition placementAndSide (g : GameState) : string * PieceColor :=
  (ChessEngine.fenOf (position g), activeColor g).

(** Threefold repetition as the specification words it. *)
Definition repeatsWithSide (recorded : list GameState) (current : GameState)
  : bool :=
  Nat.leb 3 (length (List.filter
                       (fun g => bool_decide (placementAndSide g
                                              = placementAndSide current))
                       recorded)).

(** Pointwise order on castling rights: no flag of [r'] is set that is
    clear in [r]. *)
Definition rights_leb (r' r : CastlingRights) : bool :=
  implb (whiteKingside r') (whiteKingside r)
  && implb (whiteQueenside r') (whiteQueenside r)
  && implb (blackKingside r') (blackKingside r)
  && implb (blackQueenside r') (blackQueenside r).

(** How often a key occurs in the engine's repetition history. *)
Definition occurrences (key : string) (history : list string) : nat :=
  length (List.filter (fun pos => String.eqb pos key) history).

(** Two states with the same board. *)
Definition boardOnly (g : GameState) : GameState :=
  mkGameState (position g) (activeColor g)
              (mkCastlingRights false false false false) None 0 0 [].

(** The test [move.to === kingSquare] of [isInCheck]. *)
Definition hits (kingSquare : Square) (moves : list Move) : bool :=
  existsb (fun move => String.eqb (to move) kingSquare) moves.

(** What the generator guarantees about a move that promotes. *)
Definition wellShaped (m : Move) : Prop :=
  promotion m = None
  ∨ (castling m = None ∧ enPassant m = false ∧ from m ≠ to m).

(** The heap an accepted move leaves: two fresh objects at the end, and
    the old history array extended in place. *)
Definition heapAfter (h : list EngineHeap.Obj)
    (g : EngineHeap.GameStateObj) (v : GameState)
    (move : Move) : list EngineHeap.Obj :=
  <[EngineHeap.moveHistory g :=
      EngineHeap.MovesObj (chess.moveHistory v ++ [move])]>
    ((h ++ [EngineHeap.PositionObj (ChessEngine.nextPosition v move)])
       ++ [EngineHeap.RightsObj (ChessEngine.nextCastlingRights v move)]).

Definition stateAfter (h : list EngineHeap.Obj)
    (g : EngineHeap.GameStateObj) (v : GameState)
    (move : Move) : EngineHeap.GameStateObj :=
  EngineHeap.mkGameStateObj
    (length h) (opponent (EngineHeap.activeColor g)) (S (length h))
    (ChessEngine.nextEnPassantTarget move)
    (ChessEngine.nextHalfmoveClock v move)
    (ChessEngine.nextFullmoveNumber v)
    (EngineHeap.moveHistory g).

(** A move whose [captured] field tells what it takes off the board: the
    occupant of its destination, or for an en-passant capture some piece. *)
Definition reportsCapture (position : Position) (m : Move) : Prop :=
  if enPassant m then present (captured m) = true
  else captured m = truthy (pos_get position (to m)).

Section GeometryNotions.
Import ChessBoard MoveGenerator.

(** The squares the loop visits, by index. *)
Definition visited (cf cr sf sr : Z) (j : nat) : Square :=
  nameAt FILES (cf + Z.of_nat j * sf) +:+ nameAt RANKS (cr + Z.of_nat j * sr).

(** Two squares are aligned when they share a file, a rank or a diagonal. *)
Definition aligned (from to : Square) : Prop :=
  let '(ff, fr) := squareToCoordinates from in
  let '(tf, tr) := squareToCoordinates to in
  tf = ff ∨ tr = fr ∨ Z.abs (tf - ff) = Z.abs (tr - fr).

(** A quiet move or a capture onto [sq], as the loops of the generator
    build them from the occupant of [sq]. *)
Definition landsOn (position : Position) (from : Square) (piece : Piece)
    (sq : Square) (m : Move) : Prop :=
  (truthy (pos_get position sq) = None ∧ m = quiet from sq piece)
  ∨ (∃ target, truthy (pos_get position sq) = Some target
               ∧ color target ≠ color piece
               ∧ m = capture from sq piece target).

(** The four castling moves and what each requires. *)
Definition castlingRule (c : PieceColor) (side : CastlingSide)
  : Square * Square * list Square * Square * (CastlingRights → bool) :=
  match c, side with
  | white, kingside => ("e1", "g1", ["f1"; "g1"], "h1", whiteKingside)
  | white, queenside => ("e1", "c1", ["d1"; "c1"; "b1"], "a1", whiteQueenside)
  | black, kingside => ("e8", "g8", ["f8"; "g8"], "h8", blackKingside)
  | black, queenside => ("e8", "c8", ["d8"; "c8"; "b8"], "a8", blackQueenside)
  end.

(** How far a move goes, in files and ranks. *)
Definition displacement (m : Move) : Z * Z :=
  (fst (squareToCoordinates (to m)) - fst (squareToCoordinates (from m)),
   snd (squareToCoordinates (to m)) - snd (squareToCoordinates (from m))).

(** The movement of each kind of piece. *)
Definition followsGeometry (m : Move) : Prop :=
  let '(df, dr) := displacement m in
  let forward := if bool_decide (color (piece m) = white) then 1 else -1 in
  match type (piece m) with
  | knight => (Z.abs df = 1 ∧ Z.abs dr = 2) ∨ (Z.abs df = 2 ∧ Z.abs dr = 1)
  | bishop => Z.abs df = Z.abs dr ∧ df ≠ 0
  | rook => (df = 0 ∧ dr ≠ 0) ∨ (dr = 0 ∧ df ≠ 0)
  | queen => (Z.abs df = Z.abs dr ∧ df ≠ 0)
             ∨ (df = 0 ∧ dr ≠ 0) ∨ (dr = 0 ∧ df ≠ 0)
  | king => (castling m = None ∧ Z.abs df ≤ 1 ∧ Z.abs dr ≤ 1
             ∧ (df ≠ 0 ∨ dr ≠ 0))
            ∨ (castling m ≠ None ∧ Z.abs df = 2 ∧ dr = 0)
  | pawn => (captured m = None ∧ df = 0 ∧ (dr = forward ∨ dr = 2 * forward))
            ∨ (captured m ≠ None ∧ Z.abs df = 1 ∧ dr = forward)
  end.

(** Directions of the three sliding pieces. *)
Definition unitDirection (fd rd : Z) : Prop :=
  Z.abs fd ≤ 1 ∧ Z.abs rd ≤ 1 ∧ (fd ≠ 0 ∨ rd ≠ 0).


(** The three constants of [generatePawnMoves]. *)
Definition forward (piece : Piece) : Z :=
  if bool_decide (color piece = white) then 1 else -1.
Definition startRankOf (piece : Piece) : Z :=
  if bool_decide (color piece = white) then 1 else 6.
Definition lastRankOf (piece : Piece) : Z :=
  if bool_decide (color piece = white) then 7 else 0.

(** The pawn moves, one constructor per [push] of [generatePawnMoves], for
    a pawn [piece] standing on [from], at coordinates [file] and [rank]. *)
Inductive PawnMove (gs : GameState) (from : Square) (piece : Piece)
    (file rank : Z) : Move → Prop :=
| SinglePush sq :
    coordinatesToSquare file (rank + forward piece) = Some sq →
    vacant (position gs) sq = true →
    rank + forward piece ≠ lastRankOf piece →
    PawnMove gs from piece file rank (quiet from sq piece)
| PromotingPush sq t :
    coordinatesToSquare file (rank + forward piece) = Some sq →
    vacant (position gs) sq = true →
    rank + forward piece = lastRankOf piece →
    In t promotionPieces →
    PawnMove gs from piece file rank
             (mkMove from sq piece None (Some t) None false)
| DoublePush sq1 sq2 :
    coordinatesToSquare file (rank + forward piece) = Some sq1 →
    vacant (position gs) sq1 = true →
    rank + forward piece ≠ lastRankOf piece →
    rank = startRankOf piece →
    coordinatesToSquare file (rank + 2 * forward piece) = Some sq2 →
    vacant (position gs) sq2 = true →
    PawnMove gs from piece file rank (quiet from sq2 piece)
| PawnCapture off sq target :
    In off [-1; 1] →
    coordinatesToSquare (file + off) (rank + forward piece) = Some sq →
    truthy (pos_get (position gs) sq) = Some target →
    color target ≠ color piece →
    rank + forward piece ≠ lastRankOf piece →
    PawnMove gs from piece file rank (capture from sq piece target)
| PromotingCapture off sq target t :
    In off [-1; 1] →
    coordinatesToSquare (file + off) (rank + forward piece) = Some sq →
    truthy (pos_get (position gs) sq) = Some target →
    color target ≠ color piece →
    rank + forward piece = lastRankOf piece →
    In t promotionPieces →
    PawnMove gs from piece file rank
             (mkMove from sq piece (Some target) (Some t) None false)
| EnPassant off sq sqp cp :
    In off [-1; 1] →
    coordinatesToSquare (file + off) (rank + forward piece) = Some sq →
    enPassantTarget gs = Some sq →
    coordinatesToSquare (file + off) rank = Some sqp →
    truthy (pos_get (position gs) sqp) = Some cp →
    PawnMove gs from piece file rank
             (mkMove from sq piece (Some cp) None None true).

End GeometryNotions.

(** A position with the 64 squares as keys, in the order of
    [createInitialPosition], and no [undefined] slot. *)
Definition fullBoard (p : Position) : Prop :=
  map fst p = ChessBoard.getAllSquares
  ∧ Forall (fun e => snd e ≠ Undefined) p.

(** The moves an engine accepts out of the submitted ones. *)
Fixpoint acceptedMoves (this : ChessEngine.Engine) (moves : list Move)
  : list Move :=
  match moves with
  | [] => []
  | m :: rest =>
      let '(ok, next) := ChessEngine.makeMove this m in
      if ok then m :: acceptedMoves next rest else acceptedMoves next rest
  end.

(** What the engine's counters say after [n] accepted moves. *)
Definition counts (this : ChessEngine.Engine) (n : nat) : Prop :=
  length (ChessEngine.moveHistory this) = n
  ∧ activeColor (ChessEngine.gameState this) = (if Nat.even n then white else black)
  ∧ fullmoveNumber (ChessEngine.gameState this) = 1 + Z.of_nat n / 2
  ∧ 0 <= halfmoveClock (ChessEngine.gameState this) <= Z.of_nat n.

(** Reading a placement string back, square by square: a digit stands for
    that many empty squares, [/] ends a rank, any other character is a
    piece. *)
Fixpoint readPlacement (s : string) : list (option ascii) :=
  match s with
  | EmptyString => []
  | String c rest =>
      let n := nat_of_ascii c in
      if Ascii.eqb c "/" then readPlacement rest
      else if (Nat.leb 48 n && Nat.leb n 57)%bool
           then repeat None (n - 48) ++ readPlacement rest
           else Some c :: readPlacement rest
  end.

(** What [positionToFEN] reads on one square. *)
Definition occupant (position : Position) (file rank : Z) : option Piece :=
  match ChessBoard.coordinatesToSquare file rank with
  | Some square => truthy (pos_get position square)
  | None => None
  end.

(** The character [positionToFEN] writes for a piece. *)
Definition letter (p : Piece) : ascii :=
  if bool_decide (color p = white)
  then ChessEngine.toUpperCase (ChessEngine.pieceToChar p)
  else ChessEngine.pieceToChar p.

(** Submitting a list of moves to the engine on references. *)
Fixpoint playOnHeap (h : list EngineHeap.Obj) (this : EngineHeap.Engine)
    (moves : list Move) : option (EngineHeap.Engine * list EngineHeap.Obj) :=
  match moves with
  | [] => Some (this, h)
  | m :: rest =>
      match EngineHeap.makeMove h this m with
      | Some (_, next, h') => playOnHeap h' next rest
      | None => None
      end
  end.

(** A state with another list of moves in its [moveHistory]. *)
Definition withHistory (v : GameState) (l : list Move) : GameState :=
  mkGameState (position v) (activeColor v) (castlingRights v)
              (enPassantTarget v) (halfmoveClock v) (fullmoveNumber v) l.

(** The value-level engine a reference-level engine stands for when its
    state denotes [v]. *)
Definition valueOf (v : GameState) (this : EngineHeap.Engine)
  : ChessEngine.Engine :=
  ChessEngine.mkEngine v (EngineHeap.fenHistory this).

(** The loop over the ordered moves in [minimax], with the recursive call
    one ply deeper as [recur]. *)
Section MinimaxLoop.
Import JSNum.
Variable recur : ChessAI.AI → GameState → num → num
                 → ChessAI.AI * ChessAI.SearchResult.
Variables (gameState : GameState) (isMaximizing : bool) (ply : nat).

Fixpoint minimaxLoop (moves : list Move) (this : ChessAI.AI)
    (alpha beta bestScore : num) (bestMove : option Move)
  : ChessAI.AI * num * option Move :=
  match moves with
  | [] => (this, bestScore, bestMove)
  | move :: rest =>
      let newGameState := ChessAI.makeMove gameState move in
      let '(this, result) := recur this newGameState alpha beta in
      let better :=
        if isMaximizing then gtb (ChessAI.score result) bestScore
        else ltb (ChessAI.score result) bestScore in
      let bestScore := if better then ChessAI.score result else bestScore in
      let bestMove := if better then Some move else bestMove in
      let alpha := if isMaximizing then max alpha bestScore else alpha in
      let beta := if isMaximizing then beta else min beta bestScore in
      if leb beta alpha
      then (ChessAI.storeKiller this move ply, bestScore, bestMove)
      else minimaxLoop rest this alpha beta bestScore bestMove
  end.

End MinimaxLoop.

(** Every stored search result was computed to at most [bound] plies. *)
Definition depthsBelow (bound : nat) (this : ChessAI.AI) : Prop :=
  ∀ key e, ChessAI.transpositionTable this !! key = Some e →
           (ChessAI.tt_depth e ≤ bound)%nat.

(** The killer lists as [storeKiller] keeps them: at most two moves per
    ply, none of them a capture. *)
Definition killersInShape (this : ChessAI.AI) : Prop :=
  Forall (fun l => (length l ≤ 2)%nat ∧ Forall (fun m => captured m = None) l)
         (ChessAI.killerMoves this).

(** What [getPositionKey] writes for the occupant of a square: the two
    initials of a piece, nothing but a dash for an empty square. *)
Definition initials (o : option Piece) : option (ascii * ascii) :=
  option_map (fun p => (ChessAI.colorInitial (color p),
                        ChessAI.typeInitial (type p))) o.

(** One step of the inner loop of [getPositionKey]. *)
Definition cell (o : option Piece) (acc : string) : string :=
  match o with
  | Some piece =>
      String (ChessAI.colorInitial (color piece))
             (String (ChessAI.typeInitial (type piece)) acc)
  | None => String "-"%char acc
  end.

(** A score inside the window of a search. *)
Definition inWindow (alpha beta r : JSNum.num) : Prop :=
  JSNum.leb alpha r = true ∧ JSNum.leb r beta = true.

(** A move with another piece to promote to. *)
Definition promotingTo (m : Move) (t : PieceType) : Move :=
  mkMove (from m) (to m) (piece m) (captured m) (Some t) (castling m)
         (enPassant m).

(** Two occupants of the same side, or two empty squares. *)
Definition sameSide (a b : option Piece) : Prop :=
  option_map color a = option_map color b.

(** A state with another board. *)
Definition withPosition (g : GameState) (p : Position) : GameState :=
  mkGameState p (activeColor g) (castlingRights g) (enPassantTarget g)
              (halfmoveClock g) (fullmoveNumber g) (moveHistory g).

(** In a list of moves, every promotion to another piece than the queen
    comes after the promotion to the queen on the same squares. *)
Definition queenFirst (l : list Move) : Prop :=
  ∀ l1 m l2 t,
    l = l1 ++ m :: l2 → promotion m = Some t → t ≠ queen →
    In (promotingTo m queen) l1.

(** A list of moves in which no move has a higher score than a move
    before it. *)
Fixpoint descending (score : Move → Z) (l : list Move) : Prop :=
  match l with
  | [] => True
  | x :: rest => Forall (fun y => score y ≤ score x) rest
                 ∧ descending score rest
  end.

(** ** Concrete positions and games *)

Module Scenario.

Definition emptyBoard : Position :=
  map (fun sq => (sq, Null)) ChessBoard.getAllSquares.

Definition setup (pieces : list (Square * Piece)) : Position :=
  fold_left (fun acc '(sq, p) => pos_set acc sq (Occupied p)) pieces emptyBoard.

Definition noRights : CastlingRights := mkCastlingRights false false false false.

(** 1. e4 e5 2. Ke2 Nf6 3. Kd3 Ng8 4. Ke3 Nf6 5. Ke2 Ng8 6. Kd3 Nf6
    7. Ke2 Ng8.  The placement after 2. Ke2 (Black to move) comes back
    after 5... Ng8 and after 7... Ng8 (White to move both times). *)
Definition triangulation : list Move :=
  let wp := mkPiece pawn white in
  let bp := mkPiece pawn black in
  let wk := mkPiece king white in
  let bn := mkPiece knight black in
  [ MoveGenerator.quiet "e2" "e4" wp; MoveGenerator.quiet "e7" "e5" bp;
    MoveGenerator.quiet "e1" "e2" wk; MoveGenerator.quiet "g8" "f6" bn;
    MoveGenerator.quiet "e2" "d3" wk; MoveGenerator.quiet "f6" "g8" bn;
    MoveGenerator.quiet "d3" "e3" wk; MoveGenerator.quiet "g8" "f6" bn;
    MoveGenerator.quiet "e3" "e2" wk; MoveGenerator.quiet "f6" "g8" bn;
    MoveGenerator.quiet "e2" "d3" wk; MoveGenerator.quiet "g8" "f6" bn;
    MoveGenerator.quiet "d3" "e2" wk; MoveGenerator.quiet "f6" "g8" bn ].

(** White: Ka1, Pe5.  Black: Kh8, Qc2, Pd5, Pe6.  The white king has no
    square, the e-pawn is blocked; White's only move, if any, is the
    en-passant capture on d6. *)
Definition boxedKing : Position :=
  setup [ ("a1", mkPiece king white); ("c2", mkPiece queen black);
          ("h8", mkPiece king black); ("e5", mkPiece pawn white);
          ("e6", mkPiece pawn black); ("d5", mkPiece pawn black) ].

(** Black has just played d7-d5: the capture on d6 is available. *)
Definition afterDoublePush : GameState :=
  mkGameState boxedKing white noRights (Some "d6") 0 40 [].

(** The same board and side to move in a game where the d-pawn came to d5
    in two steps: no en-passant target, White is stalemated. *)
Definition stalemated : GameState :=
  mkGameState boxedKing white noRights None 1 40 [].

Definition searcher : ChessAI.AI :=
  ChessAI.create (mkAIConfig 1 1000 false false).

(** A clock on which no time passes. *)
Definition frozenClock : nat → Z := fun _ => 0.

(** The searcher after it was asked for a move in [afterDoublePush]. *)
Definition searcherAfterFirstCall : ChessAI.AI :=
  fst (ChessAI.getBestMove frozenClock searcher afterDoublePush).

(** [new ChessEngine()] in an empty heap. *)
Definition freshEngine : EngineHeap.Engine := fst (EngineHeap.create []).
Definition freshHeap : list EngineHeap.Obj := snd (EngineHeap.create []).

(** A move that names the right squares and the wrong piece. *)
Definition queenForPawn : Move :=
  MoveGenerator.quiet "e2" "e4" (mkPiece queen white).

Definition e2e4 : Move := MoveGenerator.quiet "e2" "e4" (mkPiece pawn white).


(** The position [boxedKing] with Black to move. *)
Definition queenToMove : GameState :=
  mkGameState boxedKing black noRights None 0 40 [].

(** White: Ke1, Pa7.  Black: Ke8.  White to move. *)
Definition beforePromotion : GameState :=
  mkGameState (setup [ ("e1", mkPiece king white); ("e8", mkPiece king black);
                       ("a7", mkPiece pawn white) ])
              white noRights None 0 60 [].

(** a7-a8 with the piece the pawn becomes. *)
Definition a7a8 (t : PieceType) : Move :=
  mkMove "a7" "a8" (mkPiece pawn white) None (Some t) None false.

(** A board on which nothing is selected yet, in the position
    [beforePromotion]. *)
Definition idleBoard : ChessUI.UI :=
  ChessUI.mkUI (ChessEngine.mkEngine beforePromotion []) None [] true.

(** 1. Nf3 e5: the knight on f3 can take the pawn on e5. *)
Definition knightFacesPawn : list Move :=
  [ MoveGenerator.quiet "g1" "f3" (mkPiece knight white);
    MoveGenerator.quiet "e7" "e5" (mkPiece pawn black) ].

(** The capture on e5 as an object with [from], [to] and [piece] only. *)
Definition bareCapture : Move :=
  MoveGenerator.quiet "f3" "e5" (mkPiece knight white).

(** The same capture as [getLegalMoves] builds it. *)
Definition fullCapture : Move :=
  MoveGenerator.capture "f3" "e5" (mkPiece knight white) (mkPiece pawn black).

End Scenario.

(** * Properties *)

(** ** Positions as objects *)

(** Case analysis on every string comparison in the goal. *)
Ltac eqb_cases :=
  repeat (simpl;
          match goal with
          | |- context [String.eqb ?a ?a] => rewrite (String.eqb_refl a)
          | H : String.eqb ?a ?b = _ |- context [String.eqb ?a ?b] => rewrite H
          | |- context [String.eqb ?a ?b] =>
              let E := fresh "E" in
              destruct (String.eqb a b) eqn:E;
              [apply String.eqb_eq in E; subst|]
          end);
  try congruence.

Section PositionFacts.

Implicit Types (p : Position) (k sq : Square) (v : Slot).

Lemma pos_get_set_same p k v : pos_get (pos_set p k v) k = v.
Proof.
  induction p as [|[k' w] p IH]; simpl.
  - now rewrite String.eqb_refl.
  - destruct (String.eqb k' k) eqn:E; simpl; rewrite E; auto.
Qed.

Lemma pos_get_set_other p k sq v :
  k ≠ sq → pos_get (pos_set p k v) sq = pos_get p sq.
Proof.
  intros Hne. induction p as [|[k' w] p IH]; simpl.
  - destruct (String.eqb k sq) eqn:E; auto.
    apply String.eqb_eq in E. contradiction.
  - destruct (String.eqb k' k) eqn:E; simpl.
    + apply String.eqb_eq in E. subst k'.
      destruct (String.eqb k sq) eqn:E'; auto.
      apply String.eqb_eq in E'. contradiction.
    + destruct (String.eqb k' sq); auto.
Qed.

(** Reading after a write, in one formula. *)
Lemma pos_get_set p k sq v :
  pos_get (pos_set p k v) sq = if String.eqb k sq then v else pos_get p sq.
Proof.
  destruct (String.eqb k sq) eqn:E.
  - apply String.eqb_eq in E. subst. apply pos_get_set_same.
  - apply pos_get_set_other. intros ->. now rewrite String.eqb_refl in E.
Qed.

Lemma pos_set_twice p k (x y : Slot) :
  pos_set (pos_set p k x) k y = pos_set p k y.
Proof. induction p as [|[k' w] p IH]; eqb_cases. Qed.

(** Writing [to], then [from], then [to] again is writing [to] once with
    the last value, then [from]. *)
Lemma pos_set_overwrite p (f t : Square) (x y n : Slot) :
  f ≠ t →
  pos_set (pos_set (pos_set p t x) f n) t y = pos_set (pos_set p t y) f n.
Proof.
  intros Hne. induction p as [|[k w] p IH]; eqb_cases.
  now rewrite pos_set_twice.
Qed.

Lemma keys_pos_set_existing p k sq v :
  existsb (fun e => String.eqb (fst e) k) (pos_set p sq v)
  = existsb (fun e => String.eqb (fst e) k) p || String.eqb sq k.
Proof.
  induction p as [|[k' w] p IH]; simpl.
  - now rewrite orb_false_r.
  - destruct (String.eqb k' sq) eqn:E; simpl.
    + apply String.eqb_eq in E. subst k'.
      destruct (existsb (fun e => String.eqb (fst e) k) p);
        destruct (String.eqb sq k); reflexivity.
    + rewrite IH.
      destruct (existsb (fun e => String.eqb (fst e) k) p);
        destruct (String.eqb k' k); destruct (String.eqb sq k); reflexivity.
Qed.

Lemma unique_keys_pos_set p sq v :
  unique_keys p = true → unique_keys (pos_set p sq v) = true.
Proof.
  induction p as [|[k w] p IH]; simpl; auto.
  intros H. apply andb_true_iff in H as [Hk Hp].
  destruct (String.eqb k sq) eqn:E; simpl.
  - now rewrite Hk, Hp.
  - rewrite keys_pos_set_existing, IH by assumption.
    apply negb_true_iff in Hk. rewrite Hk. simpl.
    rewrite String.eqb_sym, E. reflexivity.
Qed.

Lemma pos_get_unique p k v :
  unique_keys p = true → In (k, v) p → pos_get p k = v.
Proof.
  induction p as [|[k' w] p IH]; simpl; [tauto|].
  intros H [Heq|Hin].
  - inversion Heq; subst. now rewrite String.eqb_refl.
  - apply andb_true_iff in H as [Hk Hp].
    destruct (String.eqb k' k) eqn:E.
    + apply String.eqb_eq in E. subst k'.
      apply negb_true_iff in Hk.
      assert (existsb (fun e => String.eqb (fst e) k) p = true) as Hex.
      { apply existsb_exists. exists (k, v). split; auto.
        simpl. apply String.eqb_refl. }
      congruence.
    + auto.
Qed.

End PositionFacts.

(** ** The move generator *)

Section GeneratorFacts.

Import ChessBoard MoveGenerator.

Lemma coordinates_round_trip (file rank : Z) (sq : Square) :
  coordinatesToSquare file rank = Some sq →
  squareToCoordinates sq = (file, rank).
Proof.
  unfold coordinatesToSquare. intros H.
  destruct ((file <? 0) || (file >? 7) || (rank <? 0) || (rank >? 7)) eqn:E;
    [discriminate|].
  repeat rewrite orb_false_iff in E. destruct E as [[[E1 E2] E3] E4].
  rewrite Z.gtb_ltb in E2, E4.
  apply Z.ltb_ge in E1, E2, E3, E4.
  assert (Hf : In file [0; 1; 2; 3; 4; 5; 6; 7]) by (simpl; lia).
  assert (Hr : In rank [0; 1; 2; 3; 4; 5; 6; 7]) by (simpl; lia).
  simpl in Hf, Hr.
  repeat (destruct Hf as [<-|Hf]; [|]); try contradiction;
    repeat (destruct Hr as [<-|Hr]; [|]); try contradiction;
    vm_compute in H; injection H as <-; reflexivity.
Qed.

(** A square one rank away from [from] is not [from]. *)
Lemma other_rank_other_square (from to : Square) (file rank file' d : Z) :
  squareToCoordinates from = (file, rank) →
  coordinatesToSquare file' (rank + d) = Some to →
  d ≠ 0 → from ≠ to.
Proof.
  intros Hc Ht Hd ->. apply coordinates_round_trip in Ht.
  rewrite Ht in Hc. injection Hc as _ Hc. lia.
Qed.

Lemma slideRay_no_promotion position from piece file rank fd rd steps m :
  In m (slideRay position from piece file rank fd rd steps) →
  promotion m = None.
Proof.
  induction steps as [|i steps IH]; simpl; [tauto|].
  destruct (coordinatesToSquare _ _); [|simpl; tauto].
  destruct (truthy _).
  - destruct (bool_decide _); simpl; [|tauto]. now intros [<-|[]].
  - simpl. intros [<-|H]; auto.
Qed.

Lemma sliding_no_promotion gs from piece dirs m :
  In m (generateSlidingMoves gs from piece dirs) → promotion m = None.
Proof.
  unfold generateSlidingMoves. destruct (squareToCoordinates from).
  rewrite in_flat_map. intros [[fd rd] [_ H]].
  eapply slideRay_no_promotion; eauto.
Qed.

Lemma stepMoves_no_promotion gs from piece offsets m :
  In m (stepMoves gs from piece offsets) → promotion m = None.
Proof.
  unfold stepMoves. destruct (squareToCoordinates from).
  rewrite in_flat_map. intros [[fo ro] [_ H]].
  destruct (coordinatesToSquare _ _); [|destruct H].
  destruct (truthy _).
  - destruct (bool_decide _); simpl in H; [|tauto]. now destruct H as [<-|[]].
  - now destruct H as [<-|[]].
Qed.

(** Castling is generated only onto a vacant square. *)
Lemma castling_target_vacant gs from piece m :
  In m (generateCastlingMoves gs from piece) →
  vacant (position gs) (to m) = true ∧ promotion m = None.
Proof.
  unfold generateCastlingMoves.
  repeat match goal with
         | |- context [if ?b then _ else _] =>
             let E := fresh "E" in destruct b eqn:E
         end; simpl; intros H;
    repeat match goal with
           | H : _ ∨ _ |- _ => destruct H as [<-|H]
           | H : False |- _ => destruct H
           end; simpl; split; auto;
    repeat match goal with
           | H : _ && _ = true |- _ => apply andb_true_iff in H as [? ?]
           end; assumption.
Qed.

Lemma pawn_shape gs from piece m :
  In m (generatePawnMoves gs from piece) → wellShaped m.
Proof.
  unfold generatePawnMoves.
  set (direction := if bool_decide (color piece = white) then 1 else -1).
  assert (Hd : direction ≠ 0) by (subst direction; destruct (bool_decide _); lia).
  destruct (squareToCoordinates from) as [file rank] eqn:Hc.
  rewrite in_app_iff. intros [H|H].
  - destruct (coordinatesToSquare file (rank + direction)) as [one|] eqn:H1;
      [|destruct H].
    destruct (truthy _); [destruct H|].
    destruct (rank + direction =? _).
    + apply in_map_iff in H as [pp [<- _]]. right. simpl.
      repeat split; auto. eapply other_rank_other_square; eauto.
    + left. destruct H as [<-|H]; auto.
      destruct (rank =? _); [|destruct H].
      destruct (coordinatesToSquare file (rank + 2 * direction));
        [|destruct H].
      destruct (truthy _); [destruct H|]. now destruct H as [<-|[]].
  - apply in_flat_map in H as [off [_ H]]. unfold pawnCaptures in H.
    destruct (coordinatesToSquare (file + off) (rank + direction))
      as [cs|] eqn:H1; [|destruct H].
    apply in_app_iff in H as [H|H].
    + destruct (truthy _) as [target|]; [|destruct H].
      destruct (bool_decide (color target ≠ color piece)); [|destruct H].
      destruct (rank + direction =? _).
      * apply in_map_iff in H as [pp [<- _]]. right. simpl.
        repeat split; auto. eapply other_rank_other_square; eauto.
      * left. now destruct H as [<-|[]].
    + left. destruct (bool_decide (Some cs = enPassantTarget gs));
        [|destruct H].
      destruct (match coordinatesToSquare (file + off) rank with
                | Some sq => truthy (pos_get (position gs) sq)
                | None => None end); [|destruct H].
      now destruct H as [<-|[]].
Qed.

Lemma pseudoLegal_shape gs m :
  In m (generatePseudoLegalMoves gs) → wellShaped m.
Proof.
  unfold generatePseudoLegalMoves. rewrite in_flat_map.
  intros [[sq slot] [_ H]].
  destruct (truthy slot) as [piece|]; [|destruct H].
  destruct (bool_decide _); [|destruct H].
  unfold generatePieceMoves in H. destruct (type piece).
  - now apply pawn_shape in H.
  - left. eapply sliding_no_promotion; eauto.
  - left. eapply stepMoves_no_promotion; eauto.
  - left. eapply sliding_no_promotion; eauto.
  - left. eapply sliding_no_promotion; eauto.
  - left. unfold generateKingMoves in H. apply in_app_iff in H as [H|H].
    + eapply stepMoves_no_promotion; eauto.
    + now apply castling_target_vacant in H.
Qed.

(** *** Generated moves describe the board *)

Lemma slideRay_fields position from piece file rank fd rd steps m :
  In m (slideRay position from piece file rank fd rd steps) →
  chess.from m = from ∧ chess.piece m = piece ∧ reportsCapture position m.
Proof.
  induction steps as [|i steps IH]; simpl; [tauto|].
  destruct (coordinatesToSquare _ _) as [sq|]; [|simpl; tauto].
  destruct (truthy (pos_get position sq)) as [target|] eqn:Ht.
  - destruct (bool_decide _); simpl; [|tauto].
    intros [<-|[]]. now repeat split.
  - simpl. intros [<-|H]; auto. now repeat split.
Qed.

Lemma sliding_fields gs from piece dirs m :
  In m (generateSlidingMoves gs from piece dirs) →
  chess.from m = from ∧ chess.piece m = piece
  ∧ reportsCapture (position gs) m.
Proof.
  unfold generateSlidingMoves. destruct (squareToCoordinates from).
  rewrite in_flat_map. intros [[fd rd] [_ H]].
  eapply slideRay_fields; eauto.
Qed.

Lemma stepMoves_fields gs from piece offsets m :
  In m (stepMoves gs from piece offsets) →
  chess.from m = from ∧ chess.piece m = piece
  ∧ reportsCapture (position gs) m.
Proof.
  unfold stepMoves. destruct (squareToCoordinates from).
  rewrite in_flat_map. intros [[fo ro] [_ H]].
  destruct (coordinatesToSquare _ _) as [sq|]; [|destruct H].
  destruct (truthy (pos_get (position gs) sq)) as [target|] eqn:Ht.
  - destruct (bool_decide _); simpl in H; [|tauto].
    destruct H as [<-|[]]. now repeat split.
  - destruct H as [<-|[]]. now repeat split.
Qed.

Lemma castling_fields gs from piece m :
  In m (generateCastlingMoves gs from piece) →
  chess.from m = from ∧ chess.piece m = piece
  ∧ reportsCapture (position gs) m.
Proof.
  intros H. pose proof (castling_target_vacant _ _ _ _ H) as [Hv _].
  assert (chess.from m = from ∧ chess.piece m = piece
          ∧ captured m = None ∧ enPassant m = false) as (Hf & Hp & Hc & He).
  { revert H. unfold generateCastlingMoves.
    repeat match goal with
           | |- context [if ?b then _ else _] => destruct b
           end; simpl; intros H;
      repeat match goal with
             | H : _ ∨ _ |- _ => destruct H as [<-|H]
             | H : False |- _ => destruct H
             end; auto. }
  repeat split; auto. unfold reportsCapture. rewrite He, Hc.
  unfold vacant in Hv. now destruct (truthy _).
Qed.

Lemma pawn_fields gs from piece m :
  In m (generatePawnMoves gs from piece) →
  chess.from m = from ∧ chess.piece m = piece
  ∧ reportsCapture (position gs) m.
Proof.
  unfold generatePawnMoves.
  set (direction := if bool_decide (color piece = white) then 1 else -1).
  destruct (squareToCoordinates from) as [file rank].
  rewrite in_app_iff. intros [H|H].
  - destruct (coordinatesToSquare file (rank + direction)) as [one|];
      [|destruct H].
    destruct (truthy (pos_get (position gs) one)) eqn:H1; [destruct H|].
    destruct (rank + direction =? _).
    + apply in_map_iff in H as [pp [<- _]]. now repeat split.
    + destruct H as [<-|H]; [now repeat split|].
      destruct (rank =? _); [|destruct H].
      destruct (coordinatesToSquare file (rank + 2 * direction)) as [two|];
        [|destruct H].
      destruct (truthy (pos_get (position gs) two)) eqn:H2; [destruct H|].
      destruct H as [<-|[]]. now repeat split.
  - apply in_flat_map in H as [off [_ H]]. unfold pawnCaptures in H.
    destruct (coordinatesToSquare (file + off) (rank + direction))
      as [cs|]; [|destruct H].
    apply in_app_iff in H as [H|H].
    + destruct (truthy (pos_get (position gs) cs)) as [target|] eqn:Ht;
        [|destruct H].
      destruct (bool_decide (color target ≠ color piece)); [|destruct H].
      destruct (rank + direction =? _).
      * apply in_map_iff in H as [pp [<- _]]. now repeat split.
      * destruct H as [<-|[]]. now repeat split.
    + destruct (bool_decide (Some cs = enPassantTarget gs)); [|destruct H].
      destruct (match coordinatesToSquare (file + off) rank with
                | Some sq => truthy (pos_get (position gs) sq)
                | None => None end); [|destruct H].
      destruct H as [<-|[]]. now repeat split.
Qed.

Lemma pieceMoves_fields gs sq piece m :
  In m (generatePieceMoves gs sq piece) →
  from m = sq ∧ chess.piece m = piece ∧ reportsCapture (position gs) m.
Proof.
  unfold generatePieceMoves. destruct (type piece); intros H.
  - now apply pawn_fields.
  - eapply sliding_fields; eauto.
  - eapply stepMoves_fields; eauto.
  - eapply sliding_fields; eauto.
  - eapply sliding_fields; eauto.
  - unfold generateKingMoves in H. apply in_app_iff in H as [H|H].
    + eapply stepMoves_fields; eauto.
    + now apply castling_fields.
Qed.

(** A generated move starts from a square that holds its piece, the piece
    is of the side to move, and its [captured] field is truthful. *)
Lemma pseudoLegal_fields gs m :
  unique_keys (position gs) = true →
  In m (generatePseudoLegalMoves gs) →
  pos_get (position gs) (from m) = Occupied (piece m)
  ∧ color (piece m) = activeColor gs
  ∧ reportsCapture (position gs) m.
Proof.
  intros Hu. unfold generatePseudoLegalMoves. rewrite in_flat_map.
  intros [[sq slot] [Hin H]].
  destruct slot as [| |p]; simpl in H; try destruct H.
  destruct (bool_decide (color p = activeColor gs)) eqn:Ec; [|destruct H].
  apply bool_decide_eq_true in Ec.
  apply pieceMoves_fields in H as (-> & -> & Hr).
  repeat split; auto. now apply pos_get_unique.
Qed.

End GeneratorFacts.

(** ** Check depends on the board alone *)

Section CheckFacts.

Import ChessBoard MoveGenerator.

Lemma hits_app k l1 l2 : hits k (l1 ++ l2) = hits k l1 || hits k l2.
Proof. apply existsb_app. Qed.

Lemma hits_flat_map_ext {A : Type} k (f g : A → list Move) (l : list A) :
  (∀ x, hits k (f x) = hits k (g x)) →
  hits k (flat_map f l) = hits k (flat_map g l).
Proof.
  intros H. induction l as [|x l IH]; simpl; auto.
  now rewrite !hits_app, IH, H.
Qed.

Lemma hits_true k l : hits k l = true ↔ ∃ m, In m l ∧ to m = k.
Proof.
  unfold hits. rewrite existsb_exists.
  split; intros [m [Hin H]]; exists m; split; auto;
    now apply String.eqb_eq.
Qed.

(** An en-passant capture onto an occupied enemy square comes with a plain
    capture onto the same square, so it never decides a check. *)
Lemma pawnCaptures_hits gs from piece file rank dir pr off k kp :
  pos_get (position gs) k = Occupied kp →
  color kp ≠ color piece →
  hits k (pawnCaptures gs from piece file rank dir pr off)
  = hits k (pawnCaptures (boardOnly gs) from piece file rank dir pr off).
Proof.
  intros Hk Hc. unfold pawnCaptures. simpl.
  destruct (coordinatesToSquare (file + off) (rank + dir)) as [cs|]; auto.
  rewrite !hits_app. simpl. rewrite orb_false_r.
  destruct (bool_decide (Some cs = enPassantTarget gs));
    [|simpl; apply orb_false_r].
  destruct (match coordinatesToSquare (file + off) rank with
            | Some sq => truthy (pos_get (position gs) sq)
            | None => None end); [|simpl; apply orb_false_r].
  simpl. rewrite orb_false_r.
  destruct (String.eqb cs k) eqn:E; [|apply orb_false_r].
  apply String.eqb_eq in E. subst cs. rewrite Hk. simpl.
  rewrite bool_decide_eq_true_2 by assumption.
  destruct (rank + dir =? pr); simpl; now rewrite String.eqb_refl.
Qed.

Lemma castling_never_hits gs sq piece k kp :
  pos_get (position gs) k = Occupied kp →
  hits k (generateCastlingMoves gs sq piece) = false.
Proof.
  intros Hk.
  destruct (hits k (generateCastlingMoves gs sq piece)) eqn:H; auto.
  apply hits_true in H as [m [Hin <-]].
  apply castling_target_vacant in Hin as [Hv _].
  unfold vacant in Hv. now rewrite Hk in Hv.
Qed.

Lemma pieceMoves_hits gs sq piece k kp :
  pos_get (position gs) k = Occupied kp →
  color kp ≠ color piece →
  hits k (generatePieceMoves gs sq piece)
  = hits k (generatePieceMoves (boardOnly gs) sq piece).
Proof.
  intros Hk Hc. unfold generatePieceMoves.
  destruct (type piece); try reflexivity.
  - unfold generatePawnMoves.
    destruct (squareToCoordinates sq) as [file rank].
    rewrite !hits_app. f_equal. simpl. rewrite !app_nil_r, !hits_app.
    f_equal; eapply pawnCaptures_hits; eauto.
  - unfold generateKingMoves. rewrite !hits_app. f_equal.
    rewrite (castling_never_hits gs sq piece k kp) by assumption.
    now rewrite (castling_never_hits (boardOnly gs) sq piece k kp).
Qed.

Lemma pseudoLegal_hits gs k kp :
  pos_get (position gs) k = Occupied kp →
  color kp ≠ activeColor gs →
  hits k (generatePseudoLegalMoves gs)
  = hits k (generatePseudoLegalMoves (boardOnly gs)).
Proof.
  intros Hk Hc. unfold generatePseudoLegalMoves. simpl.
  apply hits_flat_map_ext. intros [sq slot].
  destruct (truthy slot) as [piece|]; auto.
  destruct (bool_decide (color piece = activeColor gs)) eqn:E; auto.
  apply bool_decide_eq_true in E.
  eapply pieceMoves_hits; eauto. congruence.
Qed.

Lemma findKing_found position c k :
  findKing position c = Some k →
  ∃ kp, In (k, Occupied kp) position ∧ type kp = king ∧ color kp = c.
Proof.
  induction position as [|[sq slot] l IH]; simpl; [discriminate|].
  destruct slot as [| |p]; simpl.
  - intros H. destruct (IH H) as [kp [? ?]]. eauto.
  - intros H. destruct (IH H) as [kp [? ?]]. eauto.
  - destruct (bool_decide (type p = king)) eqn:Et;
      destruct (bool_decide (color p = c)) eqn:Ec; simpl;
      try (intros H; destruct (IH H) as [kp [? ?]]; eauto).
    intros [= <-]. apply bool_decide_eq_true in Et, Ec. eauto.
Qed.

Lemma opponent_differs c : c ≠ opponent c.
Proof. now destruct c. Qed.

(** [isInCheck] reads nothing but the board. *)
Lemma isInCheck_board (g1 g2 : GameState) (c : PieceColor) :
  unique_keys (position g1) = true →
  position g1 = position g2 →
  isInCheck g1 c = isInCheck g2 c.
Proof.
  intros Hu Hp. unfold isInCheck. rewrite <- Hp.
  destruct (findKing (position g1) c) as [k|] eqn:Hk; auto.
  apply findKing_found in Hk as [kp [Hin [_ Hc]]].
  apply pos_get_unique in Hin; auto.
  fold (hits k (generatePseudoLegalMoves (withActiveColor g1 (opponent c)))).
  fold (hits k (generatePseudoLegalMoves (withActiveColor g2 (opponent c)))).
  rewrite (pseudoLegal_hits (withActiveColor g1 (opponent c)) k kp),
          (pseudoLegal_hits (withActiveColor g2 (opponent c)) k kp);
    simpl; try (rewrite <- ?Hp; assumption);
    try (subst c; apply opponent_differs).
  unfold boardOnly. simpl. now rewrite Hp.
Qed.

(** On a generated move the engine and the generator build the same board. *)
Lemma applyMove_position_generated gs m :
  wellShaped m →
  position (ChessEngine.applyMove gs m) = position (makeMove gs m).
Proof.
  unfold ChessEngine.applyMove, ChessEngine.nextPosition, makeMove. simpl.
  intros [Hp|[Hc [He Hne]]].
  - now rewrite Hp.
  - rewrite Hc, He. destruct (promotion m); auto.
    now rewrite pos_set_overwrite.
Qed.

Lemma unique_keys_castleRook p side c :
  unique_keys p = true → unique_keys (castleRook p side c) = true.
Proof.
  intros H. unfold castleRook.
  destruct side; now repeat apply unique_keys_pos_set.
Qed.

Lemma unique_keys_makeMove gs m :
  unique_keys (position gs) = true →
  unique_keys (position (makeMove gs m)) = true.
Proof.
  intros H. unfold makeMove. simpl.
  repeat match goal with
         | |- context [match ?o with Some _ => _ | None => _ end] => destruct o
         | |- context [if ?b then _ else _] => destruct b
         end;
    repeat first [apply unique_keys_pos_set | apply unique_keys_castleRook];
    assumption.
Qed.

End CheckFacts.

(** ** Claims about the move generator *)

Section GeneratorClaims.

Import MoveGenerator.

(** C1.  Every move returned by [generateLegalMoves] leaves the mover's own
    king unattacked: in the position the generator's own simulation builds,
    and also in the state the engine's [applyMove] produces for that move
    (for the latter the position has to be an object, that is, to have
    each key once). *)
Theorem legal_moves_keep_own_king_safe (gs : GameState) (m : Move) :
  In m (generateLegalMoves gs) →
  isInCheck (makeMove gs m) (activeColor gs) = false
  ∧ (unique_keys (position gs) = true →
     isInCheck (ChessEngine.applyMove gs m) (activeColor gs) = false).
Proof.
  intros Hin. unfold generateLegalMoves in Hin.
  apply List.filter_In in Hin as [Hgen Hlegal].
  unfold isLegalMove in Hlegal. apply negb_true_iff in Hlegal.
  split; [assumption|]. intros Hu.
  rewrite <- Hlegal. symmetry. apply isInCheck_board.
  - now apply unique_keys_makeMove.
  - symmetry. apply applyMove_position_generated.
    eapply pseudoLegal_shape; eauto.
Qed.

Lemma legal_moves_keep_own_king_safe_witness :
  isInCheck (makeMove ChessEngine.createInitialGameState Scenario.e2e4) white
  = false
  ∧ isInCheck (ChessEngine.applyMove ChessEngine.createInitialGameState
                                     Scenario.e2e4) white = false.
Proof.
  destruct (legal_moves_keep_own_king_safe
              ChessEngine.createInitialGameState Scenario.e2e4) as [H1 H2].
  - vm_compute. tauto.
  - split; [exact H1|]. apply H2. vm_compute. reflexivity.
Defined.

(** C8.  The standard initial position, White to move, has exactly 20
    legal moves: 16 by pawns and 4 by knights. *)
Theorem initial_position_twenty_moves :
  let moves := generateLegalMoves ChessEngine.createInitialGameState in
  length moves = 20%nat
  ∧ length (List.filter (fun m => bool_decide (type (piece m) = pawn)) moves)
    = 16%nat
  ∧ length (List.filter (fun m => bool_decide (type (piece m) = knight)) moves)
    = 4%nat.
Proof. vm_compute. auto. Qed.

(** The moves [getLegalMoves] hands out name the piece that stands on
    their [from] square and report what they capture. *)
Lemma legal_moves_describe_the_board (gs : GameState) (m : Move) :
  unique_keys (position gs) = true →
  In m (generateLegalMoves gs) →
  pos_get (position gs) (from m) = Occupied (piece m)
  ∧ color (piece m) = activeColor gs
  ∧ reportsCapture (position gs) m.
Proof.
  intros Hu Hin. apply List.filter_In in Hin as [Hgen _].
  now apply pseudoLegal_fields.
Qed.

End GeneratorClaims.

(** ** Claims about the game state manager *)

Section EngineClaims.

Import ChessEngine.

Lemma makeMove_unfold (this : Engine) (move : Move) :
  makeMove this move
  = if existsb (sameMove move) (getLegalMoves this)
    then (true,
          mkEngine (pushMove (applyMove (gameState this) move) move)
                   (moveHistory this
                    ++ [fenOf (nextPosition (gameState this) move)]))
    else (false, this).
Proof.
  unfold makeMove. destruct (existsb _ _); reflexivity.
Qed.

Lemma sameMove_spec (move legalMove : Move) :
  sameMove move legalMove = true
  ↔ from legalMove = from move ∧ to legalMove = to move
    ∧ promotion legalMove = promotion move.
Proof.
  unfold sameMove. rewrite !andb_true_iff, !String.eqb_eq, bool_decide_eq_true.
  tauto.
Qed.

(** Reading the board after a move without castling or en passant. *)
Lemma nextPosition_plain (g : GameState) (move : Move) (sq : Square) :
  castling move = None → enPassant move = false →
  pos_get (nextPosition g move) sq
  = if String.eqb (from move) sq then Null
    else if String.eqb (to move) sq
         then match promotion move with
              | Some t => Occupied (mkPiece t (color (piece move)))
              | None => Occupied (piece move)
              end
         else pos_get (position g) sq.
Proof.
  intros Hc He. unfold nextPosition. rewrite Hc, He.
  now rewrite !pos_get_set.
Qed.

(** What [applyMove] does to each flag. *)
Lemma nextCastlingRights_flags (g : GameState) (move : Move) :
  let r := castlingRights g in
  let r' := nextCastlingRights g move in
  let isKing c := bool_decide (type (piece move) = king)
                  && bool_decide (color (piece move) = c) in
  let rookFrom sq := bool_decide (type (piece move) = rook)
                     && String.eqb (from move) sq in
  whiteKingside r'
  = whiteKingside r && negb (isKing white) && negb (rookFrom "h1")
  ∧ whiteQueenside r'
    = whiteQueenside r && negb (isKing white) && negb (rookFrom "a1")
  ∧ blackKingside r'
    = blackKingside r && negb (isKing black) && negb (rookFrom "h8")
  ∧ blackQueenside r'
    = blackQueenside r && negb (isKing black) && negb (rookFrom "a8").
Proof.
  unfold nextCastlingRights.
  destruct (castlingRights g) as [wk wq bk bq].
  destruct (piece move) as [t c].
  destruct t, c; simpl;
    repeat match goal with
           | |- context [String.eqb ?a ?b] => destruct (String.eqb a b)
           end; simpl;
    rewrite ?andb_true_r, ?andb_false_r; auto.
Qed.

Lemma rights_leb_refl r : rights_leb r r = true.
Proof. destruct r as [[] [] [] []]; reflexivity. Qed.

Lemma rights_leb_trans r1 r2 r3 :
  rights_leb r1 r2 = true → rights_leb r2 r3 = true → rights_leb r1 r3 = true.
Proof.
  destruct r1 as [[] [] [] []], r2 as [[] [] [] []], r3 as [[] [] [] []];
    simpl; auto.
Qed.

Lemma makeMove_rights_leb (this : Engine) (move : Move) :
  rights_leb (castlingRights (gameState (snd (makeMove this move))))
             (castlingRights (gameState this)) = true.
Proof.
  rewrite makeMove_unfold. destruct (existsb _ _); simpl.
  - pose proof (nextCastlingRights_flags (gameState this) move) as H.
    simpl in H. destruct H as (H1 & H2 & H3 & H4).
    unfold rights_leb. rewrite H1, H2, H3, H4.
    destruct (castlingRights (gameState this)) as [[] [] [] []]; simpl;
      repeat match goal with
             | |- context [negb ?b] => destruct b; simpl
             end; auto.
  - apply rights_leb_refl.
Qed.

(** C6.  Across any sequence of submitted moves no castling flag that is
    clear is ever set again; and one accepted move leaves a flag set only
    if it was set and the move is neither a move of that colour's king nor
    a rook move from that rook's home square. *)
Theorem castling_rights_never_regained (this : Engine) (moves : list Move)
    (move : Move) :
  rights_leb (castlingRights (gameState (play this moves)))
             (castlingRights (gameState this)) = true
  ∧ match makeMove this move with
    | (false, next) => castlingRights (gameState next)
                       = castlingRights (gameState this)
    | (true, next) =>
        let r := castlingRights (gameState this) in
        let r' := castlingRights (gameState next) in
        let isKing c := bool_decide (type (piece move) = king)
                        && bool_decide (color (piece move) = c) in
        let rookFrom sq := bool_decide (type (piece move) = rook)
                           && String.eqb (from move) sq in
        whiteKingside r'
        = whiteKingside r && negb (isKing white) && negb (rookFrom "h1")
        ∧ whiteQueenside r'
          = whiteQueenside r && negb (isKing white) && negb (rookFrom "a1")
        ∧ blackKingside r'
          = blackKingside r && negb (isKing black) && negb (rookFrom "h8")
        ∧ blackQueenside r'
          = blackQueenside r && negb (isKing black) && negb (rookFrom "a8")
    end.
Proof.
  split.
  - revert this. induction moves as [|m moves IH]; intros this; simpl.
    + apply rights_leb_refl.
    + eapply rights_leb_trans; [apply IH|apply makeMove_rights_leb].
  - rewrite makeMove_unfold. destruct (existsb _ _); simpl; auto.
    apply nextCastlingRights_flags.
Qed.

(** Every position the engine reaches is an object with 64 distinct keys
    in the order of [createInitialPosition]. *)
Lemma unique_keys_nextPosition (g : GameState) (move : Move) :
  unique_keys (position g) = true →
  unique_keys (nextPosition g move) = true.
Proof.
  intros H. unfold nextPosition.
  repeat match goal with
         | |- context [match ?o with Some _ => _ | None => _ end] => destruct o
         | |- context [if ?b then _ else _] => destruct b
         end;
    repeat first [apply unique_keys_pos_set | apply unique_keys_castleRook];
    assumption.
Qed.

Lemma play_unique_keys (this : Engine) (moves : list Move) :
  unique_keys (position (gameState this)) = true →
  unique_keys (position (gameState (play this moves))) = true.
Proof.
  revert this. induction moves as [|m moves IH]; intros this H; auto.
  unfold play in *. simpl. apply IH. rewrite makeMove_unfold.
  destruct (existsb _ _); simpl; auto. now apply unique_keys_nextPosition.
Qed.

Lemma reachable_unique_keys (moves : list Move) :
  unique_keys (position (gameState (play create moves))) = true.
Proof. apply play_unique_keys. vm_compute. reflexivity. Qed.

End EngineClaims.

Section DrawClaims.

Import ChessEngine.

(** The order in which [isGameOver] tests its conditions, up to the
    repetition test. *)
Lemma isGameOver_cases (this : Engine) :
  let g := gameState this in
  let inCheck := MoveGenerator.isInCheck g (activeColor g) in
  isGameOver this
  = match getLegalMoves this with
    | [] =>
        if inCheck
        then Return (Some (mkGameResult (won (opponent (activeColor g)))
                                        checkmate))
        else Return (Some (mkGameResult draw stalemate))
    | _ :: _ =>
        if 100 <=? halfmoveClock g
        then Return (Some (mkGameResult draw fifty_move))
        else if Nat.leb 3 (occurrences (positionToFEN this) (moveHistory this))
             then Return (Some (mkGameResult draw threefold_repetition))
             else match isInsufficientMaterial this with
                  | TypeError => TypeError
                  | Return true =>
                      Return (Some (mkGameResult draw insufficient_material))
                  | Return false => Return None
                  end
    end.
Proof.
  unfold isGameOver. destruct (getLegalMoves this); simpl.
  - now destruct (MoveGenerator.isInCheck _ _).
  - reflexivity.
Qed.

Lemma recordedStates_history (this : Engine) (moves : list Move) :
  moveHistory (play this moves)
  = (moveHistory this
     ++ map (fun g => fenOf (position g)) (recordedStates this moves))%list.
Proof.
  revert this. induction moves as [|m moves IH]; intros this; simpl.
  - now rewrite app_nil_r.
  - unfold play in *. simpl. rewrite makeMove_unfold.
    destruct (existsb _ _); simpl.
    + rewrite IH. simpl. now rewrite <- app_assoc.
    + apply IH.
Qed.

(** C3, as the code has it.  The repetition key is the piece placement
    alone: the side to move is not part of it, so the same placement with
    either side to move is the same key.  Every accepted move records the
    key of the state it produced.  [isGameOver] answers threefold
    repetition exactly when a legal move exists, the halfmove clock is
    below 100, and the key of the current placement occurs at least 3
    times in the recorded history. *)
Theorem threefold_counts_placement_only (this : Engine) (moves : list Move)
    (c : PieceColor) :
  (isGameOver this = Return (Some (mkGameResult draw threefold_repetition))
   ↔ getLegalMoves this ≠ []
     ∧ halfmoveClock (gameState this) < 100
     ∧ (3 <= occurrences (positionToFEN this) (moveHistory this))%nat)
  ∧ positionToFEN
      (mkEngine (MoveGenerator.withActiveColor (gameState this) c)
                (moveHistory this))
    = positionToFEN this
  ∧ moveHistory (play this moves)
    = (moveHistory this
       ++ map (fun g => fenOf (position g)) (recordedStates this moves))%list.
Proof.
  split; [|split; [reflexivity|apply recordedStates_history]].
  rewrite isGameOver_cases. cbv zeta.
  destruct (getLegalMoves this) as [|lm rest].
  - split; [|intros [H _]; congruence].
    destruct (MoveGenerator.isInCheck _ _); discriminate.
  - destruct (100 <=? halfmoveClock (gameState this)) eqn:E.
    + apply Z.leb_le in E. split; [discriminate|]. intros (_ & H & _). lia.
    + apply Z.leb_gt in E.
      destruct (Nat.leb 3 (occurrences _ _)) eqn:E3.
      * apply Nat.leb_le in E3.
        split; [intros _; repeat split; [discriminate|assumption..]
               |reflexivity].
      * apply Nat.leb_gt in E3. split; [|intros (_ & _ & H); lia].
        destruct (isInsufficientMaterial this) as [[]|]; discriminate.
Qed.

(** C3, as stated, fails: after [Scenario.triangulation] the engine
    answers threefold repetition, while the key made of placement and side
    to move occurs only twice among the recorded states. *)
Lemma threefold_reported_on_two_occurrences :
  let this := play create Scenario.triangulation in
  isGameOver this = Return (Some (mkGameResult draw threefold_repetition))
  ∧ length (List.filter
              (fun g => bool_decide (placementAndSide g
                                     = placementAndSide (gameState this)))
              (recordedStates create Scenario.triangulation)) = 2%nat
  ∧ repeatsWithSide (recordedStates create Scenario.triangulation)
                    (gameState this) = false.
Proof. vm_compute. auto. Qed.

End DrawClaims.

(** ** Claims about the search engine *)

Section SearchClaims.

Import JSNum ChessAI.

(** C9.  The search's own [makeMove] empties [move.from], puts
    [move.piece] on [move.to] and leaves every other square as it was
    (when the two squares coincide the square ends up empty, as [from] is
    written last).  The result does not depend on the [promotion],
    [castling], [enPassant] or [captured] fields, so no promotion piece is
    placed, no rook is relocated and no pawn is removed; the side to move
    is toggled and the en-passant target, castling rights, clocks and
    history are those of the input state. *)
Theorem search_makeMove_moves_one_piece (gs : GameState) (move : Move) :
  let gs' := makeMove gs move in
  (∀ sq, pos_get (position gs') sq
         = if String.eqb (from move) sq then Null
           else if String.eqb (to move) sq then Occupied (piece move)
                else pos_get (position gs) sq)
  ∧ gs' = makeMove gs (MoveGenerator.quiet (from move) (to move) (piece move))
  ∧ activeColor gs' = opponent (activeColor gs)
  ∧ enPassantTarget gs' = enPassantTarget gs
  ∧ castlingRights gs' = castlingRights gs
  ∧ halfmoveClock gs' = halfmoveClock gs
  ∧ fullmoveNumber gs' = fullmoveNumber gs
  ∧ moveHistory gs' = moveHistory gs.
Proof.
  simpl. repeat split. intros sq. now rewrite !pos_get_set.
Qed.

Lemma orderMoves_nil (this : AI) (ply : nat) : orderMoves this [] ply = [].
Proof. reflexivity. Qed.

(** C5, as the code has it.  On a state without legal moves, at a depth
    above 0, [minimax] first consults the transposition table: an entry for
    the state's key with stored depth at least [depth] is returned as it
    is.  Without such an entry the score is -(10000 - ply) for a
    maximizing node in check, 10000 - ply for a minimizing node in check,
    and 0 when the side to move is not in check; the searcher's tables are
    left as they were. *)
Theorem minimax_without_legal_moves (this : AI) (gs : GameState)
    (depth : nat) (alpha beta : num) (isMaximizing : bool) (ply : nat) :
  MoveGenerator.generateLegalMoves gs = [] →
  (0 < depth)%nat →
  minimax this gs depth alpha beta isMaximizing ply
  = match ttHit this (getPositionKey gs) depth with
    | Some ttEntry => (this, mkResult (tt_score ttEntry) (tt_move ttEntry))
    | None =>
        (this,
         mkResult
           (if MoveGenerator.isInCheck gs (activeColor gs)
            then if isMaximizing
                 then Fin (- (10000 - Z.of_nat ply))
                 else Fin (10000 - Z.of_nat ply)
            else Fin 0)
           None)
    end.
Proof.
  intros Hnone Hdepth. destruct depth as [|depth']; [lia|].
  cbn [minimax]. destruct (ttHit _ _ _); [reflexivity|].
  rewrite Hnone, orderMoves_nil. cbn [length Nat.eqb].
  destruct (MoveGenerator.isInCheck _ _); [|reflexivity].
  destruct isMaximizing; do 3 f_equal; lia.
Qed.

Lemma minimax_without_legal_moves_witness :
  minimax Scenario.searcher Scenario.stalemated 1 NegInf PosInf true 0
  = (Scenario.searcher, mkResult (Fin 0) None).
Proof.
  rewrite (minimax_without_legal_moves Scenario.searcher Scenario.stalemated
             1 NegInf PosInf true 0).
  - vm_compute. reflexivity.
  - vm_compute. reflexivity.
  - lia.
Defined.

(** C5, as stated, fails: [Scenario.stalemated] has no legal move and the
    side to move is not in check, yet a searcher that was asked before
    about the same board with an en-passant capture available answers
    with the score stored then, not 0.

    The first call searches [Scenario.afterDoublePush] at depth 1.  Its
    one legal move is e5xd6 e.p.; the search's [makeMove] puts the pawn on
    d6 and leaves the pawn on d5.  At depth 0 the quiescence search finds
    no capture for Black and returns the static evaluation: material
    100 - 1100, piece-square values -30 (Ka1) - 20 (Kh8) - 20 (Pd5),
    isolated white pawn -15, in total -1085, negated because Black is to
    move.  The entry (score 1085, depth 1) is stored under the key of the
    board with White to move; [Scenario.stalemated] has the same key. *)
Lemma stored_score_returned_for_stalemate :
  MoveGenerator.generateLegalMoves Scenario.stalemated = []
  ∧ MoveGenerator.isInCheck Scenario.stalemated
                            (activeColor Scenario.stalemated) = false
  ∧ score (snd (minimax Scenario.searcherAfterFirstCall Scenario.stalemated
                        1 NegInf PosInf true 0)) = Fin 1085.
Proof. vm_compute. auto. Qed.

End SearchClaims.

(** ** The engine on references *)

Section HeapClaims.

Import EngineHeap.

Lemma load_inv (h : list Obj) (g : GameStateObj) (v : GameState) :
  load h g = Some v →
  ∃ p r l,
    h !! position g = Some (PositionObj p)
    ∧ h !! castlingRights g = Some (RightsObj r)
    ∧ h !! moveHistory g = Some (MovesObj l)
    ∧ v = mkGameState p (activeColor g) r (enPassantTarget g)
                      (halfmoveClock g) (fullmoveNumber g) l.
Proof.
  unfold load.
  destruct (h !! position g) as [[p| |]|]; try discriminate.
  destruct (h !! castlingRights g) as [[|r|]|]; try discriminate.
  destruct (h !! moveHistory g) as [[| |l]|]; try discriminate.
  intros [= <-]. eauto 8.
Qed.

Lemma load_intro (h : list Obj) (g : GameStateObj) p r l :
  h !! position g = Some (PositionObj p) →
  h !! castlingRights g = Some (RightsObj r) →
  h !! moveHistory g = Some (MovesObj l) →
  load h g = Some (mkGameState p (activeColor g) r (enPassantTarget g)
                               (halfmoveClock g) (fullmoveNumber g) l).
Proof. intros H1 H2 H3. unfold load. now rewrite H1, H2, H3. Qed.

Lemma getGameState_fields (this : Engine) : getGameState this = gameState this.
Proof. destruct this as [[] ?]. reflexivity. Qed.

Lemma lookup_heapAfter_old (h : list Obj) g v move (l : loc) (o : Obj) :
  h !! l = Some o → l ≠ moveHistory g →
  heapAfter h g v move !! l = Some o.
Proof.
  intros Hl Hne. unfold heapAfter.
  rewrite list_lookup_insert_ne by auto.
  now do 2 apply lookup_app_l_Some.
Qed.

Lemma lookup_heapAfter_history (h : list Obj) g v move ms :
  h !! moveHistory g = Some (MovesObj ms) →
  heapAfter h g v move !! moveHistory g
  = Some (MovesObj (chess.moveHistory v ++ [move])).
Proof.
  intros Hl. unfold heapAfter. apply list_lookup_insert_eq.
  rewrite !length_app. apply lookup_lt_Some in Hl. lia.
Qed.

Lemma makeMove_unfold_heap (h : list Obj) (this : Engine) (move : Move)
    (v : GameState) :
  load h (gameState this) = Some v →
  makeMove h this move
  = if existsb (ChessEngine.sameMove move) (MoveGenerator.generateLegalMoves v)
    then Some (true,
               mkEngine (stateAfter h (gameState this) v move)
                        (fenHistory this
                         ++ [ChessEngine.fenOf
                               (ChessEngine.nextPosition v move)]),
               heapAfter h (gameState this) v move)
    else Some (false, this, h).
Proof.
  intros Hload. unfold makeMove. rewrite Hload.
  destruct (existsb _ _); [|reflexivity]. simpl.
  unfold applyMove. rewrite Hload. unfold alloc. simpl.
  destruct (load_inv _ _ _ Hload) as (p & r & l & Hp & Hr & Hl & ->).
  set (g := gameState this) in *.
  unfold push. simpl.
  rewrite (lookup_app_l_Some _ _ _ (MovesObj l))
    by now apply lookup_app_l_Some.
  fold (heapAfter h g
          (mkGameState p (activeColor g) r (enPassantTarget g)
                       (halfmoveClock g) (fullmoveNumber g) l) move).
  set (v := mkGameState p _ r _ _ _ l).
  assert (Hlt : (moveHistory g < length h)%nat) by (eapply lookup_lt_Some; eauto).
  unfold load. simpl.
  assert (H1 : heapAfter h g v move !! length h
               = Some (PositionObj (ChessEngine.nextPosition v move))).
  { unfold heapAfter. rewrite list_lookup_insert_ne by lia.
    rewrite lookup_app_l by (rewrite length_app; simpl; lia).
    now apply list_lookup_middle. }
  assert (H2 : heapAfter h g v move
               !! length (h ++ [PositionObj (ChessEngine.nextPosition v move)])
               = Some (RightsObj (ChessEngine.nextCastlingRights v move))).
  { unfold heapAfter.
    rewrite list_lookup_insert_ne by (rewrite length_app; simpl; lia).
    now apply list_lookup_middle. }
  pose proof (lookup_heapAfter_history h g v move l Hl) as H3.
  unfold heapAfter in *. simpl in H1, H2, H3.
  rewrite H1, H2, H3. unfold stateAfter.
  rewrite length_app. simpl.
  replace (length h + 1)%nat with (S (length h)) by lia. reflexivity.
Qed.

(** The reference-level engine computes what the value-level engine
    computes. *)
Lemma heap_makeMove_refines (h : list Obj) (this : Engine) (move : Move)
    (v : GameState) :
  load h (gameState this) = Some v →
  ∃ ok next h',
    makeMove h this move = Some (ok, next, h')
    ∧ ok = fst (ChessEngine.makeMove
                  (ChessEngine.mkEngine v (fenHistory this)) move)
    ∧ load h' (gameState next)
      = Some (ChessEngine.gameState
                (snd (ChessEngine.makeMove
                        (ChessEngine.mkEngine v (fenHistory this)) move)))
    ∧ fenHistory next
      = ChessEngine.moveHistory
          (snd (ChessEngine.makeMove
                  (ChessEngine.mkEngine v (fenHistory this)) move)).
Proof.
  intros Hload. rewrite (makeMove_unfold_heap h this move v Hload).
  rewrite makeMove_unfold. unfold ChessEngine.getLegalMoves. simpl.
  destruct (existsb _ _); simpl.
  - do 3 eexists. split; [reflexivity|]. repeat split.
    destruct (load_inv _ _ _ Hload) as (p & r & l & Hp & Hr & Hl & ->).
    assert (Hlt : (moveHistory (gameState this) < length h)%nat)
      by (eapply lookup_lt_Some; eauto).
    apply load_intro; simpl.
    + unfold heapAfter. rewrite list_lookup_insert_ne by lia.
      rewrite lookup_app_l by (rewrite length_app; simpl; lia).
      now apply list_lookup_middle.
    + unfold heapAfter. rewrite list_lookup_insert_ne by lia.
      apply list_lookup_middle. rewrite length_app. simpl. lia.
    + eapply (lookup_heapAfter_history h (gameState this)
                (mkGameState p _ r _ _ _ l)); eauto.
  - do 3 eexists. split; [reflexivity|]. repeat split. assumption.
Qed.

(** A rejected move writes nothing: same heap, same engine. *)
Lemma heap_rejected_move_changes_nothing (h : list Obj) (this : Engine)
    (move : Move) (v : GameState) (next : Engine) (h' : list Obj) :
  load h (gameState this) = Some v →
  makeMove h this move = Some (false, next, h') →
  next = this ∧ h' = h.
Proof.
  intros Hload Hmove.
  rewrite (makeMove_unfold_heap h this move v Hload) in Hmove.
  destruct (existsb _ _); [discriminate|].
  now injection Hmove as <- <-.
Qed.

(** C4, on the code.  A snapshot returned by [getGameState] shares the
    [moveHistory] array with the engine.  Read again after an accepted
    [makeMove], the snapshot has the board, rights, side to move, target
    and counters it had, and a [moveHistory] one move longer: the push of
    [makeMove] is visible through the snapshot. *)
Theorem snapshot_shares_move_history (h : list Obj) (this : Engine)
    (move : Move) (v : GameState) (next : Engine) (h' : list Obj) :
  load h (getGameState this) = Some v →
  makeMove h this move = Some (true, next, h') →
  load h' (getGameState this) = Some (ChessEngine.pushMove v move)
  ∧ chess.moveHistory (ChessEngine.pushMove v move)
    = chess.moveHistory v ++ [move]
  ∧ chess.moveHistory (ChessEngine.pushMove v move) ≠ chess.moveHistory v.
Proof.
  rewrite getGameState_fields. intros Hload Hmove.
  rewrite (makeMove_unfold_heap h this move v Hload) in Hmove.
  destruct (existsb _ _); [|discriminate].
  injection Hmove as _ <-.
  split; [|split; [reflexivity|]].
  - destruct (load_inv _ _ _ Hload) as (p & r & l & Hp & Hr & Hl & ->).
    unfold ChessEngine.pushMove. simpl.
    assert (position (gameState this) ≠ moveHistory (gameState this))
      by (intros E; rewrite E in Hp; congruence).
    assert (castlingRights (gameState this) ≠ moveHistory (gameState this))
      by (intros E; rewrite E in Hr; congruence).
    apply load_intro.
    + eapply lookup_heapAfter_old; eauto.
    + eapply lookup_heapAfter_old; eauto.
    + eapply (lookup_heapAfter_history h (gameState this)
                (mkGameState p _ r _ _ _ l)); eauto.
  - simpl. intros E. apply (f_equal (@length Move)) in E.
    rewrite length_app in E. simpl in E. lia.
Qed.

Lemma snapshot_shares_move_history_witness :
  load (heapAfter Scenario.freshHeap (gameState Scenario.freshEngine)
                  ChessEngine.createInitialGameState Scenario.e2e4)
       (getGameState Scenario.freshEngine)
  = Some (ChessEngine.pushMove ChessEngine.createInitialGameState
                               Scenario.e2e4)
  ∧ chess.moveHistory (ChessEngine.pushMove ChessEngine.createInitialGameState
                                            Scenario.e2e4)
    = chess.moveHistory ChessEngine.createInitialGameState ++ [Scenario.e2e4]
  ∧ chess.moveHistory (ChessEngine.pushMove ChessEngine.createInitialGameState
                                            Scenario.e2e4)
    ≠ chess.moveHistory ChessEngine.createInitialGameState.
Proof.
  apply (snapshot_shares_move_history
           Scenario.freshHeap Scenario.freshEngine Scenario.e2e4
           ChessEngine.createInitialGameState
           (mkEngine (stateAfter Scenario.freshHeap
                                 (gameState Scenario.freshEngine)
                                 ChessEngine.createInitialGameState
                                 Scenario.e2e4)
                     [ChessEngine.fenOf
                        (ChessEngine.nextPosition
                           ChessEngine.createInitialGameState Scenario.e2e4)])).
  - vm_compute. reflexivity.
  - vm_compute. reflexivity.
Defined.

(** C4 at a concrete input: a snapshot of a fresh engine has an empty
    [moveHistory]; after the engine accepts e2-e4 the same snapshot has a
    [moveHistory] of length 1. *)
Lemma snapshot_history_grows :
  let snapshot := getGameState Scenario.freshEngine in
  ∃ next h',
    makeMove Scenario.freshHeap Scenario.freshEngine Scenario.e2e4
    = Some (true, next, h')
    ∧ chess.moveHistory <$> load Scenario.freshHeap snapshot = Some []
    ∧ chess.moveHistory <$> load h' snapshot = Some [Scenario.e2e4].
Proof. vm_compute. eauto. Qed.

End HeapClaims.

(** * Further properties of the code *)

(** ** Board geometry *)

Section BoardGeometry.
Import ChessBoard.

Lemma valid_square_shape (sq : Square) :
  isValidSquare sq = true →
  ∃ f r, In f FILES ∧ In r RANKS ∧ sq = String f (String r "").
Proof.
  unfold isValidSquare, char_at.
  destruct sq as [|f [|r [|c rest]]]; cbn -[includes FILES RANKS];
    try discriminate.
  intros H. apply andb_true_iff in H as [Hf Hr].
  unfold includes in *. apply existsb_exists in Hf as [f' [Hf Ef]].
  apply existsb_exists in Hr as [r' [Hr Er]].
  apply bool_decide_eq_true in Ef, Er. injection Ef as <-. injection Er as <-.
  eauto.
Qed.

Ltac each_square Hf Hr :=
  simpl in Hf, Hr;
  repeat (destruct Hf as [<-|Hf]; [|]); try contradiction;
  repeat (destruct Hr as [<-|Hr]; [|]); try contradiction.

Lemma valid_square_coordinates (sq : Square) :
  isValidSquare sq = true →
  0 ≤ fst (squareToCoordinates sq) ≤ 7
  ∧ 0 ≤ snd (squareToCoordinates sq) ≤ 7
  ∧ coordinatesToSquare (fst (squareToCoordinates sq))
                        (snd (squareToCoordinates sq)) = Some sq.
Proof.
  intros H. apply valid_square_shape in H as (f & r & Hf & Hr & ->).
  each_square Hf Hr; vm_compute; intuition discriminate.
Qed.

Lemma coordinates_in_range (file rank : Z) :
  (file <? 0) || (file >? 7) || (rank <? 0) || (rank >? 7) = false ↔
  0 ≤ file ≤ 7 ∧ 0 ≤ rank ≤ 7.
Proof.
  rewrite !orb_false_iff, !Z.gtb_ltb, !Z.ltb_ge. lia.
Qed.

Lemma coordinatesToSquare_total (file rank : Z) :
  0 ≤ file ≤ 7 → 0 ≤ rank ≤ 7 →
  ∃ sq, coordinatesToSquare file rank = Some sq ∧ isValidSquare sq = true.
Proof.
  intros Hf Hr.
  assert (Hf' : In file [0; 1; 2; 3; 4; 5; 6; 7]) by (simpl; lia).
  assert (Hr' : In rank [0; 1; 2; 3; 4; 5; 6; 7]) by (simpl; lia).
  each_square Hf' Hr'; eexists; split; reflexivity.
Qed.


Lemma coordinatesToSquare_spec (file rank : Z) :
  match coordinatesToSquare file rank with
  | Some sq =>
      0 ≤ file ≤ 7 ∧ 0 ≤ rank ≤ 7
      ∧ isValidSquare sq = true
      ∧ squareToCoordinates sq = (file, rank)
  | None => file < 0 ∨ 7 < file ∨ rank < 0 ∨ 7 < rank
  end.
Proof.
  destruct (coordinatesToSquare file rank) as [sq|] eqn:H.
  - pose proof (coordinates_round_trip _ _ _ H) as Hrt.
    unfold coordinatesToSquare in H.
    destruct ((file <? 0) || (file >? 7) || (rank <? 0) || (rank >? 7)) eqn:E;
      [discriminate|].
    apply coordinates_in_range in E as [Hf Hr].
    destruct (coordinatesToSquare_total file rank Hf Hr) as [sq' [H' Hv]].
    unfold coordinatesToSquare in H'.
    rewrite (proj2 (coordinates_in_range file rank)) in H' by auto.
    rewrite H in H'. injection H' as <-. auto.
  - destruct (Z_lt_dec file 0), (Z_lt_dec 7 file), (Z_lt_dec rank 0),
      (Z_lt_dec 7 rank); auto.
    destruct (coordinatesToSquare_total file rank) as [sq [H' _]]; try lia.
    congruence.
Qed.


Lemma allSquares_spec (sq : Square) :
  length getAllSquares = 64%nat
  ∧ NoDup getAllSquares
  ∧ (In sq getAllSquares ↔ isValidSquare sq = true).
Proof.
  split; [reflexivity|]. split.
  - refine (bool_decide_unpack (NoDup getAllSquares) _). vm_compute. exact I.
  - split.
    + intros H. vm_compute in H.
      repeat (destruct H as [<-|H]; [reflexivity|]). destruct H.
    + intros H. apply valid_square_shape in H as (f & r & Hf & Hr & ->).
      each_square Hf Hr; vm_compute; tauto.
Qed.


Lemma loop_reaches (n : nat) :
  ∀ fuel cf cr tf tr sf sr,
    (n < fuel)%nat →
    (∀ j, (j < n)%nat →
          cf + Z.of_nat j * sf ≠ tf ∨ cr + Z.of_nat j * sr ≠ tr) →
    cf + Z.of_nat n * sf = tf → cr + Z.of_nat n * sr = tr →
    squaresBetweenLoop fuel cf cr tf tr sf sr
    = Some (map (visited cf cr sf sr) (seq 0 n)).
Proof.
  induction n as [|n IH]; intros fuel cf cr tf tr sf sr Hfuel Hne Hf Hr.
  - destruct fuel; [lia|]. simpl.
    rewrite !bool_decide_eq_false_2 by lia. reflexivity.
  - destruct fuel; [lia|]. simpl.
    assert (cf ≠ tf ∨ cr ≠ tr) as H0.
    { specialize (Hne O ltac:(lia)). simpl in Hne. lia. }
    assert (bool_decide (cf ≠ tf) || bool_decide (cr ≠ tr) = true) as ->.
    { destruct H0; [rewrite bool_decide_eq_true_2 by auto; reflexivity|].
      rewrite (bool_decide_eq_true_2 (cr ≠ tr)) by auto. apply orb_true_r. }
    rewrite (IH fuel (cf + sf) (cr + sr) tf tr sf sr); try lia.
    + f_equal. f_equal.
      * unfold visited. simpl. now rewrite !Z.add_0_r.
      * rewrite <- seq_shift, map_map. apply map_ext. intros j.
        unfold visited. f_equal; f_equal; lia.
    + intros j Hj. specialize (Hne (S j) ltac:(lia)). lia.
Qed.

Lemma loop_diverges (fuel : nat) :
  ∀ cf cr tf tr sf sr,
    (∀ j : nat, cf + Z.of_nat j * sf ≠ tf ∨ cr + Z.of_nat j * sr ≠ tr) →
    squaresBetweenLoop fuel cf cr tf tr sf sr = None.
Proof.
  induction fuel as [|fuel IH]; intros cf cr tf tr sf sr Hne; auto.
  simpl.
  assert (cf ≠ tf ∨ cr ≠ tr) as H0 by (specialize (Hne O); simpl in Hne; lia).
  assert (bool_decide (cf ≠ tf) || bool_decide (cr ≠ tr) = true) as ->.
  { destruct H0; [rewrite bool_decide_eq_true_2 by auto; reflexivity|].
    rewrite (bool_decide_eq_true_2 (cr ≠ tr)) by auto. apply orb_true_r. }
  rewrite IH; auto.
  intros j. specialize (Hne (S j)). lia.
Qed.


Lemma squaresBetween_terminates_iff (from to : Square) :
  (∃ fuel squares, getSquaresBetween fuel from to = Some squares)
  ↔ aligned from to.
Proof.
  unfold aligned, getSquaresBetween, squareToCoordinates.
  generalize (indexOf FILES (char_at from 0)) as ff.
  generalize (indexOf RANKS (char_at from 1)) as fr.
  generalize (indexOf FILES (char_at to 0)) as tf.
  generalize (indexOf RANKS (char_at to 1)) as tr.
  intros tr tf fr ff. cbv zeta.
  split.
  - intros (fuel & squares & H).
    destruct (Z.eq_dec tf ff) as [|Hf]; auto.
    destruct (Z.eq_dec tr fr) as [|Hr]; auto.
    destruct (Z.eq_dec (Z.abs (tf - ff)) (Z.abs (tr - fr))) as [|Hd]; auto.
    rewrite loop_diverges in H; [discriminate|].
    intros j. lia.
  - intros H.
    set (n := Z.to_nat (Z.max (Z.abs (tf - ff)) (Z.abs (tr - fr)))).
    exists (S n). eexists.
    apply (loop_reaches (n - 1)); try lia.
Qed.

Lemma nameAt_square (file rank : Z) :
  0 ≤ file ≤ 7 → 0 ≤ rank ≤ 7 →
  coordinatesToSquare file rank
  = Some (nameAt FILES file +:+ nameAt RANKS rank).
Proof.
  intros Hf Hr.
  assert (Hf' : In file [0; 1; 2; 3; 4; 5; 6; 7]) by (simpl; lia).
  assert (Hr' : In rank [0; 1; 2; 3; 4; 5; 6; 7]) by (simpl; lia).
  each_square Hf' Hr'; reflexivity.
Qed.

Lemma squares_between_explicit (from to : Square) (fuel : nat) :
  isValidSquare from = true → isValidSquare to = true →
  aligned from to → (8 ≤ fuel)%nat →
  let ff := fst (squareToCoordinates from) in
  let fr := snd (squareToCoordinates from) in
  let tf := fst (squareToCoordinates to) in
  let tr := snd (squareToCoordinates to) in
  ∃ squares,
    getSquaresBetween fuel from to = Some squares
    ∧ Z.of_nat (length squares)
      = Z.max 0 (Z.max (Z.abs (tf - ff)) (Z.abs (tr - fr)) - 1)
    ∧ ∀ (i : nat) (sq : Square),
        squares !! i = Some sq →
        isValidSquare sq = true
        ∧ squareToCoordinates sq
          = (ff + (Z.of_nat i + 1) * Z.sgn (tf - ff),
             fr + (Z.of_nat i + 1) * Z.sgn (tr - fr)).
Proof.
  intros Hvf Hvt Hal Hfuel.
  apply valid_square_coordinates in Hvf as (Hf1 & Hf2 & _).
  apply valid_square_coordinates in Hvt as (Ht1 & Ht2 & _).
  unfold aligned in Hal. unfold getSquaresBetween.
  unfold squareToCoordinates in *. cbn [fst snd] in *.
  set (ff := indexOf FILES (char_at from 0)) in *.
  set (fr := indexOf RANKS (char_at from 1)) in *.
  set (tf := indexOf FILES (char_at to 0)) in *.
  set (tr := indexOf RANKS (char_at to 1)) in *.
  set (n := Z.to_nat (Z.max (Z.abs (tf - ff)) (Z.abs (tr - fr)))).
  eexists. split; [|split].
  - apply (loop_reaches (n - 1)); try lia.
  - rewrite length_map, length_seq. lia.
  - intros i sq Hi.
    rewrite list_lookup_fmap in Hi.
    destruct (seq 0 (n - 1) !! i) as [j|] eqn:Hj; [|discriminate].
    apply lookup_seq in Hj as [-> Hlt]. simpl in Hi. injection Hi as <-.
    unfold visited.
    set (sf := Z.sgn (tf - ff)) in *. set (sr := Z.sgn (tr - fr)) in *.
    assert (0 ≤ ff + sf + Z.of_nat i * sf ≤ 7) as Hrf by (subst sf sr n; nia).
    assert (0 ≤ fr + sr + Z.of_nat i * sr ≤ 7) as Hrr by (subst sf sr n; nia).
    pose proof (nameAt_square _ _ Hrf Hrr) as Hsq.
    pose proof (coordinatesToSquare_spec
                  (ff + sf + Z.of_nat i * sf) (fr + sr + Z.of_nat i * sr)) as H.
    rewrite Hsq in H. destruct H as (_ & _ & Hv & Hc).
    split; [exact Hv|]. unfold squareToCoordinates in Hc.
    rewrite Hc. f_equal; lia.
Qed.

(** On the board the colour of a square is the parity of file + rank. *)
Lemma square_colour_parity (file rank : Z) (sq : Square) :
  coordinatesToSquare file rank = Some sq →
  getSquareColor sq = if Z.even (file + rank) then dark else light.
Proof.
  intros H.
  pose proof (coordinatesToSquare_spec file rank) as Hb.
  rewrite H in Hb. destruct Hb as (Hf & Hr & _ & Hc).
  unfold getSquareColor. unfold squareToCoordinates in Hc.
  pose proof (f_equal fst Hc) as H1. pose proof (f_equal snd Hc) as H2.
  cbn [fst snd] in H1, H2. cbv zeta. rewrite H1, H2.
  rewrite Z.rem_mod_nonneg by lia.
  rewrite Zeven_mod. reflexivity.
Qed.

Lemma rank_char (sq : Square) :
  isValidSquare sq = true →
  parseInt_char (char_at sq 1) = Some (snd (squareToCoordinates sq) + 1).
Proof.
  intros H. apply valid_square_shape in H as (f & r & Hf & Hr & ->).
  each_square Hf Hr; reflexivity.
Qed.

Lemma skipped_square (sq : Square) (c : PieceColor) :
  isValidSquare sq = true →
  let name := head_plus sq (if bool_decide (c = white) then "3" else "6") in
  isValidSquare name = true
  ∧ squareToCoordinates name
    = (fst (squareToCoordinates sq), if bool_decide (c = white) then 2 else 5).
Proof.
  intros H. apply valid_square_shape in H as (f & r & Hf & Hr & ->).
  destruct c; each_square Hf Hr; split; reflexivity.
Qed.

End BoardGeometry.

(** ** Where generated moves come from *)

Section GeneratorOrigins.
Import ChessBoard MoveGenerator.


Lemma slideRay_origin position from piece file rank fd rd steps m :
  In m (slideRay position from piece file rank fd rd steps) →
  ∃ pre i post sq,
    steps = pre ++ i :: post
    ∧ coordinatesToSquare (file + i * fd) (rank + i * rd) = Some sq
    ∧ landsOn position from piece sq m
    ∧ Forall (fun j => ∃ sqj,
                coordinatesToSquare (file + j * fd) (rank + j * rd) = Some sqj
                ∧ vacant position sqj = true) pre.
Proof.
  induction steps as [|i steps IH]; simpl; [tauto|].
  destruct (coordinatesToSquare (file + i * fd) (rank + i * rd)) as [sq|] eqn:Hsq;
    [|simpl; tauto].
  destruct (truthy (pos_get position sq)) as [target|] eqn:Ht.
  - destruct (bool_decide (color target ≠ color piece)) eqn:Hc; simpl; [|tauto].
    intros [<-|[]]. apply bool_decide_eq_true in Hc.
    exists [], i, steps, sq. repeat split; auto.
    right. eauto.
  - simpl. intros [<-|H].
    + exists [], i, steps, sq. repeat split; auto. left. auto.
    + destruct (IH H) as (pre & i' & post & sq' & -> & Hsq' & Hl & Hpre).
      exists (i :: pre), i', post, sq'. repeat split; auto.
      constructor; auto. exists sq. split; auto.
      unfold vacant. now rewrite Ht.
Qed.

Lemma sliding_origin gs from piece dirs m :
  In m (generateSlidingMoves gs from piece dirs) →
  ∃ fd rd pre i post sq,
    In (fd, rd) dirs
    ∧ [1; 2; 3; 4; 5; 6; 7] = pre ++ i :: post
    ∧ coordinatesToSquare (fst (squareToCoordinates from) + i * fd)
                          (snd (squareToCoordinates from) + i * rd) = Some sq
    ∧ landsOn (position gs) from piece sq m
    ∧ Forall (fun j => ∃ sqj,
                coordinatesToSquare (fst (squareToCoordinates from) + j * fd)
                                    (snd (squareToCoordinates from) + j * rd)
                = Some sqj
                ∧ vacant (position gs) sqj = true) pre.
Proof.
  unfold generateSlidingMoves.
  destruct (squareToCoordinates from) as [file rank]. cbn [fst snd].
  rewrite in_flat_map. intros [[fd rd] [Hin H]].
  apply slideRay_origin in H as (pre & i & post & sq & H1 & H2 & H3 & H4).
  exists fd, rd, pre, i, post, sq. auto.
Qed.

Lemma stepMoves_origin gs from piece offsets m :
  In m (stepMoves gs from piece offsets) →
  ∃ fo ro sq,
    In (fo, ro) offsets
    ∧ coordinatesToSquare (fst (squareToCoordinates from) + fo)
                          (snd (squareToCoordinates from) + ro) = Some sq
    ∧ landsOn (position gs) from piece sq m.
Proof.
  unfold stepMoves.
  destruct (squareToCoordinates from) as [file rank]. cbn [fst snd].
  rewrite in_flat_map. intros [[fo ro] [Hin H]].
  destruct (coordinatesToSquare (file + fo) (rank + ro)) as [sq|] eqn:Hsq;
    [|destruct H].
  exists fo, ro, sq. split; auto. split; auto.
  destruct (truthy (pos_get (position gs) sq)) as [target|] eqn:Ht.
  - destruct (bool_decide (color target ≠ color piece)) eqn:Hc;
      simpl in H; [|tauto].
    destruct H as [<-|[]]. apply bool_decide_eq_true in Hc. right. eauto.
  - destruct H as [<-|[]]. left. auto.
Qed.


Lemma castling_origin gs from piece m :
  In m (generateCastlingMoves gs from piece) ↔
  ∃ side,
    let '(home, target, between, corner, flag) :=
      castlingRule (color piece) side in
    m = castlingMove from target piece side
    ∧ from = home
    ∧ flag (castlingRights gs) = true
    ∧ forallb (vacant (position gs)) between = true
    ∧ holds (position gs) corner rook (color piece) = true.
Proof.
  unfold generateCastlingMoves.
  destruct piece as [t [|]]; simpl.
  - destruct (String.eqb from "e1") eqn:E.
    + apply String.eqb_eq in E. subst from. rewrite in_app_iff. split.
      * intros [H|H].
        -- destruct (whiteKingside _ && _ && _ && _) eqn:C; [|destruct H].
           destruct H as [<-|[]]. exists kingside. simpl.
           repeat (apply andb_true_iff in C as [C ?]).
           repeat split; auto. now rewrite H1, H0.
        -- destruct (whiteQueenside _ && _ && _ && _ && _) eqn:C;
             [|destruct H].
           destruct H as [<-|[]]. exists queenside. simpl.
           repeat (apply andb_true_iff in C as [C ?]).
           repeat split; auto. now rewrite H2, H1, H0.
      * intros [[|] H]; simpl in H; destruct H as (-> & _ & Hr & Hv & Hh).
        -- left. repeat (apply andb_true_iff in Hv as [? Hv]).
           rewrite Hr, H, H0, Hh. simpl. auto.
        -- right. repeat (apply andb_true_iff in Hv as [? Hv]).
           rewrite Hr, H, H0, H1, Hh. simpl. auto.
    + split; [intros []|].
      intros [[|] H]; simpl in H; destruct H as (_ & -> & _);
        discriminate.
  - destruct (String.eqb from "e8") eqn:E.
    + apply String.eqb_eq in E. subst from. rewrite in_app_iff. split.
      * intros [H|H].
        -- destruct (blackKingside _ && _ && _ && _) eqn:C; [|destruct H].
           destruct H as [<-|[]]. exists kingside. simpl.
           repeat (apply andb_true_iff in C as [C ?]).
           repeat split; auto. now rewrite H1, H0.
        -- destruct (blackQueenside _ && _ && _ && _ && _) eqn:C;
             [|destruct H].
           destruct H as [<-|[]]. exists queenside. simpl.
           repeat (apply andb_true_iff in C as [C ?]).
           repeat split; auto. now rewrite H2, H1, H0.
      * intros [[|] H]; simpl in H; destruct H as (-> & _ & Hr & Hv & Hh).
        -- left. repeat (apply andb_true_iff in Hv as [? Hv]).
           rewrite Hr, H, H0, Hh. simpl. auto.
        -- right. repeat (apply andb_true_iff in Hv as [? Hv]).
           rewrite Hr, H, H0, H1, Hh. simpl. auto.
    + split; [intros []|].
      intros [[|] H]; simpl in H; destruct H as (_ & -> & _);
        discriminate.
Qed.

End GeneratorOrigins.

Section PawnMoveFacts.
Import ChessBoard MoveGenerator.

Variables (gs : GameState) (from : Square) (piece : Piece).

Lemma pawnCaptures_origin file rank off m :
  In off [-1; 1] →
  In m (pawnCaptures gs from piece file rank (forward piece)
                     (lastRankOf piece) off) →
  PawnMove gs from piece file rank m.
Proof.
  intros Hoff. unfold pawnCaptures.
  destruct (coordinatesToSquare (file + off) (rank + forward piece))
    as [sq|] eqn:Hsq; [|intros []].
  rewrite in_app_iff. intros [H|H].
  - destruct (truthy (pos_get (position gs) sq)) as [target|] eqn:Ht;
      [|destruct H].
    destruct (bool_decide (color target ≠ color piece)) eqn:Hc; [|destruct H].
    apply bool_decide_eq_true in Hc.
    destruct (rank + forward piece =? lastRankOf piece) eqn:Hp.
    + apply Z.eqb_eq in Hp. apply in_map_iff in H as [t [<- Ht']].
      eapply PromotingCapture; eauto.
    + apply Z.eqb_neq in Hp. destruct H as [<-|[]].
      eapply PawnCapture; eauto.
  - destruct (bool_decide (Some sq = enPassantTarget gs)) eqn:He;
      [|destruct H].
    apply bool_decide_eq_true in He.
    destruct (coordinatesToSquare (file + off) rank) as [sqp|] eqn:Hsqp;
      [|destruct H].
    destruct (truthy (pos_get (position gs) sqp)) as [cp|] eqn:Hcp;
      [|destruct H].
    destruct H as [<-|[]]. eapply EnPassant; eauto.
Qed.

Lemma pawnCaptures_complete file rank off m :
  In off [-1; 1] →
  (∃ sq target,
     coordinatesToSquare (file + off) (rank + forward piece) = Some sq
     ∧ truthy (pos_get (position gs) sq) = Some target
     ∧ color target ≠ color piece
     ∧ ((rank + forward piece ≠ lastRankOf piece
         ∧ m = capture from sq piece target)
        ∨ (rank + forward piece = lastRankOf piece
           ∧ ∃ t, In t promotionPieces
                  ∧ m = mkMove from sq piece (Some target) (Some t)
                               None false)))
  ∨ (∃ sq sqp cp,
       coordinatesToSquare (file + off) (rank + forward piece) = Some sq
       ∧ enPassantTarget gs = Some sq
       ∧ coordinatesToSquare (file + off) rank = Some sqp
       ∧ truthy (pos_get (position gs) sqp) = Some cp
       ∧ m = mkMove from sq piece (Some cp) None None true) →
  In m (pawnCaptures gs from piece file rank (forward piece)
                     (lastRankOf piece) off).
Proof.
  intros Hoff H. unfold pawnCaptures.
  destruct H as [(sq & target & Hsq & Ht & Hc & H)
                |(sq & sqp & cp & Hsq & He & Hsqp & Hcp & ->)];
    rewrite Hsq; apply in_app_iff.
  - left. rewrite Ht. rewrite bool_decide_eq_true_2 by assumption.
    destruct H as [[Hp ->]|[Hp (t & Hin & ->)]].
    + apply Z.eqb_neq in Hp. rewrite Hp. now left.
    + apply Z.eqb_eq in Hp. rewrite Hp. apply in_map_iff. eauto.
  - right. rewrite bool_decide_eq_true_2 by auto.
    rewrite Hsqp, Hcp. now left.
Qed.

Lemma pawn_moves_iff (m : Move) :
  In m (generatePawnMoves gs from piece)
  ↔ PawnMove gs from piece (fst (squareToCoordinates from))
             (snd (squareToCoordinates from)) m.
Proof.
  unfold generatePawnMoves.
  fold (forward piece) (startRankOf piece) (lastRankOf piece).
  destruct (squareToCoordinates from) as [file rank]. cbn [fst snd].
  rewrite in_app_iff. split.
  - intros [H|H].
    + destruct (coordinatesToSquare file (rank + forward piece))
        as [sq|] eqn:Hsq; [|destruct H].
      destruct (truthy (pos_get (position gs) sq)) eqn:Hv; [destruct H|].
      assert (vacant (position gs) sq = true) as Hv'
          by (unfold vacant; now rewrite Hv).
      destruct (rank + forward piece =? lastRankOf piece) eqn:Hp.
      * apply Z.eqb_eq in Hp. apply in_map_iff in H as [t [<- Ht]].
        eapply PromotingPush; eauto.
      * apply Z.eqb_neq in Hp. destruct H as [<-|H].
        -- eapply SinglePush; eauto.
        -- destruct (rank =? startRankOf piece) eqn:Hs; [|destruct H].
           apply Z.eqb_eq in Hs.
           destruct (coordinatesToSquare file (rank + 2 * forward piece))
             as [sq2|] eqn:Hsq2; [|destruct H].
           destruct (truthy (pos_get (position gs) sq2)) eqn:Hv2;
             [destruct H|].
           destruct H as [<-|[]]. eapply DoublePush; eauto.
           unfold vacant. now rewrite Hv2.
    + apply in_flat_map in H as [off [Hoff H]].
      eapply pawnCaptures_origin; eauto.
  - intros H. destruct H.
    + left. rewrite H. unfold vacant in H0.
      destruct (truthy (pos_get (position gs) sq)); [discriminate|].
      apply Z.eqb_neq in H1. rewrite H1. now left.
    + left. rewrite H. unfold vacant in H0.
      destruct (truthy (pos_get (position gs) sq)); [discriminate|].
      apply Z.eqb_eq in H1. rewrite H1. apply in_map_iff. eauto.
    + left. rewrite H. unfold vacant in H0, H4.
      destruct (truthy (pos_get (position gs) sq1)); [discriminate|].
      apply Z.eqb_neq in H1. rewrite H1. right.
      apply Z.eqb_eq in H2. rewrite H2. rewrite H3.
      destruct (truthy (pos_get (position gs) sq2)); [discriminate|].
      now left.
    + right. apply in_flat_map. exists off. split; auto.
      apply pawnCaptures_complete; auto. left. eauto 10.
    + right. apply in_flat_map. exists off. split; auto.
      apply pawnCaptures_complete; auto. left.
      exists sq, target. repeat split; auto. right. eauto.
    + right. apply in_flat_map. exists off. split; auto.
      apply pawnCaptures_complete; auto. right. eauto 10.
Qed.

End PawnMoveFacts.

Section GeneratorShapes.
Import ChessBoard MoveGenerator.


Lemma landing_displacement (from to : Square) (df dr : Z) :
  coordinatesToSquare (fst (squareToCoordinates from) + df)
                      (snd (squareToCoordinates from) + dr) = Some to →
  isValidSquare to = true
  ∧ fst (squareToCoordinates to) - fst (squareToCoordinates from) = df
  ∧ snd (squareToCoordinates to) - snd (squareToCoordinates from) = dr.
Proof.
  intros H.
  pose proof (coordinatesToSquare_spec
                (fst (squareToCoordinates from) + df)
                (snd (squareToCoordinates from) + dr)) as Hb.
  rewrite H in Hb. destruct Hb as (_ & _ & Hv & Hc).
  rewrite Hc. cbn [fst snd]. split; auto. lia.
Qed.

Lemma landsOn_fields position from piece sq m :
  landsOn position from piece sq m →
  chess.from m = from ∧ to m = sq ∧ chess.piece m = piece
  ∧ promotion m = None ∧ castling m = None ∧ enPassant m = false
  ∧ captured m = truthy (pos_get position sq)
  ∧ (∀ p, captured m = Some p → color p ≠ color piece).
Proof.
  intros [[Hv ->]|(target & Ht & Hc & ->)]; simpl; rewrite ?Hv, ?Ht;
    repeat split; auto; congruence.
Qed.

Lemma step_in_range (pre post : list Z) (i : Z) :
  [1; 2; 3; 4; 5; 6; 7] = pre ++ i :: post →
  1 ≤ i ≤ 7 ∧ ∀ j, In j pre ↔ 1 ≤ j < i.
Proof.
  intros H.
  destruct pre as [|a1 [|a2 [|a3 [|a4 [|a5 [|a6 [|a7 [|a8 pre]]]]]]]];
    simpl in H; inversion H; subst; simpl;
    try (split; [lia|intros j; split; [intros; intuition lia|intros; lia]]).
Qed.


Lemma pieceMoves_geometry gs sq piece m :
  In m (generatePieceMoves gs sq piece) →
  from m = sq ∧ chess.piece m = piece ∧ isValidSquare (to m) = true
  ∧ followsGeometry m.
Proof.
  unfold generatePieceMoves, followsGeometry, displacement.
  destruct (type piece) eqn:Ht; intros H.
  - (* pawn *)
    apply pawn_moves_iff in H.
    destruct H; unfold forward, startRankOf, lastRankOf in *;
      repeat match goal with
             | H : coordinatesToSquare (fst _ + _) _ = Some _ |- _ =>
                 apply landing_displacement in H as (? & ? & ?)
             | H : coordinatesToSquare (fst _) (snd _ + ?d) = Some _ |- _ =>
                 rewrite <- (Z.add_0_r (fst (squareToCoordinates sq))) in H;
                 apply landing_displacement in H as (? & ? & ?)
             end;
      cbn [chess.from chess.to chess.piece chess.captured quiet capture];
      try match goal with Ho : In _ [-1; 1] |- _ => cbn [In] in Ho end;
      rewrite ?Ht; repeat split; auto;
      try (left; repeat split; auto; lia);
      try (right; repeat split; try discriminate; lia).
  - (* rook *)
    apply sliding_origin in H
        as (fd & rd & pre & i & post & sq' & Hd & Hs & Hsq & Hl & _).
    apply landsOn_fields in Hl as (-> & -> & -> & _).
    apply step_in_range in Hs as [Hi _].
    apply landing_displacement in Hsq as (Hv & -> & ->). rewrite Ht.
    repeat split; auto. simpl in Hd.
    repeat (destruct Hd as [[= <- <-]|Hd]; [lia|]). destruct Hd.
  - (* knight *)
    apply stepMoves_origin in H as (fo & ro & sq' & Hd & Hsq & Hl).
    apply landsOn_fields in Hl as (-> & -> & -> & _).
    apply landing_displacement in Hsq as (Hv & -> & ->). rewrite Ht.
    repeat split; auto. simpl in Hd.
    repeat (destruct Hd as [[= <- <-]|Hd]; [lia|]). destruct Hd.
  - (* bishop *)
    apply sliding_origin in H
        as (fd & rd & pre & i & post & sq' & Hd & Hs & Hsq & Hl & _).
    apply landsOn_fields in Hl as (-> & -> & -> & _).
    apply step_in_range in Hs as [Hi _].
    apply landing_displacement in Hsq as (Hv & -> & ->). rewrite Ht.
    repeat split; auto; simpl in Hd;
      repeat (destruct Hd as [[= <- <-]|Hd]; [lia|]); destruct Hd.
  - (* queen *)
    apply sliding_origin in H
        as (fd & rd & pre & i & post & sq' & Hd & Hs & Hsq & Hl & _).
    apply landsOn_fields in Hl as (-> & -> & -> & _).
    apply step_in_range in Hs as [Hi _].
    apply landing_displacement in Hsq as (Hv & -> & ->). rewrite Ht.
    repeat split; auto. simpl in Hd.
    repeat (destruct Hd as [[= <- <-]|Hd]; [lia|]). destruct Hd.
  - (* king *)
    unfold generateKingMoves in H. apply in_app_iff in H as [H|H].
    + apply stepMoves_origin in H as (fo & ro & sq' & Hd & Hsq & Hl).
      apply landsOn_fields in Hl as (-> & -> & -> & _ & Hc & _).
      apply landing_displacement in Hsq as (Hv & -> & ->). rewrite Ht.
      repeat split; auto. left. split; auto. simpl in Hd.
      repeat (destruct Hd as [[= <- <-]|Hd]; [lia|]). destruct Hd.
    + apply castling_origin in H as [side H].
      destruct (color piece), side; simpl in H;
        destruct H as (-> & -> & _); simpl; rewrite Ht;
        repeat split; auto; right; repeat split; try discriminate;
        vm_compute; reflexivity.
Qed.

End GeneratorShapes.

Section GeneratorTheorems.
Import ChessBoard MoveGenerator.

Lemma pseudoLegal_iff gs m :
  In m (generatePseudoLegalMoves gs) ↔
  ∃ sq piece,
    In (sq, Occupied piece) (position gs)
    ∧ color piece = activeColor gs
    ∧ In m (generatePieceMoves gs sq piece).
Proof.
  unfold generatePseudoLegalMoves. rewrite in_flat_map. split.
  - intros [[sq slot] [Hin H]].
    destruct slot as [| |piece]; simpl in H; try destruct H.
    destruct (bool_decide (color piece = activeColor gs)) eqn:E; [|destruct H].
    apply bool_decide_eq_true in E. eauto.
  - intros (sq & piece & Hin & Hc & H).
    exists (sq, Occupied piece). split; auto. simpl.
    now rewrite bool_decide_eq_true_2.
Qed.

Lemma geometry_moves (m : Move) : followsGeometry m → to m ≠ from m.
Proof.
  unfold followsGeometry, displacement. intros H E. rewrite E in H.
  rewrite !Z.sub_diag in H.
  destruct (type (piece m));
    try destruct (bool_decide (color (piece m) = white)); simpl in H; lia.
Qed.

Lemma pseudoLegal_geometry (gs : GameState) (m : Move) :
  In m (generatePseudoLegalMoves gs) →
  isValidSquare (to m) = true ∧ to m ≠ from m ∧ followsGeometry m.
Proof.
  intros H. apply pseudoLegal_iff in H as (sq & piece & _ & _ & H).
  apply pieceMoves_geometry in H as (_ & _ & Hv & Hg).
  repeat split; auto. now apply geometry_moves.
Qed.


Lemma valid_square_colour (sq : Square) :
  isValidSquare sq = true →
  getSquareColor sq
  = if Z.even (fst (squareToCoordinates sq) + snd (squareToCoordinates sq))
    then dark else light.
Proof.
  intros H. apply valid_square_coordinates in H as (_ & _ & H).
  now apply square_colour_parity.
Qed.

(** X1. A generated bishop move ends on a square of the colour
    [getSquareColor] gives its starting square; a generated knight move
    ends on a square of the other colour. *)
Theorem bishops_keep_and_knights_change_colour (gs : GameState) (m : Move) :
  In m (generatePseudoLegalMoves gs) →
  isValidSquare (from m) = true →
  match type (piece m) with
  | bishop => getSquareColor (to m) = getSquareColor (from m)
  | knight => getSquareColor (to m) ≠ getSquareColor (from m)
  | _ => True
  end.
Proof.
  intros H Hvf.
  apply pseudoLegal_geometry in H as (Hvt & _ & Hg).
  unfold followsGeometry, displacement in Hg.
  rewrite (valid_square_colour _ Hvf), (valid_square_colour _ Hvt).
  generalize dependent (fst (squareToCoordinates (from m))). intros f.
  generalize dependent (snd (squareToCoordinates (from m))). intros r.
  generalize dependent (fst (squareToCoordinates (to m))). intros f'.
  generalize dependent (snd (squareToCoordinates (to m))). intros r' Hg.
  destruct (type (piece m)); try exact I.
  - (* knight *)
    assert (∃ k, f' + r' = (f + r) + 1 + 2 * k) as [k ->].
    { destruct (Z.abs_eq_or_opp (f' - f)) as [Ef|Ef],
               (Z.abs_eq_or_opp (r' - r)) as [Er|Er];
        destruct Hg as [[H1 H2]|[H1 H2]];
        first [exists 1; lia | exists 0; lia | exists (-1); lia
              | exists (-2); lia]. }
    rewrite Z.even_add_mul_2, Z.add_1_r, Z.even_succ, <- Z.negb_even.
    destruct (Z.even (f + r)); discriminate.
  - (* bishop *)
    assert (∃ k, f' + r' = (f + r) + 2 * k) as [k ->].
    { destruct Hg as [Hg _].
      destruct (Z.abs_eq_or_opp (f' - f)) as [Ef|Ef],
               (Z.abs_eq_or_opp (r' - r)) as [Er|Er];
        first [exists (f' - f); lia | exists 0; lia]. }
    now rewrite Z.even_add_mul_2.
Qed.


End GeneratorTheorems.

Section GeneratorTheorems2.
Import ChessBoard MoveGenerator.

Lemma slide_not_jumping gs from piece dirs m fuel :
  (∀ fd rd, In (fd, rd) dirs → unitDirection fd rd) →
  isValidSquare from = true →
  In m (generateSlidingMoves gs from piece dirs) →
  (8 ≤ fuel)%nat →
  ∃ squares,
    getSquaresBetween fuel from (to m) = Some squares
    ∧ Forall (fun sq => vacant (position gs) sq = true) squares.
Proof.
  intros Hdirs Hvf H Hfuel.
  apply sliding_origin in H
      as (fd & rd & pre & i & post & sq & Hd & Hs & Hsq & Hl & Hpre).
  apply landsOn_fields in Hl as (_ & -> & _).
  apply step_in_range in Hs as [Hi Hin].
  destruct (Hdirs _ _ Hd) as (Hfd & Hrd & Hnz).
  pose proof (landing_displacement _ _ _ _ Hsq) as (Hvt & Hdf & Hdr).
  assert (Hal : aligned from sq).
  { unfold aligned.
    destruct (squareToCoordinates from) as [ff fr],
             (squareToCoordinates sq) as [tf tr]. simpl in *.
    assert (fd = -1 ∨ fd = 0 ∨ fd = 1) as [->|[->| ->]] by lia;
      assert (rd = -1 ∨ rd = 0 ∨ rd = 1) as [->|[->| ->]] by lia; lia. }
  destruct (squares_between_explicit from sq fuel Hvf Hvt Hal Hfuel)
    as (squares & Hsome & Hlen & Hnth).
  exists squares. split; auto.
  apply Forall_lookup. intros k s Hk.
  destruct (Hnth k s Hk) as [Hvs Hcs].
  apply lookup_lt_Some in Hk.
  assert (Hsgn : Z.sgn (fst (squareToCoordinates sq)
                        - fst (squareToCoordinates from)) = fd
                 ∧ Z.sgn (snd (squareToCoordinates sq)
                          - snd (squareToCoordinates from)) = rd).
  { rewrite Hdf, Hdr.
    assert (fd = -1 ∨ fd = 0 ∨ fd = 1) as [->|[->| ->]] by lia;
      assert (rd = -1 ∨ rd = 0 ∨ rd = 1) as [->|[->| ->]] by lia; lia. }
  destruct Hsgn as [Hsf Hsr]. rewrite Hsf, Hsr in Hcs.
  assert (Hk' : 1 ≤ Z.of_nat k + 1 < i).
  { rewrite Hdf, Hdr in Hlen.
    assert (fd = -1 ∨ fd = 0 ∨ fd = 1) as [->|[->| ->]] by lia;
      assert (rd = -1 ∨ rd = 0 ∨ rd = 1) as [->|[->| ->]] by lia; lia. }
  apply Hin in Hk'.
  destruct (proj1 (List.Forall_forall _ _) Hpre _ Hk') as (sqj & Hsqj & Hvac).
  apply valid_square_coordinates in Hvs as (_ & _ & Hrt).
  rewrite Hcs in Hrt. cbn [fst snd] in Hrt.
  rewrite Hsqj in Hrt. injection Hrt as <-. exact Hvac.
Qed.

Lemma unit_rook fd rd :
  In (fd, rd) [(0, 1); (0, -1); (1, 0); (-1, 0)] → unitDirection fd rd.
Proof.
  simpl. unfold unitDirection.
  intros H. repeat (destruct H as [[= <- <-]|H]; [lia|]). destruct H.
Qed.

Lemma unit_bishop fd rd :
  In (fd, rd) [(1, 1); (1, -1); (-1, 1); (-1, -1)] → unitDirection fd rd.
Proof.
  simpl. unfold unitDirection.
  intros H. repeat (destruct H as [[= <- <-]|H]; [lia|]). destruct H.
Qed.

Lemma unit_queen fd rd :
  In (fd, rd) [(0, 1); (0, -1); (1, 0); (-1, 0);
               (1, 1); (1, -1); (-1, 1); (-1, -1)] → unitDirection fd rd.
Proof.
  simpl. unfold unitDirection.
  intros H. repeat (destruct H as [[= <- <-]|H]; [lia|]). destruct H.
Qed.

(** X2. Rooks, bishops and queens do not jump: for every generated move
    of one of them, every square [getSquaresBetween] lists between its two
    squares is empty. *)
Theorem sliding_pieces_do_not_jump (gs : GameState) (m : Move) (fuel : nat) :
  In m (generatePseudoLegalMoves gs) →
  In (type (piece m)) [rook; bishop; queen] →
  isValidSquare (from m) = true →
  (8 ≤ fuel)%nat →
  ∃ squares,
    getSquaresBetween fuel (from m) (to m) = Some squares
    ∧ Forall (fun sq => vacant (position gs) sq = true) squares.
Proof.
  intros H Ht Hv Hfuel.
  apply pseudoLegal_iff in H as (sq & piece & _ & _ & H).
  pose proof (pieceMoves_geometry _ _ _ _ H) as (Hf & Hp & _).
  rewrite Hp in Ht. rewrite Hf in *. clear Hf Hp.
  unfold generatePieceMoves in H. simpl in Ht.
  destruct (type piece);
    try (exfalso; intuition discriminate).
  - eapply slide_not_jumping; eauto. apply unit_rook.
  - eapply slide_not_jumping; eauto. apply unit_bishop.
  - eapply slide_not_jumping; eauto. apply unit_queen.
Qed.

End GeneratorTheorems2.

Section GeneratorTheorems3.
Import ChessBoard MoveGenerator.

Lemma pawnMove_fields gs from piece file rank m :
  PawnMove gs from piece file rank m →
  chess.from m = from ∧ chess.piece m = piece ∧ castling m = None.
Proof. intros H. destruct H; simpl; auto. Qed.

Lemma pawn_promotion_facts (gs : GameState) (m : Move) :
  In m (generatePseudoLegalMoves gs) →
  type (piece m) = pawn →
  enPassant m = false →
  let lastRank := if bool_decide (color (piece m) = white) then 7 else 0 in
  (promotion m = None ↔ snd (squareToCoordinates (to m)) ≠ lastRank)
  ∧ ∀ t, promotion m = Some t →
         In t promotionPieces
         ∧ ∀ t', In t' promotionPieces →
                 In (mkMove (from m) (to m) (piece m) (captured m)
                            (Some t') None false)
                    (generatePseudoLegalMoves gs).
Proof.
  intros H Ht He.
  apply pseudoLegal_iff in H as (sq & piece & Hin & Hc & H).
  pose proof (pieceMoves_geometry _ _ _ _ H) as (Hf & Hp & _).
  subst sq piece. unfold generatePieceMoves in H. rewrite Ht in H.
  apply pawn_moves_iff in H.
  assert (Hback : ∀ m', PawnMove gs (from m) (piece m)
                            (fst (squareToCoordinates (from m)))
                            (snd (squareToCoordinates (from m))) m' →
                        In m' (generatePseudoLegalMoves gs)).
  { intros m' Hm'. apply pseudoLegal_iff. exists (from m), (piece m).
    repeat split; auto. unfold generatePieceMoves. rewrite Ht.
    now apply pawn_moves_iff. }
  remember (from m) as sq eqn:Hsq. remember (piece m) as piece eqn:Hpc.
  destruct H; unfold forward, startRankOf, lastRankOf in *;
    cbn [chess.from chess.to chess.piece chess.promotion chess.captured
         chess.enPassant chess.castling quiet capture] in *;
    try discriminate;
    repeat match goal with
           | H : coordinatesToSquare (fst _ + _) _ = Some _ |- _ =>
               pose proof (landing_displacement _ _ _ _ H) as (? & ? & ?);
               revert H
           | H : coordinatesToSquare (fst (squareToCoordinates ?s)) _
                 = Some _ |- _ =>
               let H' := fresh in
               pose proof H as H';
               rewrite <- (Z.add_0_r (fst (squareToCoordinates s))) in H';
               pose proof (landing_displacement _ _ _ _ H') as (? & ? & ?);
               clear H'; revert H
           end; intros.
  - split; [split; [intros _; lia|auto]|discriminate].
  - split; [split; [discriminate|intros; lia]|].
    intros t0 [= <-]. split; auto. intros t' Ht'. apply Hback.
    eapply PromotingPush; eauto.
  - split; [split; [intros _|auto]|discriminate].
    destruct (bool_decide (color piece = white)); lia.
  - split; [split; [intros _; lia|auto]|discriminate].
  - split; [split; [discriminate|intros; lia]|].
    intros t0 [= <-]. split; auto. intros t' Ht'. apply Hback.
    eapply PromotingCapture; eauto.
Qed.

End GeneratorTheorems3.

Section GeneratorTheorems4.
Import ChessBoard MoveGenerator.

(** X3. A castling move is generated exactly when the king of the side
    to move stands on its home square, the right for that side and wing
    is still set, the squares between king and rook are empty and the
    corner holds a rook of that colour.  Whether the king is in check or
    crosses an attacked square is not looked at. *)
Theorem castling_is_generated_exactly_under_its_rule (gs : GameState)
    (m : Move) :
  (In m (generatePseudoLegalMoves gs) ∧ castling m ≠ None)
  ↔ ∃ side theKing,
      let '(home, target, between, corner, flag) :=
        castlingRule (activeColor gs) side in
      In (home, Occupied theKing) (position gs)
      ∧ type theKing = king
      ∧ color theKing = activeColor gs
      ∧ m = castlingMove home target theKing side
      ∧ flag (castlingRights gs) = true
      ∧ forallb (vacant (position gs)) between = true
      ∧ holds (position gs) corner rook (activeColor gs) = true.
Proof.
  split.
  - intros [H Hc].
    apply pseudoLegal_iff in H as (sq & piece & Hin & Hcol & H).
    unfold generatePieceMoves in H.
    destruct (type piece) eqn:Ht.
    + apply pawn_moves_iff, pawnMove_fields in H as (_ & _ & H).
      contradiction.
    + apply sliding_origin in H as (? & ? & ? & ? & ? & ? & _ & _ & _ & H & _).
      apply landsOn_fields in H as (_ & _ & _ & _ & H & _). contradiction.
    + apply stepMoves_origin in H as (? & ? & ? & _ & _ & H).
      apply landsOn_fields in H as (_ & _ & _ & _ & H & _). contradiction.
    + apply sliding_origin in H as (? & ? & ? & ? & ? & ? & _ & _ & _ & H & _).
      apply landsOn_fields in H as (_ & _ & _ & _ & H & _). contradiction.
    + apply sliding_origin in H as (? & ? & ? & ? & ? & ? & _ & _ & _ & H & _).
      apply landsOn_fields in H as (_ & _ & _ & _ & H & _). contradiction.
    + unfold generateKingMoves in H. apply in_app_iff in H as [H|H].
      * apply stepMoves_origin in H as (? & ? & ? & _ & _ & H).
        apply landsOn_fields in H as (_ & _ & _ & _ & H & _). contradiction.
      * apply castling_origin in H as [side H].
        exists side, piece. rewrite <- Hcol.
        destruct (castlingRule (color piece) side)
          as [[[[home target] between] corner] flag].
        destruct H as (-> & -> & Hr & Hv & Hh). auto 10.
  - intros (side & theKing & H).
    destruct (castlingRule (activeColor gs) side)
      as [[[[home target] between] corner] flag] eqn:Hrule.
    destruct H as (Hin & Ht & Hcol & -> & Hr & Hv & Hh).
    split; [|discriminate].
    apply pseudoLegal_iff. exists home, theKing. repeat split; auto.
    unfold generatePieceMoves. rewrite Ht. unfold generateKingMoves.
    apply in_app_iff. right. apply castling_origin. exists side.
    rewrite Hcol, Hrule. auto.
Qed.

(** X4. A generated move other than an en-passant capture ends on an
    empty square with no [captured] piece, or on a piece of the other
    side, which is then its [captured] piece; never on a piece of the
    side to move. *)
Theorem moves_never_land_on_own_pieces (gs : GameState) (m : Move) :
  In m (generatePseudoLegalMoves gs) →
  enPassant m = false →
  match truthy (pos_get (position gs) (to m)) with
  | Some p => captured m = Some p ∧ color p = opponent (activeColor gs)
  | None => captured m = None
  end.
Proof.
  intros H He.
  apply pseudoLegal_iff in H as (sq & piece & Hin & Hcol & H).
  assert (Hopp : ∀ p, color p ≠ color piece →
                      color p = opponent (activeColor gs)).
  { intros p Hp. rewrite <- Hcol. destruct (color p), (color piece);
      simpl; congruence. }
  assert (Hland : ∀ sq', landsOn (position gs) sq piece sq' m →
            match truthy (pos_get (position gs) (to m)) with
            | Some p => captured m = Some p
                        ∧ color p = opponent (activeColor gs)
            | None => captured m = None
            end).
  { intros sq' Hl. apply landsOn_fields in Hl
        as (_ & -> & _ & _ & _ & _ & Hcap & Hen).
    rewrite <- Hcap. destruct (captured m); auto. }
  unfold generatePieceMoves in H.
  destruct (type piece) eqn:Ht.
  - apply pawn_moves_iff in H.
    destruct H; cbn [chess.to chess.captured chess.enPassant quiet capture]
      in *; try discriminate;
      repeat match goal with
             | H : vacant _ _ = true |- _ =>
                 unfold vacant in H;
                 destruct (truthy (pos_get (position gs) _)) eqn:?;
                 [discriminate|]; clear H
             end; auto;
      match goal with
      | H : truthy _ = Some _ |- _ => rewrite H
      end; auto.
  - apply sliding_origin in H as (? & ? & ? & ? & ? & ? & _ & _ & _ & H & _).
    exact (Hland _ H).
  - apply stepMoves_origin in H as (? & ? & ? & _ & _ & H). exact (Hland _ H).
  - apply sliding_origin in H as (? & ? & ? & ? & ? & ? & _ & _ & _ & H & _).
    exact (Hland _ H).
  - apply sliding_origin in H as (? & ? & ? & ? & ? & ? & _ & _ & _ & H & _).
    exact (Hland _ H).
  - unfold generateKingMoves in H. apply in_app_iff in H as [H|H].
    + apply stepMoves_origin in H as (? & ? & ? & _ & _ & H). exact (Hland _ H).
    + apply castling_target_vacant in H as Hv. destruct Hv as [Hv _].
      apply castling_origin in H as [side H].
      destruct (castlingRule (color piece) side)
        as [[[[home target] between] corner] flag].
      destruct H as (-> & _). simpl in *.
      unfold vacant in Hv. now destruct (truthy _).
Qed.

(** X5. [isInCheck] depends on the board and the colour asked about
    alone: side to move, castling rights, en-passant target, clocks and
    history of the state do not change its answer. *)
Theorem check_reads_only_the_board (g : GameState) (c a : PieceColor)
    (rights : CastlingRights) (target : option Square) (clock number : Z)
    (history : list Move) :
  unique_keys (position g) = true →
  isInCheck (mkGameState (position g) a rights target clock number history) c
  = isInCheck g c.
Proof.
  intros Hu. symmetry. now apply isInCheck_board.
Qed.

End GeneratorTheorems4.

(** ** The engine: complete boards *)

Section EngineInvariants.
Import ChessBoard MoveGenerator ChessEngine.

Lemma pos_set_keys (p : Position) (k : Square) (v : Slot) :
  In k (map fst p) → map fst (pos_set p k v) = map fst p.
Proof.
  induction p as [|[k' w] p IH]; simpl; [tauto|].
  intros [->|H].
  - now rewrite String.eqb_refl.
  - destruct (String.eqb k' k); simpl; auto. now rewrite IH.
Qed.

Lemma pos_set_defined (p : Position) (k : Square) (v : Slot) :
  Forall (fun e => snd e ≠ Undefined) p → v ≠ Undefined →
  Forall (fun e => snd e ≠ Undefined) (pos_set p k v).
Proof.
  intros H Hv. induction H as [|[k' w] p Hw H IH]; simpl.
  - constructor; auto.
  - destruct (String.eqb k' k); constructor; auto.
Qed.

Lemma pos_get_defined (p : Position) (k : Square) :
  In k (map fst p) → Forall (fun e => snd e ≠ Undefined) p →
  pos_get p k ≠ Undefined.
Proof.
  intros Hin H. induction H as [|[k' w] p Hw H IH]; simpl in *; [tauto|].
  destruct (String.eqb k' k) eqn:E; auto.
  destruct Hin as [->|Hin]; auto. now rewrite String.eqb_refl in E.
Qed.

Lemma fullBoard_pos_set (p : Position) (k : Square) (v : Slot) :
  fullBoard p → isValidSquare k = true → v ≠ Undefined →
  fullBoard (pos_set p k v).
Proof.
  intros [Hk Hd] Hv Hn. split.
  - rewrite pos_set_keys; auto. rewrite Hk. now apply allSquares_spec.
  - now apply pos_set_defined.
Qed.

Lemma fullBoard_get (p : Position) (k : Square) :
  fullBoard p → isValidSquare k = true → pos_get p k ≠ Undefined.
Proof.
  intros [Hk Hd] Hv. apply pos_get_defined; auto.
  rewrite Hk. now apply allSquares_spec.
Qed.

Lemma fullBoard_castleRook (p : Position) side c :
  fullBoard p → fullBoard (castleRook p side c).
Proof.
  intros H. unfold castleRook.
  destruct side, (bool_decide (c = white));
    repeat apply fullBoard_pos_set; auto; try reflexivity;
    try discriminate; now apply fullBoard_get.
Qed.

Lemma capturedPawnSquare_valid (move : Move) :
  isValidSquare (to move) = true →
  isValidSquare (capturedPawnSquare move) = true.
Proof.
  intros H. apply valid_square_shape in H as (f & r & Hf & _ & E).
  unfold capturedPawnSquare, head_plus. rewrite E. simpl in Hf.
  destruct (bool_decide _);
    repeat (destruct Hf as [<-|Hf]; [reflexivity|]); destruct Hf.
Qed.

Lemma fullBoard_nextPosition (g : GameState) (move : Move) :
  fullBoard (position g) →
  isValidSquare (from move) = true → isValidSquare (to move) = true →
  fullBoard (nextPosition g move).
Proof.
  intros H Hf Ht. unfold nextPosition. cbv zeta.
  assert (fullBoard (pos_set (pos_set (position g) (to move)
            match promotion move with
            | Some t => Occupied {| type := t; color := color (piece move) |}
            | None => Occupied (piece move)
            end) (from move) Null)) as H1.
  { repeat apply fullBoard_pos_set; auto; try discriminate.
    destruct (promotion move); discriminate. }
  revert H1. generalize (pos_set (pos_set (position g) (to move)
            match promotion move with
            | Some t => Occupied {| type := t; color := color (piece move) |}
            | None => Occupied (piece move)
            end) (from move) Null) as p.
  intros p H1.
  assert (fullBoard match castling move with
                    | Some side => castleRook p side (color (piece move))
                    | None => p
                    end) as H2.
  { destruct (castling move); auto. now apply fullBoard_castleRook. }
  destruct (enPassant move); auto.
  apply fullBoard_pos_set; auto; try discriminate.
  now apply capturedPawnSquare_valid.
Qed.

Lemma fullBoard_unique (p : Position) : fullBoard p → unique_keys p = true.
Proof.
  intros [Hk _].
  assert (∀ q : Position, NoDup (map fst q) → unique_keys q = true) as Hgen.
  { induction q as [|[k v] q IH]; simpl; auto.
    intros Hnd. apply NoDup_cons in Hnd as [Hnin Hnd].
    rewrite IH by auto. rewrite andb_true_r. apply negb_true_iff.
    destruct (existsb (fun e => String.eqb (fst e) k) q) eqn:E; auto.
    apply existsb_exists in E as [[k' v'] [Hin Heq]]. simpl in Heq.
    apply String.eqb_eq in Heq. subst k'.
    exfalso. apply Hnin. apply list_elem_of_In.
    apply in_map_iff. exists (k, v'). auto. }
  apply Hgen. rewrite Hk. apply (allSquares_spec "a1").
Qed.

(** The squares of a legal move are squares of the board. *)
Lemma legal_move_squares (g : GameState) (m : Move) :
  fullBoard (position g) → In m (generateLegalMoves g) →
  isValidSquare (from m) = true ∧ isValidSquare (to m) = true.
Proof.
  intros [Hk _] Hin. apply List.filter_In in Hin as [Hin _].
  split; [|now apply pseudoLegal_geometry in Hin].
  apply pseudoLegal_iff in Hin as (sq & piece & Hentry & _ & H).
  apply pieceMoves_geometry in H as (-> & _).
  apply allSquares_spec. rewrite <- Hk.
  apply in_map_iff. exists (sq, Occupied piece). auto.
Qed.

Lemma fullBoard_makeMove (this : Engine) (move : Move) :
  fullBoard (position (gameState this)) →
  fullBoard (position (gameState (snd (makeMove this move)))).
Proof.
  intros H. rewrite makeMove_unfold.
  destruct (existsb (sameMove move) (getLegalMoves this)) eqn:E; auto.
  simpl. apply existsb_exists in E as [lm [Hin Hs]].
  apply sameMove_spec in Hs as (Hf & Ht & _).
  destruct (legal_move_squares _ _ H Hin) as [Hvf Hvt].
  apply fullBoard_nextPosition; auto; congruence.
Qed.

Lemma fullBoard_play (this : Engine) (moves : list Move) :
  fullBoard (position (gameState this)) →
  fullBoard (position (gameState (play this moves))).
Proof.
  revert this. induction moves as [|m moves IH]; intros this H; auto.
  unfold play in *. simpl. apply IH. now apply fullBoard_makeMove.
Qed.

Lemma fullBoard_create : fullBoard (position (gameState create)).
Proof.
  split; [reflexivity|].
  apply List.Forall_forall. intros [k v] Hin. vm_compute in Hin.
  repeat (destruct Hin as [[= <- <-]|Hin]; [discriminate|]). destruct Hin.
Qed.

Lemma fullBoard_no_TypeError (this : Engine) :
  fullBoard (position (gameState this)) →
  isInsufficientMaterial this ≠ TypeError ∧ isGameOver this ≠ TypeError.
Proof.
  intros [_ Hd].
  assert (Hi : isInsufficientMaterial this ≠ TypeError).
  { unfold isInsufficientMaterial.
    destruct (Nat.eqb _ 2); [discriminate|].
    destruct (Nat.eqb _ 3); [|discriminate].
    destruct (existsb _ _) eqn:E; [|discriminate].
    apply existsb_exists in E as [s [Hin Hs]].
    apply bool_decide_eq_true in Hs. subst s.
    apply List.filter_In in Hin as [Hin _].
    apply in_map_iff in Hin as [[k v] [Hv Hin]]. simpl in Hv. subst v.
    exfalso. exact (proj1 (List.Forall_forall _ _) Hd _ Hin eq_refl). }
  split; auto. rewrite isGameOver_cases. cbv zeta.
  destruct (getLegalMoves this).
  - destruct (isInCheck _ _); discriminate.
  - destruct (100 <=? _); [discriminate|].
    destruct (Nat.leb 3 _); [discriminate|].
    destruct (isInsufficientMaterial this) as [[]|]; try discriminate.
    contradiction.
Qed.

(** X6. Whatever moves are submitted to a new engine, its board keeps
    the 64 squares as keys, each once and none [undefined]; so
    [isGameOver] never fails on reading a piece. *)
Theorem reachable_boards_are_complete (moves : list Move) :
  let this := play create moves in
  fullBoard (position (gameState this))
  ∧ unique_keys (position (gameState this)) = true
  ∧ isGameOver this ≠ TypeError.
Proof.
  pose proof (fullBoard_play create moves fullBoard_create) as H.
  split; auto. split.
  - now apply fullBoard_unique.
  - now apply fullBoard_no_TypeError.
Qed.

End EngineInvariants.

(** ** The engine: counters and histories *)

Section EngineBookkeeping.
Import ChessBoard MoveGenerator ChessEngine.

Lemma counts_step (this : Engine) (move : Move) (n : nat) :
  counts this n → fst (makeMove this move) = true →
  counts (snd (makeMove this move)) (S n).
Proof.
  unfold counts. rewrite makeMove_unfold.
  destruct (existsb _ _); [|discriminate].
  intros (Hh & Hc & Hf & Hk) _. cbn [snd gameState moveHistory pushMove
    applyMove activeColor fullmoveNumber halfmoveClock].
  rewrite length_app, Hh. cbn [length].
  rewrite Nat.even_succ, <- Nat.negb_even.
  unfold nextFullmoveNumber, nextHalfmoveClock. rewrite Hc, Hf.
  assert (Z.of_nat (S n) / 2
          = if Nat.even n then Z.of_nat n / 2 else Z.of_nat n / 2 + 1) as E.
  { destruct (Nat.even n) eqn:Ev.
    - apply Nat.even_spec in Ev as [k ->].
      replace (Z.of_nat (S (2 * k))) with (1 + Z.of_nat k * 2) by lia.
      replace (Z.of_nat (2 * k)) with (Z.of_nat k * 2) by lia.
      rewrite Z.div_add, Z.div_mul by lia. reflexivity.
    - assert (Nat.odd n = true) as Ho by now rewrite <- Nat.negb_even, Ev.
      apply Nat.odd_spec in Ho as [k ->].
      replace (Z.of_nat (S (2 * k + 1))) with ((Z.of_nat k + 1) * 2) by lia.
      replace (Z.of_nat (2 * k + 1)) with (1 + Z.of_nat k * 2) by lia.
      rewrite Z.div_add, Z.div_mul by lia. reflexivity. }
  rewrite E. split; [lia|].
  destruct (Nat.even n); cbn [negb opponent]; (split; [reflexivity|]).
  - rewrite bool_decide_eq_false_2 by discriminate.
    split; [reflexivity|]. destruct (_ || _); lia.
  - rewrite bool_decide_eq_true_2 by reflexivity.
    split; [lia|]. destruct (_ || _); lia.
Qed.

Lemma play_cons (this : Engine) (m : Move) (moves : list Move) :
  play this (m :: moves) = play (snd (makeMove this m)) moves.
Proof. reflexivity. Qed.

Lemma acceptedMoves_cons (this : Engine) (m : Move) (moves : list Move) :
  acceptedMoves this (m :: moves)
  = if fst (makeMove this m)
    then m :: acceptedMoves (snd (makeMove this m)) moves
    else acceptedMoves (snd (makeMove this m)) moves.
Proof. simpl. now destruct (makeMove this m) as [[] e]. Qed.

Lemma rejected_same (this : Engine) (m : Move) :
  fst (makeMove this m) = false → snd (makeMove this m) = this.
Proof.
  rewrite makeMove_unfold. now destruct (existsb _ _).
Qed.

Lemma counts_play (this : Engine) (moves : list Move) (n : nat) :
  counts this n →
  counts (play this moves) (n + length (acceptedMoves this moves)).
Proof.
  revert this n. induction moves as [|m moves IH]; intros this n H.
  - simpl. now rewrite Nat.add_0_r.
  - rewrite play_cons, acceptedMoves_cons.
    destruct (fst (makeMove this m)) eqn:E.
    + cbn [length]. rewrite <- Nat.add_succ_comm. apply IH.
      now apply counts_step.
    + rewrite (rejected_same _ _ E). now apply IH.
Qed.

Lemma history_play (this : Engine) (moves : list Move) :
  chess.moveHistory (gameState (play this moves))
  = chess.moveHistory (gameState this) ++ acceptedMoves this moves.
Proof.
  revert this. induction moves as [|m moves IH]; intros this.
  - simpl. now rewrite app_nil_r.
  - rewrite play_cons, acceptedMoves_cons, IH.
    rewrite makeMove_unfold. destruct (existsb _ _); [|reflexivity].
    cbn [fst snd gameState pushMove chess.moveHistory applyMove].
    now rewrite <- app_assoc.
Qed.

(** X7. After any sequence of submitted moves, of which [n] were
    accepted, a new engine has exactly the accepted moves in its state's
    [moveHistory], [n] strings in its own history, White to move exactly
    when [n] is even, move number [1 + n / 2], and a half-move clock
    between 0 and [n]. *)
Theorem engine_counters_follow_the_accepted_moves (moves : list Move) :
  let this := play create moves in
  let played := acceptedMoves create moves in
  let n := length played in
  chess.moveHistory (gameState this) = played
  ∧ length (moveHistory this) = n
  ∧ activeColor (gameState this) = (if Nat.even n then white else black)
  ∧ fullmoveNumber (gameState this) = 1 + Z.of_nat n / 2
  ∧ 0 <= halfmoveClock (gameState this) <= Z.of_nat n.
Proof.
  cbv zeta. split; [apply (history_play create)|].
  apply (counts_play create moves 0). unfold counts. simpl.
  repeat split; lia.
Qed.

End EngineBookkeeping.

(** ** The engine: the en-passant target *)

Section EnPassantTarget.
Import ChessBoard MoveGenerator ChessEngine.

Lemma valid_square_inj (a b : Square) :
  isValidSquare a = true → isValidSquare b = true →
  squareToCoordinates a = squareToCoordinates b → a = b.
Proof.
  intros Ha Hb E.
  apply valid_square_coordinates in Ha as (_ & _ & Ha).
  apply valid_square_coordinates in Hb as (_ & _ & Hb).
  rewrite E in Ha. congruence.
Qed.

Lemma landing (file rank : Z) (sq : Square) :
  coordinatesToSquare file rank = Some sq →
  isValidSquare sq = true ∧ squareToCoordinates sq = (file, rank).
Proof.
  intros H. pose proof (coordinatesToSquare_spec file rank) as S.
  rewrite H in S. tauto.
Qed.

Lemma enPassantTarget_pawn (gs : GameState) (from : Square) (piece : Piece)
    (m : Move) :
  isValidSquare from = true → type piece = pawn →
  PawnMove gs from piece (fst (squareToCoordinates from))
           (snd (squareToCoordinates from)) m →
  match nextEnPassantTarget m with
  | Some sq => snd (displacement m) = 2 * forward (chess.piece m)
               ∧ getSquaresBetween 8 (chess.from m) (to m) = Some [sq]
  | None => Z.abs (snd (displacement m)) = 1
  end.
Proof.
  intros Hv Hp H. unfold nextEnPassantTarget, displacement.
  pose proof (rank_char _ Hv) as Hr.
  destruct H as [sq H1 _ _|sq t H1 _ _ _|sq1 sq2 _ _ _ Hs H1 _
                |off sq tg _ H1 _ _ _|off sq tg t _ H1 _ _ _ _
                |off sq sqp cp _ H1 _ _ _];
    apply landing in H1 as [Hvt Hc];
    cbn [chess.from chess.to chess.piece quiet capture];
    rewrite Hp, bool_decide_eq_true_2 by reflexivity;
    rewrite Hr, (rank_char _ Hvt), Hc; cbn [fst snd];
    unfold forward in *;
    try (destruct (bool_decide (color piece = white));
         match goal with
         | |- context [Z.abs ?a =? 2] =>
             replace (Z.abs a =? 2) with false by (symmetry; apply Z.eqb_neq; lia)
         end; lia).
  (* the double push *)
  match goal with
  | |- context [Z.abs ?a =? 2] =>
      replace (Z.abs a =? 2) with true
        by (symmetry; apply Z.eqb_eq;
            destruct (bool_decide (color piece = white)); lia)
  end.
  split; [lia|].
  destruct (squares_between_explicit from sq2 8 Hv Hvt) as (l & -> & Hlen & Hl).
  { unfold aligned. rewrite Hc.
    destruct (squareToCoordinates from). simpl. auto. }
  { lia. }
  rewrite Hc in Hlen, Hl. cbn [fst snd] in Hlen, Hl.
  destruct l as [|x [|y l]]; cbn [length] in Hlen;
    [destruct (bool_decide (color piece = white)); lia| |
     destruct (bool_decide (color piece = white)); lia].
  destruct (Hl 0%nat x eq_refl) as [Hvx Hcx].
  destruct (skipped_square from (color piece) Hv) as [Hvn Hcn].
  f_equal. f_equal. apply valid_square_inj; auto.
  rewrite Hcx, Hcn. unfold startRankOf in Hs. f_equal.
  - lia.
  - destruct (bool_decide (color piece = white)); rewrite Hs;
      reflexivity.
Qed.

(** X8. Applying a legal move sets the en-passant target exactly after
    a pawn's double step, and then to the one square
    [getSquaresBetween] finds between its two squares; after any other
    pawn move the target is cleared and the pawn went one rank. *)
Theorem en_passant_target_is_the_skipped_square (gs : GameState) (m : Move) :
  fullBoard (position gs) → In m (generateLegalMoves gs) →
  match enPassantTarget (applyMove gs m) with
  | Some sq => type (piece m) = pawn
               ∧ snd (displacement m) = 2 * forward (piece m)
               ∧ getSquaresBetween 8 (from m) (to m) = Some [sq]
  | None => type (piece m) = pawn → Z.abs (snd (displacement m)) = 1
  end.
Proof.
  intros [Hk _] Hin. apply List.filter_In in Hin as [Hin _].
  apply pseudoLegal_iff in Hin as (sq & piece & Hentry & _ & H).
  assert (isValidSquare sq = true) as Hv.
  { apply allSquares_spec. rewrite <- Hk.
    apply in_map_iff. exists (sq, Occupied piece). auto. }
  cbn [applyMove enPassantTarget].
  destruct (decide (type piece = pawn)) as [Hp|Hp].
  - unfold generatePieceMoves in H. rewrite Hp in H.
    apply pawn_moves_iff in H.
    pose proof (pawnMove_fields _ _ _ _ _ _ H) as (_ & E & _).
    pose proof (enPassantTarget_pawn gs sq piece m Hv Hp H) as G.
    destruct (nextEnPassantTarget m); [|auto].
    split; [congruence|exact G].
  - apply pieceMoves_geometry in H as (_ & E & _).
    unfold nextEnPassantTarget. rewrite E.
    rewrite bool_decide_eq_false_2 by auto. congruence.
Qed.

Lemma en_passant_target_is_the_skipped_square_witness :
  type (piece Scenario.e2e4) = pawn
  ∧ snd (displacement Scenario.e2e4) = 2 * forward (piece Scenario.e2e4)
  ∧ getSquaresBetween 8 "e2" "e4" = Some ["e3"].
Proof.
  apply (en_passant_target_is_the_skipped_square createInitialGameState
           Scenario.e2e4).
  - apply fullBoard_create.
  - vm_compute. tauto.
Defined.

End EnPassantTarget.

(** ** The engine: reading the placement string back *)

Section Placement.
Import ChessBoard MoveGenerator ChessEngine.

Lemma readPlacement_app (a b : string) :
  readPlacement (a +:+ b) = readPlacement a ++ readPlacement b.
Proof.
  induction a as [|c a IH]; [reflexivity|].
  simpl. rewrite IH.
  destruct (Ascii.eqb c "/"); [reflexivity|].
  destruct (_ && _)%bool; [|reflexivity]. now rewrite app_assoc.
Qed.

Lemma readPlacement_count (k : nat) :
  (k ≤ 8)%nat →
  readPlacement (if Nat.ltb 0 k then digit k else "") = repeat None k.
Proof.
  intros H. do 9 (destruct k as [|k]; [reflexivity|]). lia.
Qed.

Lemma readPlacement_letter (p : Piece) (s : string) :
  readPlacement (String (letter p) s) = Some (letter p) :: readPlacement s.
Proof. destruct p as [[] []]; reflexivity. Qed.

Lemma letter_inj (p q : Piece) : letter p = letter q → p = q.
Proof. destruct p as [[] []], q as [[] []]; vm_compute; congruence. Qed.

Lemma readPlacement_rank (position : Position) (rank : Z) (files : list Z)
    (k : nat) :
  (k + length files ≤ 8)%nat →
  readPlacement (fenRank position rank files k)
  = repeat None k
    ++ map (fun file => option_map letter (occupant position file rank)) files.
Proof.
  revert k. induction files as [|file files IH]; intros k Hk;
    cbn [fenRank map length] in *.
  - rewrite app_nil_r. apply readPlacement_count. lia.
  - fold (occupant position file rank).
    destruct (occupant position file rank) as [p|]; cbn [option_map].
    + rewrite readPlacement_app, readPlacement_count by lia.
      fold (letter p). rewrite readPlacement_letter, IH by lia. reflexivity.
    + rewrite IH by lia. cbn [repeat]. now rewrite repeat_cons, <- app_assoc.
Qed.

Lemma readPlacement_fenOf (position : Position) :
  readPlacement (fenOf position)
  = flat_map (fun rank =>
                map (fun file => option_map letter (occupant position file rank))
                    [0; 1; 2; 3; 4; 5; 6; 7])
             [7; 6; 5; 4; 3; 2; 1; 0].
Proof.
  unfold fenOf. cbn [fold_right flat_map].
  rewrite !readPlacement_app, !readPlacement_rank by (simpl; lia).
  cbn [repeat Z.ltb Z.compare readPlacement]. simpl app. reflexivity.
Qed.

Lemma fenRank_ext (p q : Position) (rank : Z) (files : list Z) (k : nat) :
  (∀ file, In file files → occupant p file rank = occupant q file rank) →
  fenRank p rank files k = fenRank q rank files k.
Proof.
  revert k. induction files as [|file files IH]; intros k H; [reflexivity|].
  cbn [fenRank]. fold (occupant p file rank) (occupant q file rank).
  rewrite (H file) by now left.
  destruct (occupant q file rank); rewrite IH; auto; intros; apply H;
    now right.
Qed.

(** X9. Two boards get the same string from [positionToFEN] exactly
    when they have the same piece, or none, on each of the 64 squares. *)
Theorem placement_string_determines_the_board (p q : Position) :
  fenOf p = fenOf q
  ↔ ∀ sq, isValidSquare sq = true →
          truthy (pos_get p sq) = truthy (pos_get q sq).
Proof.
  split.
  - intros E sq Hv.
    apply (f_equal readPlacement) in E. rewrite !readPlacement_fenOf in E.
    apply valid_square_coordinates in Hv as (Hf & Hr & Hsq).
    assert (occupant p (fst (squareToCoordinates sq))
                     (snd (squareToCoordinates sq))
            = occupant q (fst (squareToCoordinates sq))
                       (snd (squareToCoordinates sq))) as Ho.
    { cbn [flat_map map app] in E.
      assert (∀ a b : option Piece,
                option_map letter a = option_map letter b → a = b) as Hinj.
      { intros [a|] [b|] [=]; auto. f_equal. now apply letter_inj. }
      generalize dependent (fst (squareToCoordinates sq)). intros f Hf _.
      generalize dependent (snd (squareToCoordinates sq)). intros r Hr.
      injection E as
        E00 E01 E02 E03 E04 E05 E06 E07 E08 E09 E10 E11 E12 E13 E14 E15
        E16 E17 E18 E19 E20 E21 E22 E23 E24 E25 E26 E27 E28 E29 E30 E31
        E32 E33 E34 E35 E36 E37 E38 E39 E40 E41 E42 E43 E44 E45 E46 E47
        E48 E49 E50 E51 E52 E53 E54 E55 E56 E57 E58 E59 E60 E61 E62 E63.
      assert (f = 0 ∨ f = 1 ∨ f = 2 ∨ f = 3 ∨ f = 4 ∨ f = 5 ∨ f = 6 ∨ f = 7)
        as Hfc by lia.
      assert (r = 0 ∨ r = 1 ∨ r = 2 ∨ r = 3 ∨ r = 4 ∨ r = 5 ∨ r = 6 ∨ r = 7)
        as Hrc by lia.
      repeat destruct Hfc as [->|Hfc]; try subst f;
        repeat destruct Hrc as [->|Hrc]; try subst r;
        apply Hinj; assumption. }
    unfold occupant in Ho. now rewrite Hsq in Ho.
  - intros H. unfold fenOf. cbn [fold_right].
    assert (∀ rank, 0 ≤ rank ≤ 7 →
              fenRank p rank [0; 1; 2; 3; 4; 5; 6; 7] 0
              = fenRank q rank [0; 1; 2; 3; 4; 5; 6; 7] 0) as Hr.
    { intros rank Hrank. apply fenRank_ext. intros file Hfile.
      unfold occupant.
      pose proof (coordinatesToSquare_spec file rank) as S.
      destruct (coordinatesToSquare file rank); [|reflexivity].
      apply H. tauto. }
    rewrite !Hr by lia. reflexivity.
Qed.

End Placement.

(** ** Snapshots and reset, on references *)

Section HeapFrames.
Import EngineHeap.

Lemma makeMove_heap_step (h : list Obj) (this : Engine) (move : Move)
    (v : GameState) :
  load h (gameState this) = Some v →
  ∃ ok next h',
    makeMove h this move = Some (ok, next, h')
    ∧ load h' (gameState next)
      = Some (ChessEngine.gameState
                (snd (ChessEngine.makeMove (valueOf v this) move)))
    ∧ fenHistory next
      = ChessEngine.moveHistory
          (snd (ChessEngine.makeMove (valueOf v this) move))
    ∧ moveHistory (gameState next) = moveHistory (gameState this)
    ∧ (∀ l o, h !! l = Some o → l ≠ moveHistory (gameState this) →
              h' !! l = Some o).
Proof.
  intros Hload.
  destruct (heap_makeMove_refines h this move v Hload)
    as (ok & next & h' & Hm & Hok & Hl & Hf).
  exists ok, next, h'. repeat split; auto.
  all: rewrite (makeMove_unfold_heap _ _ _ _ Hload) in Hm.
  all: destruct (existsb _ _); injection Hm as <- <- <-; auto.
  intros l o Ho Hne. now apply lookup_heapAfter_old.
Qed.

Lemma load_frame (h h' : list Obj) (s : GameStateObj) (v : GameState)
    (l : loc) :
  load h s = Some v → l ≠ moveHistory s →
  (∃ ms, h !! l = Some (MovesObj ms)) →
  (∀ l' o, h !! l' = Some o → l' ≠ l → h' !! l' = Some o) →
  load h' s = Some v.
Proof.
  intros Hs Hne [ms Hms] Hframe.
  destruct (load_inv _ _ _ Hs) as (p & r & hs & Hp & Hr & Hl & ->).
  apply load_intro; apply Hframe; auto; congruence.
Qed.

Lemma load_shared (h h' : list Obj) (s : GameStateObj) (v : GameState)
    (ms : list Move) :
  load h s = Some v →
  (∀ l' o, h !! l' = Some o → l' ≠ moveHistory s → h' !! l' = Some o) →
  h' !! moveHistory s = Some (MovesObj ms) →
  load h' s = Some (withHistory v ms).
Proof.
  intros Hs Hframe Hms.
  destruct (load_inv _ _ _ Hs) as (p & r & hs & Hp & Hr & Hl & ->).
  apply load_intro; auto; apply Hframe; auto; congruence.
Qed.

Lemma playOnHeap_refines (moves : list Move) :
  ∀ (h : list Obj) (this : Engine) (v : GameState),
  load h (gameState this) = Some v →
  ∃ next h',
    playOnHeap h this moves = Some (next, h')
    ∧ load h' (gameState next)
      = Some (ChessEngine.gameState (ChessEngine.play (valueOf v this) moves))
    ∧ fenHistory next
      = ChessEngine.moveHistory (ChessEngine.play (valueOf v this) moves)
    ∧ moveHistory (gameState next) = moveHistory (gameState this)
    ∧ (∀ l o, h !! l = Some o → l ≠ moveHistory (gameState this) →
              h' !! l = Some o).
Proof.
  induction moves as [|m moves IH]; intros h this v Hload.
  - exists this, h. simpl. auto.
  - destruct (makeMove_heap_step h this m v Hload)
      as (ok & mid & h1 & Hm & Hl1 & Hf1 & Hloc1 & Hfr1).
    destruct (IH h1 mid _ Hl1) as (next & h' & Hp & Hl & Hf & Hloc & Hfr).
    exists next, h'. cbn [playOnHeap]. rewrite Hm.
    assert (valueOf
              (ChessEngine.gameState
                 (snd (ChessEngine.makeMove (valueOf v this) m))) mid
            = snd (ChessEngine.makeMove (valueOf v this) m)) as E.
    { unfold valueOf at 1. rewrite Hf1.
      now destruct (snd (ChessEngine.makeMove (valueOf v this) m)). }
    rewrite E in Hl, Hf. rewrite play_cons.
    repeat split; auto; [congruence|].
    intros l o Ho Hne. apply Hfr; [|congruence]. now apply Hfr1.
Qed.

(** X10. A snapshot taken with [getGameState] keeps its board, side to
    move, castling rights, en-passant target and clocks whatever moves
    are submitted afterwards; only its [moveHistory] changes, and grows
    by exactly the moves the engine accepts. *)
Theorem snapshot_changes_only_in_its_move_history (h : list Obj)
    (this : Engine) (v : GameState) (moves : list Move) :
  load h (getGameState this) = Some v →
  ∃ next h',
    playOnHeap h this moves = Some (next, h')
    ∧ load h' (getGameState this)
      = Some (withHistory v (chess.moveHistory v
                             ++ acceptedMoves (valueOf v this) moves)).
Proof.
  rewrite getGameState_fields. intros Hload.
  destruct (playOnHeap_refines moves h this v Hload)
    as (next & h' & Hp & Hl & _ & Hloc & Hfr).
  exists next, h'. split; auto.
  destruct (load_inv _ _ _ Hl) as (p & r & ms & _ & _ & Hms & Hv).
  apply (f_equal chess.moveHistory) in Hv. rewrite history_play in Hv.
  cbn [chess.moveHistory valueOf ChessEngine.gameState] in Hv.
  rewrite Hv. apply (load_shared h); auto; congruence.
Qed.

(** X11. After [reset] the engine plays on from the initial position
    with objects of its own: states obtained before the reset, history
    included, are not changed by any move submitted afterwards. *)
Theorem reset_ends_the_sharing (h : list Obj) (this : Engine)
    (s : GameStateObj) (v : GameState) (moves : list Move) :
  load h s = Some v →
  ∃ next h',
    playOnHeap (snd (reset h this)) (fst (reset h this)) moves
    = Some (next, h')
    ∧ load h' s = Some v
    ∧ load h' (gameState next)
      = Some (ChessEngine.gameState
                (ChessEngine.play ChessEngine.create moves)).
Proof.
  intros Hs.
  set (h0 := snd (reset h this)). set (e0 := fst (reset h this)).
  assert (h0 = h ++ [PositionObj ChessBoard.createInitialPosition;
                     RightsObj (mkCastlingRights true true true true);
                     MovesObj []]) as Hh0.
  { subst h0. unfold reset, createInitialGameState, alloc. cbn [snd].
    now rewrite <- !app_assoc. }
  assert (gameState e0
          = mkGameStateObj (length h) white (S (length h)) None 0 1
                           (S (S (length h)))) as He0.
  { subst e0. unfold reset, createInitialGameState, alloc. cbn [fst gameState].
    f_equal; rewrite ?length_app; simpl; lia. }
  assert (fenHistory e0 = []) as Hf0 by reflexivity.
  assert (load h0 (gameState e0) = Some ChessEngine.createInitialGameState)
    as Hl0.
  { rewrite He0, Hh0. unfold load. cbn [position castlingRights moveHistory].
    rewrite !lookup_app_r by lia.
    replace (length h - length h)%nat with 0%nat by lia.
    replace (S (length h) - length h)%nat with 1%nat by lia.
    replace (S (S (length h)) - length h)%nat with 2%nat by lia.
    reflexivity. }
  destruct (playOnHeap_refines moves h0 e0 _ Hl0)
    as (next & h' & Hp & Hl & _ & Hloc & Hfr).
  exists next, h'. split; [exact Hp|]. split.
  - apply (load_frame h0 h' s v (moveHistory (gameState e0))).
    + destruct (load_inv _ _ _ Hs) as (p & r & ms & H1 & H2 & H3 & ->).
      rewrite Hh0. apply load_intro; now apply lookup_app_l_Some.
    + destruct (load_inv _ _ _ Hs) as (p & r & ms & _ & _ & H3 & _).
      apply lookup_lt_Some in H3. rewrite He0. cbn [moveHistory]. lia.
    + destruct (load_inv _ _ _ Hl0) as (p & r & ms & _ & _ & H3 & _).
      eauto.
    + exact Hfr.
  - rewrite Hl. unfold valueOf. rewrite Hf0. reflexivity.
Qed.

End HeapFrames.

(** ** The search: what a call keeps *)

Section SearchFacts.
Import JSNum ChessAI.

Lemma minimax_succ (this : AI) (gameState : GameState) (depth' : nat)
    (alpha beta : num) (isMaximizing : bool) (ply : nat) :
  minimax this gameState (S depth') alpha beta isMaximizing ply
  = let positionKey := getPositionKey gameState in
    match ttHit this positionKey (S depth') with
    | Some ttEntry => (this, mkResult (tt_score ttEntry) (tt_move ttEntry))
    | None =>
        let moves :=
          orderMoves this (MoveGenerator.generateLegalMoves gameState) ply in
        if Nat.eqb (length moves) 0 then
          if MoveGenerator.isInCheck gameState (activeColor gameState) then
            (this, mkResult (if isMaximizing
                             then Fin (-10000 + Z.of_nat ply)
                             else Fin (10000 - Z.of_nat ply)) None)
          else (this, mkResult (Fin 0) None)
        else
          let '(this, bestScore, bestMove) :=
            minimaxLoop
              (fun this g a b =>
                 minimax this g depth' a b (negb isMaximizing) (S ply))
              gameState isMaximizing ply moves this alpha beta
              (if isMaximizing then NegInf else PosInf) None in
          (storeEntry this positionKey (mkTTEntry bestScore (S depth') bestMove),
           mkResult bestScore bestMove)
    end.
Proof. reflexivity. Qed.

Lemma minimax_zero (this : AI) (gameState : GameState)
    (alpha beta : num) (isMaximizing : bool) (ply : nat) :
  minimax this gameState 0 alpha beta isMaximizing ply
  = match ttHit this (getPositionKey gameState) 0 with
    | Some ttEntry => (this, mkResult (tt_score ttEntry) (tt_move ttEntry))
    | None =>
        (this, mkResult (quiescenceSearch gameState alpha beta isMaximizing 0)
                        None)
    end.
Proof. reflexivity. Qed.

(** A property of the searcher that [storeKiller] keeps, and that
    [storeEntry] keeps for results of depth at most [bound], holds after a
    search of depth at most [bound]. *)
Section Preservation.
Variable P : AI → Prop.
Variable bound : nat.
Hypothesis P_killer : ∀ this m ply, P this → P (storeKiller this m ply).
Hypothesis P_entry :
  ∀ this key e, P this → (tt_depth e ≤ bound)%nat → P (storeEntry this key e).

Lemma minimaxLoop_preserves recur gs isMax ply :
  (∀ this g a b, P this → P (fst (recur this g a b))) →
  ∀ moves this alpha beta bestScore bestMove,
    P this →
    P (fst (fst (minimaxLoop recur gs isMax ply moves this alpha beta
                             bestScore bestMove))).
Proof.
  intros Hrec. induction moves as [|m moves IH]; intros this a b bs bm HP;
    [exact HP|].
  cbn [minimaxLoop].
  pose proof (Hrec this (makeMove gs m) a b HP) as H1.
  destruct (recur this (makeMove gs m) a b) as [this1 result].
  cbn [fst] in H1. cbv zeta.
  destruct (leb _ _); [cbn [fst]; now apply P_killer|].
  now apply IH.
Qed.

Lemma minimax_preserves (depth : nat) :
  (depth ≤ bound)%nat →
  ∀ this gs alpha beta isMax ply,
    P this → P (fst (minimax this gs depth alpha beta isMax ply)).
Proof.
  induction depth as [|d IH]; intros Hd this gs a b isMax ply HP.
  - rewrite minimax_zero. now destruct (ttHit _ _ _).
  - rewrite minimax_succ. cbv zeta.
    destruct (ttHit _ _ _); [exact HP|].
    destruct (Nat.eqb _ 0).
    { now destruct (MoveGenerator.isInCheck _ _). }
    pose proof (minimaxLoop_preserves
                  (fun this g a b => minimax this g d a b (negb isMax) (S ply))
                  gs isMax ply
                  (fun this g a b HP => IH ltac:(lia) this g a b _ _ HP)
                  (orderMoves this (MoveGenerator.generateLegalMoves gs) ply)
                  this a b (if isMax then NegInf else PosInf) None HP) as H.
    destruct (minimaxLoop _ _ _ _ _ _ _ _ _ _) as [[this1 bs] bm].
    cbn [fst] in *. now apply P_entry.
Qed.

End Preservation.

Lemma iterativeDeepening_preserves (P : AI → Prop) :
  (∀ this m ply, P this → P (storeKiller this m ply)) →
  (∀ this key e, P this → P (storeEntry this key e)) →
  ∀ now startTime gs remaining depth this bestMove bestScore,
    P this →
    P (fst (iterativeDeepening now startTime this gs remaining depth
                               bestMove bestScore)).
Proof.
  intros Hk He now startTime gs.
  induction remaining as [|r IH]; intros depth this bm bs HP; [exact HP|].
  cbn [iterativeDeepening].
  destruct (_ <? _); [exact HP|].
  pose proof (minimax_preserves P depth Hk (fun t k e H _ => He t k e H)
                depth (le_n _) this gs NegInf PosInf true 0%nat HP) as H.
  destruct (minimax this gs depth NegInf PosInf true 0) as [this1 result].
  cbn [fst] in H. cbv zeta.
  destruct (gtb _ _); [exact H|]. now apply IH.
Qed.

Lemma storeKiller_shape (this : AI) (m : Move) (ply : nat) :
  killersInShape this → killersInShape (storeKiller this m ply).
Proof.
  unfold killersInShape, storeKiller. intros H.
  destruct (present (captured m)) eqn:Hc; [exact H|]. cbn [negb andb].
  destruct (Nat.ltb _ _); [|exact H]. cbn [killerMoves].
  apply Forall_insert; [exact H|].
  assert (captured m = None) as Hm by now destruct (captured m).
  assert ((length (nth ply (killerMoves this) []) ≤ 2)%nat
          ∧ Forall (fun m => captured m = None)
                   (nth ply (killerMoves this) [])) as [Hl Hf].
  { destruct (nth_in_or_default ply (killerMoves this) []) as [Hin| ->].
    - exact (proj1 (List.Forall_forall _ _) H _ Hin).
    - split; [simpl; lia|constructor]. }
  split.
  - rewrite length_take. apply Nat.le_min_l.
  - apply Forall_take. now constructor.
Qed.

(** X12. A call of [getBestMove] leaves the configuration and the
    history table of the searcher as they were (nothing ever writes the
    history table) and keeps the number of killer lists; killer lists
    that held at most two moves each, none of them a capture, still do. *)
Theorem search_leaves_configuration_and_history_table (now : nat → Z)
    (this : AI) (gameState : GameState) :
  let after := fst (getBestMove now this gameState) in
  config after = config this
  ∧ historyTable after = historyTable this
  ∧ length (killerMoves after) = length (killerMoves this)
  ∧ (killersInShape this → killersInShape after).
Proof.
  cbv zeta. unfold getBestMove.
  repeat split.
  - apply (iterativeDeepening_preserves (fun t => config t = config this));
      auto; intros t m ply H; unfold storeKiller;
      now destruct (_ && _).
  - apply (iterativeDeepening_preserves
             (fun t => historyTable t = historyTable this));
      auto; intros t m ply H; unfold storeKiller;
      now destruct (_ && _).
  - apply (iterativeDeepening_preserves
             (fun t => length (killerMoves t) = length (killerMoves this)));
      auto; intros t m ply H; unfold storeKiller;
      destruct (_ && _); auto; cbn [killerMoves];
      now rewrite length_insert.
  - intros H.
    apply (iterativeDeepening_preserves killersInShape); auto.
    apply storeKiller_shape.
Qed.

End SearchFacts.

(** ** The search: what a new searcher returns *)

Section FreshSearch.
Import JSNum ChessAI.

Lemma insertByScore_perm (f : Move → Z) (x : Move) (l : list Move) :
  Permutation (insertByScore f x l) (x :: l).
Proof.
  induction l as [|y l IH]; [reflexivity|]. cbn [insertByScore].
  destruct (f x <? f y); [|reflexivity].
  rewrite IH. apply perm_swap.
Qed.

Lemma sortByScore_perm (f : Move → Z) (l : list Move) :
  Permutation (sortByScore f l) l.
Proof.
  induction l as [|x l IH]; [reflexivity|].
  cbn [sortByScore fold_right]. fold (sortByScore f l).
  rewrite insertByScore_perm. now constructor.
Qed.

Lemma minimaxLoop_move recur gs isMax ply :
  ∀ moves this alpha beta bestScore bestMove,
    let r := minimaxLoop recur gs isMax ply moves this alpha beta
                         bestScore bestMove in
    snd r = bestMove ∨ ∃ m, snd r = Some m ∧ In m moves.
Proof.
  induction moves as [|x moves IH]; intros this a b bs bm; [now left|].
  cbn [minimaxLoop]. destruct (recur this (makeMove gs x) a b) as [t result].
  cbv zeta.
  set (better := if isMax then gtb (score result) bs else ltb (score result) bs).
  destruct (leb _ _).
  - cbn [snd]. destruct better; [right; exists x; simpl; auto|now left].
  - match goal with
    | |- context [minimaxLoop _ _ _ _ moves t ?a' ?b' ?bs' ?bm'] =>
        destruct (IH t a' b' bs' bm') as [E|(m & E & Hin)]
    end.
    + cbv zeta in E. rewrite E.
      destruct better; [right; exists x; simpl; auto|now left].
    + right. exists m. simpl. auto.
Qed.

Lemma minimax_root_move (this : AI) (gs : GameState) (depth : nat)
    (alpha beta : num) (isMax : bool) (ply : nat) :
  ttHit this (getPositionKey gs) depth = None →
  match move (snd (minimax this gs depth alpha beta isMax ply)) with
  | Some m => In m (MoveGenerator.generateLegalMoves gs)
  | None => True
  end.
Proof.
  intros Hmiss. destruct depth as [|d].
  - rewrite minimax_zero, Hmiss. exact I.
  - rewrite minimax_succ. cbv zeta. rewrite Hmiss.
    destruct (Nat.eqb _ 0).
    { now destruct (MoveGenerator.isInCheck _ _). }
    pose proof (minimaxLoop_move
                  (fun this g a b => minimax this g d a b (negb isMax) (S ply))
                  gs isMax ply
                  (orderMoves this (MoveGenerator.generateLegalMoves gs) ply)
                  this alpha beta (if isMax then NegInf else PosInf) None) as H.
    cbv zeta in H.
    destruct (minimaxLoop _ _ _ _ _ _ _ _ _ _) as [[t bs] bm].
    cbn [snd move] in *.
    destruct H as [->|(m & -> & Hin)]; [exact I|].
    unfold orderMoves in Hin.
    eapply Permutation_in; [apply sortByScore_perm|exact Hin].
Qed.

Lemma ttHit_miss (this : AI) (key : string) (bound depth : nat) :
  depthsBelow bound this → (bound < depth)%nat → ttHit this key depth = None.
Proof.
  intros H Hlt. unfold ttHit.
  destruct (transpositionTable this !! key) as [e|] eqn:E; [|reflexivity].
  apply H in E. destruct (Nat.leb_spec depth (tt_depth e)); [lia|reflexivity].
Qed.

Lemma minimax_depthsBelow (bound depth : nat) this gs alpha beta isMax ply :
  (depth ≤ bound)%nat → depthsBelow bound this →
  depthsBelow bound (fst (minimax this gs depth alpha beta isMax ply)).
Proof.
  intros Hd. apply (minimax_preserves (depthsBelow bound) bound); auto.
  - intros t m p H. unfold storeKiller. now destruct (_ && _).
  - intros t key e H He k e'. unfold storeEntry. cbn [transpositionTable].
    destruct (decide (k = key)) as [->|Hne].
    + rewrite lookup_insert_eq. now intros [= <-].
    + rewrite lookup_insert_ne by auto. apply H.
Qed.

Lemma iterativeDeepening_legal (now : nat → Z) (startTime : Z)
    (gs : GameState) :
  ∀ remaining depth this bestMove bestScore,
    (1 ≤ depth)%nat → depthsBelow (depth - 1) this →
    match bestMove with
    | Some m => In m (MoveGenerator.generateLegalMoves gs)
    | None => True
    end →
    match snd (iterativeDeepening now startTime this gs remaining depth
                                  bestMove bestScore) with
    | Some m => In m (MoveGenerator.generateLegalMoves gs)
    | None => True
    end.
Proof.
  induction remaining as [|r IH]; intros depth this bm bs Hd Htt Hbm;
    [exact Hbm|].
  cbn [iterativeDeepening].
  destruct (_ <? _); [exact Hbm|].
  pose proof (minimax_root_move this gs depth NegInf PosInf true 0%nat
                (ttHit_miss this _ (depth - 1) depth Htt ltac:(lia))) as Hroot.
  assert (depthsBelow depth this) as Htt'.
  { intros k e E. apply Htt in E. lia. }
  pose proof (minimax_depthsBelow depth depth this gs NegInf PosInf true 0%nat
                (le_n _) Htt') as Hnext.
  destruct (minimax this gs depth NegInf PosInf true 0) as [t result].
  cbn [fst snd] in *. cbv zeta.
  assert (match (if present (move result) then move result else bm) with
          | Some m => In m (MoveGenerator.generateLegalMoves gs)
          | None => True
          end) as Hbm'.
  { destruct (move result); [exact Hroot|exact Hbm]. }
  destruct (gtb _ _); [exact Hbm'|].
  apply IH; auto. now replace (S depth - 1)%nat with depth by lia.
Qed.

(** X13. A searcher that has not searched before returns, for any state
    and any clock, either nothing or one of the legal moves of that
    state. *)
Theorem fresh_searcher_returns_a_legal_move (now : nat → Z)
    (config : AIConfig) (gameState : GameState) :
  match snd (getBestMove now (create config) gameState) with
  | Some m => In m (MoveGenerator.generateLegalMoves gameState)
  | None => True
  end.
Proof.
  unfold getBestMove. apply iterativeDeepening_legal; auto.
  intros k e. cbn [create transpositionTable]. now rewrite lookup_empty.
Qed.

End FreshSearch.

(** ** The search: transposition keys *)

Section PositionKeys.
Import ChessBoard ChessAI.

Lemma cell_inj (a b : option Piece) (s t : string) :
  cell a s = cell b t ↔ initials a = initials b ∧ s = t.
Proof.
  unfold cell, initials. split.
  - destruct a as [[ta []]|], b as [[tb []]|]; simpl; intros [=]; subst;
      split; auto; congruence.
  - intros [E ->]. destruct a, b; simpl in *; congruence.
Qed.

Lemma row_inj (p q : Position) (rank : ascii) (files : list ascii)
    (s t : string) :
  fold_right (fun file acc =>
                cell (truthy (pos_get p (String file (String rank "")))) acc)
             s files
  = fold_right (fun file acc =>
                  cell (truthy (pos_get q (String file (String rank "")))) acc)
               t files
  ↔ (∀ file, In file files →
       initials (truthy (pos_get p (String file (String rank ""))))
       = initials (truthy (pos_get q (String file (String rank "")))))
    ∧ s = t.
Proof.
  induction files as [|f files IH]; cbn [fold_right].
  - simpl. intuition.
  - rewrite cell_inj, IH. simpl. intuition (subst; auto).
Qed.

Lemma rows_inj (p q : Position) (ranks : list ascii) (s t : string) :
  fold_right (fun rank acc =>
    fold_right (fun file acc =>
                  cell (truthy (pos_get p (String file (String rank "")))) acc)
               acc FILES) s ranks
  = fold_right (fun rank acc =>
      fold_right (fun file acc =>
                    cell (truthy (pos_get q (String file (String rank "")))) acc)
                 acc FILES) t ranks
  ↔ (∀ rank file, In rank ranks → In file FILES →
       initials (truthy (pos_get p (String file (String rank ""))))
       = initials (truthy (pos_get q (String file (String rank "")))))
    ∧ s = t.
Proof.
  induction ranks as [|r ranks IH]; cbn [fold_right].
  - simpl. intuition.
  - rewrite row_inj, IH. cbn [In]. intuition (subst; auto).
Qed.

(** X14. Two states get the same transposition key exactly when the
    same side is to move and each of the 64 squares holds pieces with the
    same colour initial and the same type initial, or is empty in both.
    Knight and king share their initial; castling rights and en-passant
    target are not part of the key. *)
Theorem position_key_reads_initials_and_side_to_move (g g' : GameState) :
  getPositionKey g = getPositionKey g'
  ↔ activeColor g = activeColor g'
    ∧ ∀ sq, isValidSquare sq = true →
        initials (truthy (pos_get (position g) sq))
        = initials (truthy (pos_get (position g') sq)).
Proof.
  unfold getPositionKey.
  change (fold_right _ ?s (rev RANKS) = fold_right _ ?t (rev RANKS))
    with (fold_right (fun rank acc =>
            fold_right (fun file acc =>
              cell (truthy (pos_get (position g)
                                    (String file (String rank "")))) acc)
              acc FILES) s (rev RANKS)
          = fold_right (fun rank acc =>
              fold_right (fun file acc =>
                cell (truthy (pos_get (position g')
                                      (String file (String rank "")))) acc)
                acc FILES) t (rev RANKS)).
  rewrite rows_inj. split.
  - intros [H E]. split.
    + destruct (activeColor g), (activeColor g'); simpl in E; congruence.
    + intros sq Hv.
      apply valid_square_shape in Hv as (f & r & Hf & Hr & ->).
      apply H; auto. now apply in_rev in Hr.
  - intros [E H]. split; [|now rewrite E].
    intros rank file Hr Hf. apply H.
    apply in_rev in Hr. unfold isValidSquare. simpl length.
    cbn [String.length Nat.eqb negb char_at].
    clear -Hr Hf. simpl in Hr, Hf.
    repeat (destruct Hf as [<-|Hf]; [|]); try contradiction;
      repeat (destruct Hr as [<-|Hr]; [|]); try contradiction; reflexivity.
Qed.

End PositionKeys.

(** ** The search: evaluation and quiescence *)

Section Quiescence.
Import JSNum ChessBoard ChessAI.

Ltac num_cases :=
  unfold geb, gtb, leb, eqb, max, min, ltb in *;
  repeat match goal with
         | x : num |- _ => destruct x
         end;
  cbn [orb] in *;
  repeat match goal with
         | H : context [bool_decide (?a = ?b)] |- _ =>
             destruct (bool_decide_reflect (a = b))
         | |- context [bool_decide (?a = ?b)] =>
             destruct (bool_decide_reflect (a = b))
         | H : context [?x <? ?y] |- _ => destruct (Z.ltb_spec x y)
         | |- context [?x <? ?y] => destruct (Z.ltb_spec x y)
         end;
  cbn [orb] in *;
  try discriminate; try congruence; try tauto;
  try (exfalso;
       match goal with
       | H : Fin _ ≠ Fin _ |- _ => apply H; f_equal; lia
       end);
  try (match goal with
       | H : Fin _ = Fin _ |- _ => injection H as H; lia
       end).

Lemma leb_numbers (a b : num) : leb a b = true → a ≠ NaN ∧ b ≠ NaN.
Proof. intros H. split; intros ->; num_cases. Qed.

Lemma leb_refl (a : num) : a ≠ NaN → leb a a = true.
Proof. intros H. num_cases. Qed.

Lemma leb_trans (a b c : num) :
  leb a b = true → leb b c = true → leb a c = true.
Proof. intros H1 H2. num_cases. Qed.

Lemma leb_total (a b : num) :
  a ≠ NaN → b ≠ NaN → leb a b = false → leb b a = true.
Proof. intros H1 H2 H3. num_cases. Qed.

Lemma max_cases (a b : num) :
  a ≠ NaN → b ≠ NaN →
  (max a b = a ∧ leb b a = true) ∨ (max a b = b ∧ leb a b = true).
Proof.
  intros H1 H2.
  destruct a, b; try congruence; cbn [max ltb];
    try (left; split; reflexivity); try (right; split; reflexivity).
  destruct (Z.ltb_spec z z0); [right|left]; split; auto; unfold leb, ltb, eqb;
    destruct (Z.ltb_spec z z0), (Z.ltb_spec z0 z);
    destruct (bool_decide_reflect (Fin z = Fin z0));
    destruct (bool_decide_reflect (Fin z0 = Fin z)); auto; try lia;
    exfalso; match goal with H : Fin _ ≠ Fin _ |- _ => apply H; f_equal; lia end.
Qed.

Lemma min_cases (a b : num) :
  a ≠ NaN → b ≠ NaN →
  (min a b = a ∧ leb a b = true) ∨ (min a b = b ∧ leb b a = true).
Proof.
  intros H1 H2.
  destruct a, b; try congruence; cbn [min ltb];
    try (left; split; reflexivity); try (right; split; reflexivity).
  destruct (Z.ltb_spec z0 z); [right|left]; split; auto; unfold leb, ltb, eqb;
    destruct (Z.ltb_spec z z0), (Z.ltb_spec z0 z);
    destruct (bool_decide_reflect (Fin z = Fin z0));
    destruct (bool_decide_reflect (Fin z0 = Fin z)); auto; try lia;
    exfalso; match goal with H : Fin _ ≠ Fin _ |- _ => apply H; f_equal; lia end.
Qed.

Lemma step_max (lo hi a b s : num) :
  inWindow lo hi a → inWindow lo hi b → leb a b = true → s ≠ NaN →
  geb s b = false →
  max a s ≠ NaN ∧ inWindow lo hi (max a s) ∧ leb (max a s) b = true.
Proof.
  intros [Ha1 Ha2] [Hb1 Hb2] Hab Hs Hcut. unfold geb in Hcut.
  destruct (leb_numbers _ _ Hab) as [Han Hbn].
  apply leb_total in Hcut; auto.
  destruct (max_cases a s Han Hs) as [[-> _]|[-> H]].
  - split; [auto|]. split; [split|]; auto.
  - split; [auto|]. split; [split|]; auto.
    + exact (leb_trans _ _ _ Ha1 H).
    + exact (leb_trans _ _ _ Hcut Hb2).
Qed.

Lemma step_min (lo hi a b s : num) :
  inWindow lo hi a → inWindow lo hi b → leb a b = true → s ≠ NaN →
  leb s a = false →
  min b s ≠ NaN ∧ inWindow lo hi (min b s) ∧ leb a (min b s) = true.
Proof.
  intros [Ha1 Ha2] [Hb1 Hb2] Hab Hs Hcut.
  destruct (leb_numbers _ _ Hab) as [Han Hbn].
  apply leb_total in Hcut; auto.
  destruct (min_cases b s Hbn Hs) as [[-> _]|[-> H]].
  - split; [auto|]. split; [split|]; auto.
  - split; [auto|]. split; [split|]; auto.
    + exact (leb_trans _ _ _ Ha1 Hcut).
    + exact (leb_trans _ _ _ H Hb2).
Qed.

Lemma tableAt_finite (t : PieceType) (sq : Square) :
  isValidSquare sq = true →
  ∃ z, tableAt (getPieceSquareTables t) (squareToIndex sq) = Fin z.
Proof.
  intros H. apply valid_square_shape in H as (f & r & Hf & Hr & ->).
  simpl in Hf, Hr.
  repeat (destruct Hf as [<-|Hf]; [|]); try contradiction;
    repeat (destruct Hr as [<-|Hr]; [|]); try contradiction;
    destruct t; vm_compute; eauto.
Qed.

Lemma positional_finite (p : Position) :
  Forall (fun e => isValidSquare (fst e) = true) p →
  ∀ acc, ∃ z,
    fold_left (fun score '(square, slot) =>
                 match truthy slot with
                 | Some piece =>
                     let tableValue :=
                       tableAt (getPieceSquareTables (type piece))
                               (squareToIndex square) in
                     add score (if bool_decide (color piece = white)
                                then tableValue else neg tableValue)
                 | None => score
                 end) p (Fin acc) = Fin z.
Proof.
  induction 1 as [|[sq slot] p Hv _ IH]; intros acc; [simpl; eauto|].
  cbn [fold_left]. destruct (truthy slot) as [piece|]; [|apply IH].
  destruct (tableAt_finite (type piece) sq Hv) as [z ->]. cbv zeta.
  destruct (bool_decide _); apply IH.
Qed.

Lemma fullBoard_keys (p : Position) :
  fullBoard p → Forall (fun e => isValidSquare (fst e) = true) p.
Proof.
  intros [Hk _]. apply List.Forall_forall. intros [k v] Hin.
  apply allSquares_spec. rewrite <- Hk. apply in_map_iff.
  exists (k, v). auto.
Qed.

Lemma evaluatePosition_finite (gs : GameState) :
  fullBoard (position gs) → ∃ z, evaluatePosition gs = Fin z.
Proof.
  intros H.
  assert (∃ z, evaluatePosition_Positional gs = Fin z) as [z Hz]
    by apply (positional_finite _ (fullBoard_keys _ H) 0).
  unfold evaluatePosition. rewrite Hz.
  cbv zeta. cbn [add]. destruct (bool_decide _); cbn [neg]; eauto.
Qed.

Lemma fullBoard_search_makeMove (gs : GameState) (m : Move) :
  fullBoard (position gs) → In m (MoveGenerator.generateLegalMoves gs) →
  fullBoard (position (makeMove gs m)).
Proof.
  intros H Hin. destruct (legal_move_squares _ _ H Hin) as [Hf Ht].
  unfold makeMove. cbn [position].
  repeat apply fullBoard_pos_set; auto; discriminate.
Qed.

Lemma quiescenceLoop_finite recur gs isMax :
  ∀ captures alpha beta,
    Forall (fun m => ∀ a b, a ≠ NaN → b ≠ NaN →
                            recur (makeMove gs m) a b ≠ NaN) captures →
    alpha ≠ NaN → beta ≠ NaN →
    quiescenceLoop recur gs isMax captures alpha beta ≠ NaN.
Proof.
  induction captures as [|m captures IH]; intros a b Hall Ha Hb.
  - simpl. now destruct isMax.
  - apply Forall_cons in Hall as [Hm Hall]. cbn [quiescenceLoop]. cbv zeta.
    specialize (Hm a b Ha Hb).
    destruct isMax.
    + destruct (geb _ _); [exact Hb|]. apply IH; auto.
      destruct (max_cases a _ Ha Hm) as [[-> _]|[-> _]]; auto.
    + destruct (leb _ _); [exact Ha|]. apply IH; auto.
      destruct (min_cases b _ Hb Hm) as [[-> _]|[-> _]]; auto.
Qed.

Lemma captures_legal (gs : GameState) (m : Move) :
  In m (sortByScore getMVVLVA
          (List.filter (fun move => present (captured move))
                       (MoveGenerator.generateLegalMoves gs))) →
  In m (MoveGenerator.generateLegalMoves gs).
Proof.
  intros H. eapply Permutation_in in H; [|apply sortByScore_perm].
  now apply List.filter_In in H.
Qed.

Lemma quiescenceFrom_finite (remaining : nat) :
  ∀ gs alpha beta isMax,
    fullBoard (position gs) → alpha ≠ NaN → beta ≠ NaN →
    quiescenceFrom remaining gs alpha beta isMax ≠ NaN.
Proof.
  induction remaining as [|n IH]; intros gs a b isMax Hfull Ha Hb.
  - simpl. destruct (evaluatePosition_finite gs Hfull) as [z ->]. discriminate.
  - cbn [quiescenceFrom]. cbv zeta.
    destruct (evaluatePosition_finite gs Hfull) as [z ->].
    destruct (if isMax then geb (Fin z) b else leb (Fin z) a).
    { now destruct isMax. }
    apply quiescenceLoop_finite.
    + apply List.Forall_forall. intros m Hin a' b' Ha' Hb'.
      apply IH; auto. apply fullBoard_search_makeMove; auto.
      now apply captures_legal.
    + destruct isMax; auto.
      destruct (max_cases a (Fin z) Ha) as [[-> _]|[-> _]]; auto; discriminate.
    + destruct isMax; auto.
      destruct (min_cases b (Fin z) Hb) as [[-> _]|[-> _]]; auto; discriminate.
Qed.

Lemma quiescenceLoop_window recur gs isMax (lo hi : num) :
  ∀ captures alpha beta,
    Forall (fun m => ∀ a b, a ≠ NaN → b ≠ NaN →
                            recur (makeMove gs m) a b ≠ NaN) captures →
    inWindow lo hi alpha → inWindow lo hi beta → leb alpha beta = true →
    inWindow lo hi (quiescenceLoop recur gs isMax captures alpha beta).
Proof.
  induction captures as [|m captures IH]; intros a b Hall Ha Hb Hab.
  - simpl. now destruct isMax.
  - apply Forall_cons in Hall as [Hm Hall]. cbn [quiescenceLoop]. cbv zeta.
    destruct (leb_numbers _ _ Hab) as [Han Hbn].
    specialize (Hm a b Han Hbn).
    generalize dependent (recur (makeMove gs m) a b). intros s Hs.
    destruct isMax.
    + destruct (geb s b) eqn:E; [exact Hb|].
      destruct (step_max lo hi a b s Ha Hb Hab Hs E) as (_ & H1 & H2).
      now apply IH.
    + destruct (leb s a) eqn:E; [exact Ha|].
      destruct (step_min lo hi a b s Ha Hb Hab Hs E) as (_ & H1 & H2).
      now apply IH.
Qed.

(** X15. On a complete board, called at a depth of at most 10 with
    [alpha <= beta], [quiescenceSearch] returns a score between [alpha]
    and [beta]. *)
Theorem quiescence_score_stays_in_the_window (gameState : GameState)
    (alpha beta : num) (isMaximizing : bool) (depth : nat) :
  fullBoard (position gameState) → leb alpha beta = true →
  (depth ≤ 10)%nat →
  inWindow alpha beta
           (quiescenceSearch gameState alpha beta isMaximizing depth).
Proof.
  intros Hfull Hw Hd. unfold quiescenceSearch.
  destruct (11 - depth)%nat as [|n] eqn:E; [lia|]. clear E Hd.
  cbn [quiescenceFrom]. cbv zeta.
  destruct (leb_numbers _ _ Hw) as [Han Hbn].
  assert (inWindow alpha beta alpha) as Ha
    by (split; auto; now apply leb_refl).
  assert (inWindow alpha beta beta) as Hb
    by (split; auto; now apply leb_refl).
  destruct (evaluatePosition_finite gameState Hfull) as [z ->].
  assert (∀ captures a b,
            Forall (fun m => In m (MoveGenerator.generateLegalMoves gameState))
                   captures →
            inWindow alpha beta a → inWindow alpha beta b →
            leb a b = true →
            inWindow alpha beta
              (quiescenceLoop
                 (fun g a b => quiescenceFrom n g a b (negb isMaximizing))
                 gameState isMaximizing captures a b)) as Hloop.
  { intros captures a b Hall. apply quiescenceLoop_window.
    apply List.Forall_forall. intros m Hin a' b' Ha' Hb'.
    apply quiescenceFrom_finite; auto.
    apply fullBoard_search_makeMove; auto.
    exact (proj1 (List.Forall_forall _ _) Hall _ Hin). }
  assert (Forall (fun m => In m (MoveGenerator.generateLegalMoves gameState))
            (sortByScore getMVVLVA
               (List.filter (fun move => present (captured move))
                  (MoveGenerator.generateLegalMoves gameState)))) as Hcap.
  { apply List.Forall_forall. intros m. apply captures_legal. }
  destruct isMaximizing.
  - destruct (geb (Fin z) beta) eqn:C; [exact Hb|].
    destruct (step_max alpha beta alpha beta (Fin z) Ha Hb Hw
                ltac:(discriminate) C) as (_ & H1 & H2).
    now apply Hloop.
  - destruct (leb (Fin z) alpha) eqn:C; [exact Ha|].
    destruct (step_min alpha beta alpha beta (Fin z) Ha Hb Hw
                ltac:(discriminate) C) as (_ & H1 & H2).
    now apply Hloop.
Qed.

End Quiescence.

(** ** The interface: the drawn board *)

Section BoardDrawing.
Import ChessBoard ChessUI.

(** X16. [renderBoard] draws each of the 64 squares once, with the
    symbol of the piece on it; the colour class it gives a square is on
    every square the opposite of [ChessBoard.getSquareColor]. *)
Theorem drawn_squares_are_coloured_against_getSquareColor
    (position : Position) :
  Permutation (map square (renderBoard position)) getAllSquares
  ∧ ∀ e, In e (renderBoard position) →
         isValidSquare (square e) = true
         ∧ className e ≠ getSquareColor (square e)
         ∧ innerHTML e
           = option_map getPieceSymbol (truthy (pos_get position (square e))).
Proof.
  split.
  - refine (bool_decide_unpack
              (Permutation (map square (renderBoard position)) getAllSquares)
              _).
    vm_compute. exact I.
  - intros e He. unfold renderBoard in He.
    cbn [flat_map map app] in He. cbn [In] in He.
    repeat (destruct He as [<-|He];
            [split; [reflexivity|split; [discriminate|reflexivity]]|]).
    destruct He.
Qed.

End BoardDrawing.

(** ** Promotions: boards that differ in the kind of one piece *)

Section SameSideBoards.
Import ChessBoard MoveGenerator.

Variable g : GameState.
Variables p1 p2 : Position.
Hypothesis sides :
  ∀ sq, sameSide (truthy (pos_get p1 sq)) (truthy (pos_get p2 sq)).

Ltac occupant sq :=
  let Hs := fresh "Hs" in
  pose proof (sides sq) as Hs; unfold sameSide in Hs;
  destruct (truthy (pos_get p1 sq)), (truthy (pos_get p2 sq));
  cbn [option_map] in Hs; try discriminate;
  [injection Hs as Hs; try rewrite Hs|].

Lemma slideRay_to from piece file rank fd rd steps :
  map to (slideRay p1 from piece file rank fd rd steps)
  = map to (slideRay p2 from piece file rank fd rd steps).
Proof.
  induction steps as [|i steps IH]; [reflexivity|]. cbn [slideRay].
  destruct (coordinatesToSquare _ _) as [sq|]; [|reflexivity].
  occupant sq.
  - now destruct (bool_decide _).
  - cbn [map]. now rewrite IH.
Qed.

Lemma map_to_flat_map {A : Type} (f h : A → list Move) (l : list A) :
  (∀ x, map to (f x) = map to (h x)) →
  map to (flat_map f l) = map to (flat_map h l).
Proof.
  intros H. induction l as [|x l IH]; [reflexivity|].
  cbn [flat_map]. now rewrite !map_app, H, IH.
Qed.

Lemma sliding_to from piece dirs :
  map to (generateSlidingMoves (withPosition g p1) from piece dirs)
  = map to (generateSlidingMoves (withPosition g p2) from piece dirs).
Proof.
  unfold generateSlidingMoves. destruct (squareToCoordinates from).
  apply map_to_flat_map. intros [fd rd]. apply slideRay_to.
Qed.

Lemma stepMoves_to from piece offsets :
  map to (stepMoves (withPosition g p1) from piece offsets)
  = map to (stepMoves (withPosition g p2) from piece offsets).
Proof.
  unfold stepMoves. destruct (squareToCoordinates from).
  apply map_to_flat_map. intros [fo ro]. cbn [position withPosition].
  destruct (coordinatesToSquare _ _) as [sq|]; [|reflexivity].
  occupant sq; [|reflexivity]. now destruct (bool_decide _).
Qed.

Lemma pawnCaptures_to from piece file rank direction promotionRank off :
  map to (pawnCaptures (withPosition g p1) from piece file rank direction
                       promotionRank off)
  = map to (pawnCaptures (withPosition g p2) from piece file rank direction
                         promotionRank off).
Proof.
  unfold pawnCaptures. cbn [position withPosition enPassantTarget].
  destruct (coordinatesToSquare (file + off) (rank + direction)) as [sq|];
    [|reflexivity].
  rewrite !map_app. f_equal.
  - occupant sq; [|reflexivity].
    destruct (bool_decide _); [|reflexivity].
    destruct (_ =? _); [|reflexivity].
    now rewrite !map_map.
  - destruct (bool_decide _); [|reflexivity].
    destruct (coordinatesToSquare (file + off) rank) as [sqp|]; [|reflexivity].
    occupant sqp; reflexivity.
Qed.

Lemma pawn_to from piece :
  map to (generatePawnMoves (withPosition g p1) from piece)
  = map to (generatePawnMoves (withPosition g p2) from piece).
Proof.
  unfold generatePawnMoves. cbn [position withPosition].
  destruct (squareToCoordinates from) as [file rank].
  rewrite !map_app. f_equal.
  - destruct (coordinatesToSquare file _) as [one|]; [|reflexivity].
    occupant one; [reflexivity|].
    destruct (_ =? _); [now rewrite !map_map|].
    cbn [map]. f_equal.
    destruct (_ =? _); [|reflexivity].
    destruct (coordinatesToSquare file _) as [two|]; [|reflexivity].
    occupant two; reflexivity.
  - apply map_to_flat_map. intros off. apply pawnCaptures_to.
Qed.

Lemma hits_map k l : hits k l = existsb (fun s => String.eqb s k) (map to l).
Proof.
  unfold hits. induction l as [|m l IH]; [reflexivity|].
  cbn [existsb map]. now rewrite IH.
Qed.

Lemma pieceMoves_hits_sides k kp sq piece :
  pos_get p1 k = Occupied kp →
  hits k (generatePieceMoves (withPosition g p1) sq piece)
  = hits k (generatePieceMoves (withPosition g p2) sq piece).
Proof.
  intros Hk.
  assert (∃ kp', pos_get p2 k = Occupied kp') as [kp' Hk'].
  { pose proof (sides k) as Hs. unfold sameSide in Hs. rewrite Hk in Hs.
    destruct (pos_get p2 k); try discriminate. eauto. }
  unfold generatePieceMoves. destruct (type piece).
  - now rewrite !hits_map, pawn_to.
  - unfold generateRookMoves. now rewrite !hits_map, sliding_to.
  - unfold generateKnightMoves. now rewrite !hits_map, stepMoves_to.
  - unfold generateBishopMoves. now rewrite !hits_map, sliding_to.
  - unfold generateQueenMoves. now rewrite !hits_map, sliding_to.
  - unfold generateKingMoves. rewrite !hits_app.
    rewrite (castling_never_hits (withPosition g p1) sq piece k kp Hk),
            (castling_never_hits (withPosition g p2) sq piece k kp' Hk').
    f_equal. now rewrite !hits_map, stepMoves_to.
Qed.

End SameSideBoards.

Section PromotionSiblings.
Import ChessBoard MoveGenerator.

Lemma findKing_promoted (P : Position) (sq : Square) (t t' : PieceType)
    (c col : PieceColor) :
  t ≠ king → t' ≠ king →
  findKing (pos_set P sq (Occupied (mkPiece t c))) col
  = findKing (pos_set P sq (Occupied (mkPiece t' c))) col.
Proof.
  intros Ht Ht'.
  assert (∀ u, u ≠ king → ∀ rest,
            findKing ((sq, Occupied (mkPiece u c)) :: rest) col
            = findKing rest col) as Hskip.
  { intros u Hu rest. cbn [findKing truthy]. simpl type.
    now rewrite (bool_decide_eq_false_2 (u = king)) by auto. }
  induction P as [|[k v] P IH]; cbn [pos_set].
  - now rewrite !Hskip.
  - destruct (String.eqb k sq) eqn:E.
    + apply String.eqb_eq in E. subst k. now rewrite !Hskip.
    + cbn [findKing]. now rewrite IH.
Qed.

Lemma hits_promoted (F1 F2 : Square * Slot → list Move) (k : Square)
    (P : Position) (sq : Square) (v1 v2 : Slot) :
  (∀ x, F1 (x, v1) = []) → (∀ x, F2 (x, v2) = []) →
  (∀ e, hits k (F1 e) = hits k (F2 e)) →
  hits k (flat_map F1 (pos_set P sq v1))
  = hits k (flat_map F2 (pos_set P sq v2)).
Proof.
  intros H1 H2 H. induction P as [|[x w] P IH]; cbn [pos_set flat_map].
  - now rewrite H1, H2.
  - destruct (String.eqb x sq); cbn [flat_map]; rewrite !hits_app.
    + rewrite H1, H2. cbn [hits existsb orb].
      now apply hits_flat_map_ext.
    + now rewrite H, IH.
Qed.

Lemma isInCheck_promoted (g : GameState) (P : Position) (sq : Square)
    (t t' : PieceType) (c : PieceColor) :
  unique_keys P = true → t ≠ king → t' ≠ king →
  isInCheck (withPosition g (pos_set P sq (Occupied (mkPiece t c)))) c
  = isInCheck (withPosition g (pos_set P sq (Occupied (mkPiece t' c)))) c.
Proof.
  intros Hu Ht Ht'. unfold isInCheck. cbn [position withPosition].
  rewrite (findKing_promoted P sq t t' c c Ht Ht').
  destruct (findKing (pos_set P sq (Occupied (mkPiece t' c))) c) as [k|] eqn:Hk;
    [|reflexivity].
  apply findKing_found in Hk as (kp & Hin & Hkt & Hkc).
  apply pos_get_unique in Hin; [|now apply unique_keys_pos_set].
  assert (∀ x, sameSide
             (truthy (pos_get (pos_set P sq (Occupied (mkPiece t' c))) x))
             (truthy (pos_get (pos_set P sq (Occupied (mkPiece t c))) x)))
    as Hsides.
  { intros x. unfold sameSide. rewrite !pos_get_set.
    now destruct (String.eqb sq x). }
  fold (hits k (generatePseudoLegalMoves
                  (withActiveColor
                     (withPosition g (pos_set P sq (Occupied (mkPiece t c))))
                     (opponent c)))).
  fold (hits k (generatePseudoLegalMoves
                  (withActiveColor
                     (withPosition g (pos_set P sq (Occupied (mkPiece t' c))))
                     (opponent c)))).
  unfold generatePseudoLegalMoves.
  cbn [position withActiveColor withPosition activeColor].
  apply hits_promoted.
  - intros x. cbn [truthy color].
    rewrite bool_decide_eq_false_2; [reflexivity|now destruct c].
  - intros x. cbn [truthy color].
    rewrite bool_decide_eq_false_2; [reflexivity|now destruct c].
  - intros [x v]. destruct (truthy v) as [piece|]; [|reflexivity].
    destruct (bool_decide _); [|reflexivity].
    symmetry.
    apply (pieceMoves_hits_sides
             (mkGameState [] (opponent c) (castlingRights g)
                          (enPassantTarget g) (halfmoveClock g)
                          (fullmoveNumber g) (moveHistory g))
             _ _ Hsides k kp x piece Hin).
Qed.

Lemma promotion_is_pawn (gs : GameState) (m : Move) (t : PieceType) :
  In m (generatePseudoLegalMoves gs) → promotion m = Some t →
  type (piece m) = pawn ∧ enPassant m = false ∧ castling m = None.
Proof.
  intros Hin Hp.
  pose proof (pseudoLegal_shape _ _ Hin) as [Hs|(Hc & He & _)];
    [congruence|].
  split; auto.
  apply pseudoLegal_iff in Hin as (sq & piece & _ & _ & H).
  pose proof (pieceMoves_geometry _ _ _ _ H) as (_ & <- & _).
  unfold generatePieceMoves in H.
  destruct (type (chess.piece m)); auto; exfalso.
  - apply sliding_no_promotion in H. congruence.
  - apply stepMoves_no_promotion in H. congruence.
  - apply sliding_no_promotion in H. congruence.
  - apply sliding_no_promotion in H. congruence.
  - apply in_app_iff in H as [H|H].
    + apply stepMoves_no_promotion in H. congruence.
    + apply castling_target_vacant in H as [_ H]. congruence.
Qed.

Lemma promotion_siblings (gs : GameState) (m : Move) (t t' : PieceType) :
  unique_keys (position gs) = true →
  In m (generatePseudoLegalMoves gs) →
  promotion m = Some t →
  In t' promotionPieces →
  In (promotingTo m t') (generatePseudoLegalMoves gs)
  ∧ isLegalMove gs (promotingTo m t') = isLegalMove gs m.
Proof.
  intros Hu Hin Hp Ht'.
  destruct (promotion_is_pawn _ _ _ Hin Hp) as (Hpawn & He & Hc).
  destruct (pawn_promotion_facts gs m Hin Hpawn He) as [_ Hsib].
  destruct (Hsib t Hp) as [Ht Hall].
  assert (promotingTo m t'
          = mkMove (from m) (to m) (piece m) (captured m) (Some t') None false)
    as E by (unfold promotingTo; now rewrite He, Hc).
  split; [rewrite E; now apply Hall|].
  pose proof (pseudoLegal_fields _ _ Hu Hin) as (_ & Hcol & _).
  unfold isLegalMove. f_equal.
  set (P := pos_set (pos_set (position gs) (to m) (Occupied (piece m)))
                    (from m) Null).
  set (g' := mkGameState [] (opponent (activeColor gs)) (castlingRights gs)
                         (enPassantTarget gs) (halfmoveClock gs)
                         (fullmoveNumber gs) (moveHistory gs)).
  assert (∀ u, makeMove gs (promotingTo m u)
               = withPosition g'
                   (pos_set P (to m)
                            (Occupied (mkPiece u (activeColor gs))))) as Hmk.
  { intros u. unfold makeMove, promotingTo.
    cbn [chess.from chess.to chess.piece chess.promotion chess.castling
         chess.enPassant].
    rewrite Hc, He, Hcol. reflexivity. }
  assert (m = promotingTo m t) as Em.
  { unfold promotingTo. rewrite <- Hp. now destruct m. }
  rewrite Em at 2. rewrite !Hmk.
  apply isInCheck_promoted.
  - subst P. now repeat apply unique_keys_pos_set.
  - simpl in Ht'. intuition congruence.
  - simpl in Ht. intuition congruence.
Qed.

(** X17. If a promotion is legal, so is the same pawn move with any
    other of queen, rook, bishop and knight: the four promotions on a
    square are legal together or not at all. *)
Theorem promotions_are_legal_together (gs : GameState) (m : Move)
    (t t' : PieceType) :
  unique_keys (position gs) = true →
  In m (generateLegalMoves gs) →
  promotion m = Some t →
  In t' promotionPieces →
  In (promotingTo m t') (generateLegalMoves gs).
Proof.
  intros Hu Hin Hp Ht'. apply List.filter_In in Hin as [Hin Hl].
  destruct (promotion_siblings gs m t t' Hu Hin Hp Ht') as [H1 H2].
  apply List.filter_In. split; auto. congruence.
Qed.

End PromotionSiblings.

(** ** Promotions: the queen comes first *)

Section QueenFirst.
Import ChessBoard MoveGenerator.

Lemma queenFirst_app (l l' : list Move) :
  queenFirst l → queenFirst l' → queenFirst (l ++ l').
Proof.
  intros H H' l1 m l2 t E Hp Ht.
  apply List.app_eq_app in E as [x [[-> E]|[-> E]]].
  - destruct x as [|y x]; simpl in E.
    + subst l'. destruct (H' [] m l2 t eq_refl Hp Ht).
    + injection E as <- ->. exact (H l1 m x t eq_refl Hp Ht).
  - apply in_or_app. right. exact (H' x m l2 t E Hp Ht).
Qed.

Lemma queenFirst_plain (l : list Move) :
  (∀ m, In m l → promotion m = None) → queenFirst l.
Proof.
  intros H l1 m l2 t -> Hp _.
  rewrite H in Hp; [discriminate|]. apply in_or_app. right. now left.
Qed.

Lemma queenFirst_promotions (from sq : Square) (piece : Piece)
    (target : option Piece) :
  queenFirst (map (fun promotionPiece =>
                     mkMove from sq piece target (Some promotionPiece)
                            None false)
                  promotionPieces).
Proof.
  intros l1 m l2 t E Hp Ht. cbn [map promotionPieces] in E.
  destruct l1 as [|a [|b [|c [|d l1]]]]; simpl in E;
    injection E as <-; intros; subst; simpl in *;
    try (injection Hp as <-; congruence); auto.
  destruct l1; discriminate.
Qed.

Lemma queenFirst_flat_map {A : Type} (f : A → list Move) (l : list A) :
  (∀ x, queenFirst (f x)) → queenFirst (flat_map f l).
Proof.
  intros H. induction l as [|x l IH]; cbn [flat_map].
  - now apply queenFirst_plain.
  - now apply queenFirst_app.
Qed.

Lemma queenFirst_pawn (gs : GameState) (from : Square) (piece : Piece) :
  queenFirst (generatePawnMoves gs from piece).
Proof.
  unfold generatePawnMoves. destruct (squareToCoordinates from) as [file rank].
  apply queenFirst_app.
  - destruct (coordinatesToSquare file _) as [one|];
      [|now apply queenFirst_plain].
    destruct (truthy _); [now apply queenFirst_plain|].
    destruct (_ =? _); [apply queenFirst_promotions|].
    apply queenFirst_plain. intros m [<-|H]; [reflexivity|].
    destruct (_ =? _); [|destruct H].
    destruct (coordinatesToSquare file _); [|destruct H].
    destruct (truthy _); [destruct H|]. now destruct H as [<-|[]].
  - apply queenFirst_flat_map. intros off. unfold pawnCaptures.
    destruct (coordinatesToSquare _ _) as [sq|]; [|now apply queenFirst_plain].
    apply queenFirst_app.
    + destruct (truthy _) as [target|]; [|now apply queenFirst_plain].
      destruct (bool_decide _); [|now apply queenFirst_plain].
      destruct (_ =? _); [apply queenFirst_promotions|].
      apply queenFirst_plain. now intros m [<-|[]].
    + apply queenFirst_plain.
      destruct (bool_decide _); [|intros m []].
      destruct (match coordinatesToSquare _ _ with
                | Some s => _ | None => None end); [|intros m []].
      now intros m [<-|[]].
Qed.

Lemma queenFirst_pseudoLegal (gs : GameState) :
  queenFirst (generatePseudoLegalMoves gs).
Proof.
  unfold generatePseudoLegalMoves. apply queenFirst_flat_map.
  intros [sq slot]. destruct (truthy slot) as [piece|];
    [|now apply queenFirst_plain].
  destruct (bool_decide _); [|now apply queenFirst_plain].
  unfold generatePieceMoves. destruct (type piece).
  - apply queenFirst_pawn.
  - apply queenFirst_plain. intros m. apply sliding_no_promotion.
  - apply queenFirst_plain. intros m. apply stepMoves_no_promotion.
  - apply queenFirst_plain. intros m. apply sliding_no_promotion.
  - apply queenFirst_plain. intros m. apply sliding_no_promotion.
  - apply queenFirst_plain. intros m H. apply in_app_iff in H as [H|H].
    + eapply stepMoves_no_promotion; eauto.
    + now apply castling_target_vacant in H.
Qed.

Lemma find_first {A : Type} (h : A → bool) (l : list A) (x : A) :
  List.find h l = Some x →
  ∃ l1 l2, l = l1 ++ x :: l2 ∧ h x = true ∧ ∀ y, In y l1 → h y = false.
Proof.
  induction l as [|a l IH]; [discriminate|]. cbn [List.find].
  destruct (h a) eqn:E.
  - intros [= <-]. exists [], l. repeat split; auto. intros y [].
  - intros H. destruct (IH H) as (l1 & l2 & -> & Hx & Hl1).
    exists (a :: l1), l2. repeat split; auto.
    intros y [<-|Hy]; auto.
Qed.

Lemma find_filter {A : Type} (f h : A → bool) (l : list A) :
  List.find h (List.filter f l) = List.find (fun x => f x && h x) l.
Proof.
  induction l as [|a l IH]; [reflexivity|]. cbn [List.filter List.find].
  destruct (f a); cbn [List.find andb]; [|exact IH].
  destruct (h a); auto.
Qed.

(** The first legal move between two squares promotes to a queen if it
    promotes at all. *)
Lemma first_legal_move_promotes_to_queen (gs : GameState) (h : Move → bool)
    (m : Move) :
  unique_keys (position gs) = true →
  (∀ x t, h (promotingTo x t) = h x) →
  List.find h (generateLegalMoves gs) = Some m →
  promotion m = None ∨ promotion m = Some queen.
Proof.
  intros Hu Hh Hfind. unfold generateLegalMoves in Hfind.
  rewrite find_filter in Hfind.
  apply find_first in Hfind as (l1 & l2 & E & Hm & Hl1).
  destruct (promotion m) as [t|] eqn:Hp; [|now left]. right.
  destruct (decide (t = queen)) as [->|Hne]; [reflexivity|]. exfalso.
  pose proof (queenFirst_pseudoLegal gs l1 m l2 t E Hp Hne) as Hq.
  apply Hl1 in Hq.
  assert (In m (generatePseudoLegalMoves gs)) as Hin.
  { rewrite E. apply in_or_app. right. now left. }
  destruct (promotion_siblings gs m t queen Hu Hin Hp) as [_ Hlegal];
    [simpl; auto|].
  rewrite Hlegal, Hh in Hq. congruence.
Qed.

End QueenFirst.


(** ** The interface: clicks *)

Section Clicks.
Import MoveGenerator ChessUI.

(** X18. When a click on a square, after another square was selected,
    submits a move, that move is a legal move between the two squares
    which the engine accepts; if it promotes, it promotes to a queen.
    No click submits a promotion to rook, bishop or knight. *)
Theorem a_click_submits_a_legal_move_and_promotes_to_queen (this : UI)
    (selected target : Square) (m : Move) :
  unique_keys (position (ChessEngine.gameState (engine this))) = true →
  snd (handleSquareClick (selectSquare this selected) target) = Some m →
  In m (ChessEngine.getLegalMoves (engine this))
  ∧ from m = selected ∧ to m = target
  ∧ (promotion m = None ∨ promotion m = Some queen)
  ∧ fst (ChessEngine.makeMove (engine this) m) = true.
Proof.
  intros Hu. unfold handleSquareClick.
  cbn [selectSquare isPlayerTurn selectedSquare legalMoves engine].
  destruct (negb (isPlayerTurn this)); [discriminate|].
  destruct (String.eqb selected ""); cbv zeta.
  { destruct (ownPiece _ _); discriminate. }
  destruct (String.eqb selected target); [discriminate|].
  destruct (List.find _ _) as [found|] eqn:Hfind;
    [|destruct (ownPiece _ _); discriminate].
  cbn [snd]. intros [= ->].
  rewrite find_filter in Hfind.
  pose proof Hfind as Hfirst.
  apply first_legal_move_promotes_to_queen in Hfirst; auto.
  apply find_some in Hfind as [Hin Hm].
  apply andb_true_iff in Hm as [_ Hm].
  apply andb_true_iff in Hm as [Hf Ht].
  apply String.eqb_eq in Hf, Ht.
  repeat split; auto.
  rewrite makeMove_unfold.
  assert (existsb (ChessEngine.sameMove m) (ChessEngine.getLegalMoves (engine this))
          = true) as ->; [|reflexivity].
  apply existsb_exists. exists m. split; auto.
  apply sameMove_spec. auto.
Qed.

End Clicks.

(** * What an accepted move does to the state *)

Section AcceptedMoves.
Import ChessBoard MoveGenerator ChessEngine.

(** The board [applyMove] leaves, read square by square: of the
    assignments it makes, the last one that writes a square decides. *)
Lemma nextPosition_read (g : GameState) (move : Move) (sq : Square) :
  let isWhite := bool_decide (color (piece move) = white) in
  let placed :=
    match promotion move with
    | Some t => Occupied (mkPiece t (color (piece move)))
    | None => Occupied (piece move)
    end in
  let moved s :=
    if String.eqb (from move) s then Null
    else if String.eqb (to move) s then placed
         else pos_get (position g) s in
  let castled s :=
    match castling move with
    | Some kingside =>
        if String.eqb (if isWhite then "h1" else "h8") s then Null
        else if String.eqb (if isWhite then "f1" else "f8") s
             then moved (if isWhite then "h1" else "h8")
             else moved s
    | Some queenside =>
        if String.eqb (if isWhite then "a1" else "a8") s then Null
        else if String.eqb (if isWhite then "d1" else "d8") s
             then moved (if isWhite then "a1" else "a8")
             else moved s
    | None => moved s
    end in
  pos_get (nextPosition g move) sq
  = if enPassant move
       && String.eqb (if isWhite then head_plus (to move) "5"
                      else head_plus (to move) "4") sq
    then Null
    else castled sq.
Proof.
  cbv zeta. unfold nextPosition, castleRook, capturedPawnSquare.
  destruct (castling move) as [[]|], (enPassant move),
           (bool_decide (color (piece move) = white));
    cbn [andb]; rewrite !pos_get_set;
    repeat match goal with
           | |- context [String.eqb ?a ?b] => destruct (String.eqb a b)
           end; reflexivity.
Qed.


(** A generated move with a castling tag is a castling move of the king
    of the side to move, under the rule of [generateCastlingMoves]. *)
Lemma castling_moves_generated (gs : GameState) (m : Move) (side : CastlingSide) :
  In m (generatePseudoLegalMoves gs) → castling m = Some side →
  ∃ theKing,
    let '(home, target, between, corner, flag) :=
      castlingRule (activeColor gs) side in
    type theKing = king
    ∧ color theKing = activeColor gs
    ∧ m = castlingMove home target theKing side
    ∧ holds (position gs) corner rook (activeColor gs) = true.
Proof.
  intros H Hc.
  apply pseudoLegal_iff in H as (sq & piece & Hin & Hcol & H).
  unfold generatePieceMoves in H.
  destruct (type piece) eqn:Ht.
  - apply pawn_moves_iff, pawnMove_fields in H as (_ & _ & H). congruence.
  - apply sliding_origin in H as (? & ? & ? & ? & ? & ? & _ & _ & _ & H & _).
    apply landsOn_fields in H as (_ & _ & _ & _ & H & _). congruence.
  - apply stepMoves_origin in H as (? & ? & ? & _ & _ & H).
    apply landsOn_fields in H as (_ & _ & _ & _ & H & _). congruence.
  - apply sliding_origin in H as (? & ? & ? & ? & ? & ? & _ & _ & _ & H & _).
    apply landsOn_fields in H as (_ & _ & _ & _ & H & _). congruence.
  - apply sliding_origin in H as (? & ? & ? & ? & ? & ? & _ & _ & _ & H & _).
    apply landsOn_fields in H as (_ & _ & _ & _ & H & _). congruence.
  - unfold generateKingMoves in H. apply in_app_iff in H as [H|H].
    + apply stepMoves_origin in H as (? & ? & ? & _ & _ & H).
      apply landsOn_fields in H as (_ & _ & _ & _ & H & _). congruence.
    + apply castling_origin in H as [side' H].
      exists piece. rewrite <- Hcol.
      destruct (castlingRule (color piece) side')
        as [[[[home target] between] corner] flag] eqn:Hrule.
      destruct H as (-> & -> & Hr & Hv & Hh).
      cbn [castling castlingMove] in Hc. injection Hc as ->.
      rewrite Hrule. auto.
Qed.

(** C2.  [makeMove] returns true exactly when the submitted move agrees
    with a legal move on [from], [to] and [promotion].  A rejected move
    returns the engine as it was.  After an accepted move: every square
    of the board holds what the last assignment of [applyMove] to it
    wrote (the piece or its promotion on [to], nothing on [from], the
    rook of a castling move beside the king and nothing in its corner,
    nothing on the square an en-passant capture takes), the other side is
    to move, the en-passant target is the third or sixth rank of the
    pawn's file after a pawn went two ranks and none otherwise, a castling
    right stays exactly when it was set and the move is neither a move of
    that king nor a rook move from that corner, the halfmove clock is 0
    or one more, the move number is one more after Black's move, the move
    is appended to the state's history and the key of the new board to
    the repetition history.  For a castling move taken from
    [getLegalMoves] this puts the king on its target, the rook that stood
    in the corner beside it, and empties both squares they left.  The
    function is total: no path raises. *)
Theorem makeMove_all_or_nothing (this : Engine) (move : Move) :
  let old := gameState this in
  let next := snd (makeMove this move) in
  let new := gameState next in
  let isWhite := bool_decide (color (piece move) = white) in
  let placed :=
    match promotion move with
    | Some t => Occupied (mkPiece t (color (piece move)))
    | None => Occupied (piece move)
    end in
  let moved s :=
    if String.eqb (from move) s then Null
    else if String.eqb (to move) s then placed
         else pos_get (position old) s in
  let castled s :=
    match castling move with
    | Some kingside =>
        if String.eqb (if isWhite then "h1" else "h8") s then Null
        else if String.eqb (if isWhite then "f1" else "f8") s
             then moved (if isWhite then "h1" else "h8")
             else moved s
    | Some queenside =>
        if String.eqb (if isWhite then "a1" else "a8") s then Null
        else if String.eqb (if isWhite then "d1" else "d8") s
             then moved (if isWhite then "a1" else "a8")
             else moved s
    | None => moved s
    end in
  let kingOf c := bool_decide (type (piece move) = king)
                  && bool_decide (color (piece move) = c) in
  let rookLeaves corner := bool_decide (type (piece move) = rook)
                           && String.eqb (from move) corner in
  (fst (makeMove this move) = true
   ↔ ∃ legalMove, In legalMove (getLegalMoves this)
                  ∧ from legalMove = from move
                  ∧ to legalMove = to move
                  ∧ promotion legalMove = promotion move)
  ∧ (fst (makeMove this move) = false → next = this)
  ∧ (fst (makeMove this move) = true →
     (∀ sq, pos_get (position new) sq
            = if enPassant move
                 && String.eqb (if isWhite then head_plus (to move) "5"
                                else head_plus (to move) "4") sq
              then Null
              else castled sq)
     ∧ activeColor new
       = (if bool_decide (activeColor old = white) then black else white)
     ∧ enPassantTarget new
       = (if bool_decide (type (piece move) = pawn) then
            match parseInt_char (char_at (from move) 1),
                  parseInt_char (char_at (to move) 1) with
            | Some fromRank, Some toRank =>
                if Z.abs (toRank - fromRank) =? 2
                then Some (head_plus (from move) (if isWhite then "3" else "6"))
                else None
            | _, _ => None
            end
          else None)
     ∧ whiteKingside (castlingRights new)
       = whiteKingside (castlingRights old)
         && negb (kingOf white) && negb (rookLeaves "h1")
     ∧ whiteQueenside (castlingRights new)
       = whiteQueenside (castlingRights old)
         && negb (kingOf white) && negb (rookLeaves "a1")
     ∧ blackKingside (castlingRights new)
       = blackKingside (castlingRights old)
         && negb (kingOf black) && negb (rookLeaves "h8")
     ∧ blackQueenside (castlingRights new)
       = blackQueenside (castlingRights old)
         && negb (kingOf black) && negb (rookLeaves "a8")
     ∧ halfmoveClock new
       = (if present (captured move)
             || bool_decide (type (piece move) = pawn)
          then 0 else halfmoveClock old + 1)
     ∧ fullmoveNumber new
       = (if bool_decide (activeColor old = black)
          then fullmoveNumber old + 1 else fullmoveNumber old)
     ∧ chess.moveHistory new = chess.moveHistory old ++ [move]
     ∧ moveHistory next = moveHistory this ++ [positionToFEN next])
  ∧ (∀ side, In move (getLegalMoves this) → castling move = Some side →
     let corner :=
       match side, activeColor old with
       | kingside, white => "h1" | kingside, black => "h8"
       | queenside, white => "a1" | queenside, black => "a8"
       end in
     let beside :=
       match side, activeColor old with
       | kingside, white => "f1" | kingside, black => "f8"
       | queenside, white => "d1" | queenside, black => "d8"
       end in
     ∃ theRook,
       type theRook = rook ∧ color theRook = activeColor old
       ∧ type (piece move) = king ∧ color (piece move) = activeColor old
       ∧ pos_get (position old) corner = Occupied theRook
       ∧ pos_get (position new) beside = Occupied theRook
       ∧ pos_get (position new) corner = Null
       ∧ pos_get (position new) (to move) = Occupied (piece move)
       ∧ pos_get (position new) (from move) = Null).
Proof.
  cbv zeta. rewrite makeMove_unfold.
  destruct (existsb (sameMove move) (getLegalMoves this)) eqn:E;
    cbn [fst snd gameState moveHistory].
  - split; [|split; [discriminate|split]].
    + split; auto. intros _.
      apply existsb_exists in E as [lm [Hin Hs]].
      apply sameMove_spec in Hs. eauto.
    + intros _.
      pose proof (nextCastlingRights_flags (gameState this) move) as Hr.
      cbv zeta in Hr. destruct Hr as (H1 & H2 & H3 & H4).
      cbn [pushMove applyMove position activeColor enPassantTarget
           castlingRights halfmoveClock fullmoveNumber chess.moveHistory].
      split; [intros sq; apply (nextPosition_read (gameState this) move sq)|].
      split; [now destruct (activeColor (gameState this))|].
      repeat split; auto.
    + intros side Hin Hc.
      apply List.filter_In in Hin as [Hin _].
      destruct (castling_moves_generated _ _ _ Hin Hc) as [theKing H].
      cbn [pushMove applyMove position].
      pose proof (nextPosition_read (gameState this) move) as Hread.
      cbv zeta in Hread.
      destruct side, (activeColor (gameState this)) eqn:Hac;
        cbn [castlingRule] in H; destruct H as (Hk & Hcol & -> & Hh);
        unfold holds in Hh;
        match type of Hh with
        | context [pos_get ?p ?c] =>
            destruct (pos_get p c) as [| |theRook] eqn:Hcorner;
            cbn [truthy] in Hh; try discriminate
        end;
        apply andb_true_iff in Hh as [Hrt Hrc];
        apply bool_decide_eq_true in Hrt, Hrc;
        exists theRook; rewrite !Hread;
        cbn [castlingMove chess.from chess.to chess.piece chess.promotion
             chess.castling chess.enPassant andb];
        rewrite Hcol; cbn; rewrite ?Hcorner; auto 10.
  - split; [|split; [reflexivity|split; [discriminate|]]].
    + split; [discriminate|].
      intros [lm [Hin Hs]]. apply sameMove_spec in Hs.
      assert (existsb (sameMove move) (getLegalMoves this) = true)
        by (apply existsb_exists; eauto).
      congruence.
    + intros side Hin Hc. exfalso.
      assert (existsb (sameMove move) (getLegalMoves this) = true) as H.
      { apply existsb_exists. exists move. split; auto.
        apply sameMove_spec. auto. }
      congruence.
Qed.

End AcceptedMoves.

(** ** The halfmove clock and the fields of a submitted move *)

Section ClockAndSubmittedMoves.
Import ChessBoard MoveGenerator ChessEngine.

(** C7, as the code has it.  After [makeMove] the halfmove clock is 0 when
    the accepted move object carries a [captured] piece or names a pawn as
    its [piece], the old clock plus one for any other accepted move, and
    the old clock when the move is rejected.  For a move object taken from
    [getLegalMoves] these fields say what happens on the board: [piece] is
    the piece on [from], and [captured] is present exactly when the move
    is an en-passant capture or ends on an occupied square.  [isGameOver]
    answers fifty-move draw exactly when some legal move exists and the
    clock is at least 100; and some legal move exists exactly when the
    answer is neither checkmate nor stalemate. *)
Theorem halfmove_clock_and_fifty_move_rule (this : Engine) (move : Move) :
  halfmoveClock (gameState (snd (makeMove this move)))
  = (if fst (makeMove this move)
     then if present (captured move)
             || bool_decide (type (piece move) = pawn)
          then 0
          else halfmoveClock (gameState this) + 1
     else halfmoveClock (gameState this))
  ∧ (unique_keys (position (gameState this)) = true →
     In move (getLegalMoves this) →
     fst (makeMove this move) = true
     ∧ pos_get (position (gameState this)) (from move) = Occupied (piece move)
     ∧ (present (captured move) = true
        ↔ enPassant move = true
          ∨ ∃ target, pos_get (position (gameState this)) (to move)
                      = Occupied target))
  ∧ (isGameOver this = Return (Some (mkGameResult draw fifty_move))
     ↔ getLegalMoves this ≠ [] ∧ 100 ≤ halfmoveClock (gameState this))
  ∧ (getLegalMoves this = []
     ↔ isGameOver this
       = Return (Some (mkGameResult
                         (won (opponent (activeColor (gameState this))))
                         checkmate))
       ∨ isGameOver this = Return (Some (mkGameResult draw stalemate))).
Proof.
  split; [|split; [|split]].
  - rewrite makeMove_unfold. now destruct (existsb _ _).
  - intros Hu Hin.
    pose proof (legal_moves_describe_the_board _ _ Hu Hin) as (Hp & _ & Hc).
    split; [|split; [exact Hp|]].
    + rewrite makeMove_unfold.
      assert (existsb (sameMove move) (getLegalMoves this) = true) as ->;
        [|reflexivity].
      apply existsb_exists. exists move. split; auto.
      apply sameMove_spec. auto.
    + unfold reportsCapture in Hc. destruct (enPassant move).
      * split; auto.
      * rewrite Hc. split.
        -- intros H. right.
           destruct (pos_get (position (gameState this)) (to move))
             as [| |target]; try discriminate. eauto.
        -- intros [H|[target ->]]; [discriminate|reflexivity].
  - rewrite isGameOver_cases. cbv zeta.
    destruct (getLegalMoves this) as [|lm rest].
    + split; [|intros [H _]; congruence].
      destruct (MoveGenerator.isInCheck _ _); discriminate.
    + destruct (100 <=? halfmoveClock (gameState this)) eqn:E.
      * apply Z.leb_le in E.
        split; [intros _; split; [discriminate|assumption]|reflexivity].
      * apply Z.leb_gt in E. split; [|intros [_ H]; lia].
        destruct (Nat.leb 3 _); [discriminate|].
        destruct (isInsufficientMaterial this) as [[]|]; discriminate.
  - rewrite isGameOver_cases. cbv zeta.
    destruct (getLegalMoves this) as [|lm rest].
    + split; auto. intros _.
      destruct (MoveGenerator.isInCheck _ _); auto.
    + split; [discriminate|].
      destruct (100 <=? halfmoveClock (gameState this));
        [intros [|]; discriminate|].
      destruct (Nat.leb 3 _); [intros [|]; discriminate|].
      destruct (isInsufficientMaterial this) as [[]|];
        intros [|]; discriminate.
Qed.

(** C7, as stated, fails: after 1. Nf3 e5 the capture Nxe5, submitted with
    [from], [to] and [piece] only, is accepted and takes the pawn off e5,
    and the halfmove clock goes from 0 to 1.  The same capture submitted
    as [getLegalMoves] builds it leaves the same board and the clock
    at 0. *)
Lemma capture_without_captured_field_keeps_the_clock_running :
  let before := play create Scenario.knightFacesPawn in
  let after := snd (makeMove before Scenario.bareCapture) in
  let afterFull := snd (makeMove before Scenario.fullCapture) in
  pos_get (position (gameState before)) "f3" = Occupied (mkPiece knight white)
  ∧ pos_get (position (gameState before)) "e5" = Occupied (mkPiece pawn black)
  ∧ halfmoveClock (gameState before) = 0
  ∧ fst (makeMove before Scenario.bareCapture) = true
  ∧ pos_get (position (gameState after)) "e5" = Occupied (mkPiece knight white)
  ∧ pos_get (position (gameState after)) "f3" = Null
  ∧ halfmoveClock (gameState after) = 1
  ∧ In Scenario.fullCapture (getLegalMoves before)
  ∧ position (gameState afterFull) = position (gameState after)
  ∧ halfmoveClock (gameState afterFull) = 0.
Proof. vm_compute. repeat split; auto 20. Qed.

(** C10.  Whether a move is accepted depends on its [from], [to] and
    [promotion] alone: two move objects that agree on these are both
    accepted or both rejected.  An accepted move is then applied as
    submitted: the board is written from its [piece], [promotion],
    [castling] and [enPassant] fields, the clock is set from its
    [captured] and [piece] fields, and the object itself is recorded last
    in the history.  So, from the initial position, where a pawn stands
    on e2, e4 is empty and the only legal move from e2 to e4 is the pawn's,
    the move e2-e4 submitted with a white queen as its piece is accepted
    and leaves a white queen on e4, where submitting the legal move
    itself leaves a pawn. *)
Theorem makeMove_applies_submitted_move :
  (∀ (this : Engine) (move other : Move),
     from other = from move → to other = to move →
     promotion other = promotion move →
     fst (makeMove this other) = fst (makeMove this move))
  ∧ (∀ (this : Engine) (move : Move),
       fst (makeMove this move) = true →
       let old := gameState this in
       let new := gameState (snd (makeMove this move)) in
       let isWhite := bool_decide (color (piece move) = white) in
       let placed :=
         match promotion move with
         | Some t => Occupied (mkPiece t (color (piece move)))
         | None => Occupied (piece move)
         end in
       let moved s :=
         if String.eqb (from move) s then Null
         else if String.eqb (to move) s then placed
              else pos_get (position old) s in
       let castled s :=
         match castling move with
         | Some kingside =>
             if String.eqb (if isWhite then "h1" else "h8") s then Null
             else if String.eqb (if isWhite then "f1" else "f8") s
                  then moved (if isWhite then "h1" else "h8")
                  else moved s
         | Some queenside =>
             if String.eqb (if isWhite then "a1" else "a8") s then Null
             else if String.eqb (if isWhite then "d1" else "d8") s
                  then moved (if isWhite then "a1" else "a8")
                  else moved s
         | None => moved s
         end in
       (∀ sq, pos_get (position new) sq
              = if enPassant move
                   && String.eqb (if isWhite then head_plus (to move) "5"
                                  else head_plus (to move) "4") sq
                then Null
                else castled sq)
       ∧ halfmoveClock new
         = (if present (captured move)
               || bool_decide (type (piece move) = pawn)
            then 0 else halfmoveClock old + 1)
       ∧ last (chess.moveHistory new) = Some move)
  ∧ (let start := create in
     let submitted := Scenario.queenForPawn in
     let after := gameState (snd (makeMove start submitted)) in
     (∀ legalMove, In legalMove (getLegalMoves start) →
                   from legalMove = from submitted →
                   to legalMove = to submitted →
                   legalMove = Scenario.e2e4)
     ∧ piece Scenario.e2e4 = mkPiece pawn white
     ∧ piece submitted = mkPiece queen white
     ∧ pos_get (position (gameState start)) "e2"
       = Occupied (mkPiece pawn white)
     ∧ pos_get (position (gameState start)) "e4" = Null
     ∧ fst (makeMove start submitted) = true
     ∧ pos_get (position after) "e4" = Occupied (mkPiece queen white)
     ∧ pos_get (position after) "e2" = Null
     ∧ pos_get (position (gameState (snd (makeMove start Scenario.e2e4))))
               "e4"
       = Occupied (mkPiece pawn white)).
Proof.
  split; [|split].
  - intros this move other Hf Ht Hp. rewrite !makeMove_unfold.
    assert (∀ lm, sameMove other lm = sameMove move lm) as Hs.
    { intros lm. unfold sameMove. now rewrite Hf, Ht, Hp. }
    assert (existsb (sameMove other) (getLegalMoves this)
            = existsb (sameMove move) (getLegalMoves this)) as ->.
    { induction (getLegalMoves this) as [|lm l IH]; [reflexivity|].
      cbn [existsb]. now rewrite Hs, IH. }
    now destruct (existsb _ _).
  - intros this move. rewrite makeMove_unfold.
    destruct (existsb _ _); [|discriminate]. intros _. cbv zeta.
    cbn [snd gameState pushMove applyMove position halfmoveClock
         chess.moveHistory].
    split; [intros sq; apply (nextPosition_read (gameState this) move sq)|].
    split; [reflexivity|]. apply last_snoc.
  - cbv zeta. split.
    { intros lm Hin Hf Ht. vm_compute in Hin.
      repeat (destruct Hin as [<-|Hin]; [try discriminate; reflexivity|]).
      destruct Hin. }
    repeat split; reflexivity.
Qed.

End ClockAndSubmittedMoves.

(** * Further properties, collected by component *)

Section BoardProperties.
Import ChessBoard.

(** X19. [coordinatesToSquare] answers exactly for the 64 pairs of indices
    between 0 and 7, its answer is a valid square, and
    [squareToCoordinates] gives the two indices back. *)
Theorem coordinates_name_exactly_the_squares_of_the_board (file rank : Z) :
  match coordinatesToSquare file rank with
  | Some sq =>
      0 ≤ file ≤ 7 ∧ 0 ≤ rank ≤ 7
      ∧ isValidSquare sq = true
      ∧ squareToCoordinates sq = (file, rank)
  | None => file < 0 ∨ 7 < file ∨ rank < 0 ∨ 7 < rank
  end.
Proof. apply coordinatesToSquare_spec. Qed.

(** X20. [getAllSquares] lists 64 squares, none twice, and a string is in
    the list exactly when [isValidSquare] accepts it. *)
Theorem all_squares_are_the_valid_squares (sq : Square) :
  length getAllSquares = 64%nat
  ∧ NoDup getAllSquares
  ∧ (In sq getAllSquares ↔ isValidSquare sq = true).
Proof. apply allSquares_spec. Qed.

(** X21. The loop of [getSquaresBetween] ends exactly when the two squares
    share a file, a rank or a diagonal; between any other two squares, and
    for any two strings whose indices are not so aligned, it never
    returns. *)
Theorem squares_between_returns_exactly_for_aligned_squares
    (from to : Square) :
  (∃ fuel squares, getSquaresBetween fuel from to = Some squares)
  ↔ aligned from to.
Proof. apply squaresBetween_terminates_iff. Qed.

(** X22. For two aligned squares of the board [getSquaresBetween] returns
    the squares strictly between them, in order from [from]: one less than
    the larger of the two distances of [getDistance], each a valid
    square one step further along the line. *)
Theorem squares_between_are_the_squares_on_the_line (from to : Square)
    (fuel : nat) :
  isValidSquare from = true → isValidSquare to = true →
  aligned from to → (8 ≤ fuel)%nat →
  ∃ squares,
    getSquaresBetween fuel from to = Some squares
    ∧ Z.of_nat (length squares)
      = Z.max 0 (Z.max (fst (getDistance from to))
                       (snd (getDistance from to)) - 1)
    ∧ ∀ (i : nat) (sq : Square),
        squares !! i = Some sq →
        isValidSquare sq = true
        ∧ squareToCoordinates sq
          = (fst (squareToCoordinates from)
             + (Z.of_nat i + 1)
               * Z.sgn (fst (squareToCoordinates to)
                        - fst (squareToCoordinates from)),
             snd (squareToCoordinates from)
             + (Z.of_nat i + 1)
               * Z.sgn (snd (squareToCoordinates to)
                        - snd (squareToCoordinates from))).
Proof.
  intros Hf Ht Ha Hfuel.
  exact (squares_between_explicit from to fuel Hf Ht Ha Hfuel).
Qed.

Lemma squares_between_are_the_squares_on_the_line_witness :
  ∃ squares,
    getSquaresBetween 8 "a1" "d4" = Some squares
    ∧ Z.of_nat (length squares)
      = Z.max 0 (Z.max (fst (getDistance "a1" "d4"))
                       (snd (getDistance "a1" "d4")) - 1)
    ∧ ∀ (i : nat) (sq : Square),
        squares !! i = Some sq →
        isValidSquare sq = true
        ∧ squareToCoordinates sq
          = (fst (squareToCoordinates "a1")
             + (Z.of_nat i + 1)
               * Z.sgn (fst (squareToCoordinates "d4")
                        - fst (squareToCoordinates "a1")),
             snd (squareToCoordinates "a1")
             + (Z.of_nat i + 1)
               * Z.sgn (snd (squareToCoordinates "d4")
                        - snd (squareToCoordinates "a1"))).
Proof.
  apply (squares_between_are_the_squares_on_the_line "a1" "d4" 8).
  - reflexivity.
  - reflexivity.
  - vm_compute. auto.
  - lia.
Defined.

End BoardProperties.

Section GeneratorProperties.
Import ChessBoard MoveGenerator.

(** X23. Every move of [generatePseudoLegalMoves] ends on a square of the
    board other than the one it starts from, and goes as its piece goes:
    knights in an L, bishops on diagonals, rooks on lines, queens on
    either, kings one step or two files when castling, pawns one or two
    ranks forward, or one step diagonally forward when capturing. *)
Theorem generated_moves_follow_piece_geometry (gs : GameState) (m : Move) :
  In m (generatePseudoLegalMoves gs) →
  isValidSquare (to m) = true ∧ to m ≠ from m ∧ followsGeometry m.
Proof. apply pseudoLegal_geometry. Qed.

Lemma generated_moves_follow_piece_geometry_witness :
  isValidSquare "c3" = true
  ∧ "c3" ≠ "b1"
  ∧ followsGeometry (quiet "b1" "c3" (mkPiece knight white)).
Proof.
  apply (generated_moves_follow_piece_geometry
           ChessEngine.createInitialGameState
           (quiet "b1" "c3" (mkPiece knight white))).
  vm_compute. tauto.
Defined.

(** X24. [generatePawnMoves] returns exactly the moves of the six kinds of
    [PawnMove]: the single step onto an empty square, its four promotions
    on the last rank, the double step from the starting rank over two
    empty squares, the diagonal capture of an enemy piece, its four
    promotions, and the capture onto the en-passant target when the
    square beside the pawn is occupied. *)
Theorem pawn_moves_are_exactly_the_six_kinds (gs : GameState)
    (from : Square) (piece : Piece) (m : Move) :
  In m (generatePawnMoves gs from piece)
  ↔ PawnMove gs from piece (fst (squareToCoordinates from))
             (snd (squareToCoordinates from)) m.
Proof. apply pawn_moves_iff. Qed.

(** X25. A generated pawn move that is not an en-passant capture promotes
    exactly when it ends on the last rank, and then the generator offers
    the same move with each of queen, rook, bishop and knight. *)
Theorem pawns_promote_exactly_on_the_last_rank (gs : GameState) (m : Move) :
  In m (generatePseudoLegalMoves gs) →
  type (piece m) = pawn →
  enPassant m = false →
  let lastRank := if bool_decide (color (piece m) = white) then 7 else 0 in
  (promotion m = None ↔ snd (squareToCoordinates (to m)) ≠ lastRank)
  ∧ ∀ t, promotion m = Some t →
         In t promotionPieces
         ∧ ∀ t', In t' promotionPieces →
                 In (mkMove (from m) (to m) (piece m) (captured m)
                            (Some t') None false)
                    (generatePseudoLegalMoves gs).
Proof. apply pawn_promotion_facts. Qed.

Lemma pawns_promote_exactly_on_the_last_rank_witness :
  let m := Scenario.a7a8 rook in
  let lastRank := if bool_decide (color (piece m) = white) then 7 else 0 in
  (promotion m = None ↔ snd (squareToCoordinates (to m)) ≠ lastRank)
  ∧ ∀ t, promotion m = Some t →
         In t promotionPieces
         ∧ ∀ t', In t' promotionPieces →
                 In (mkMove (from m) (to m) (piece m) (captured m)
                            (Some t') None false)
                    (generatePseudoLegalMoves Scenario.beforePromotion).
Proof.
  apply (pawns_promote_exactly_on_the_last_rank Scenario.beforePromotion
           (Scenario.a7a8 rook)).
  - vm_compute. tauto.
  - reflexivity.
  - reflexivity.
Defined.

Lemma bishops_keep_and_knights_change_colour_witness :
  getSquareColor "c3" ≠ getSquareColor "b1".
Proof.
  apply (bishops_keep_and_knights_change_colour
           ChessEngine.createInitialGameState
           (quiet "b1" "c3" (mkPiece knight white))).
  - vm_compute. tauto.
  - reflexivity.
Defined.

Lemma sliding_pieces_do_not_jump_witness :
  ∃ squares,
    getSquaresBetween 8 "c2" "c5" = Some squares
    ∧ Forall (fun sq => vacant Scenario.boxedKing sq = true) squares.
Proof.
  apply (sliding_pieces_do_not_jump Scenario.queenToMove
           (quiet "c2" "c5" (mkPiece queen black)) 8).
  - vm_compute. tauto.
  - simpl. tauto.
  - reflexivity.
  - lia.
Defined.

Lemma moves_never_land_on_own_pieces_witness :
  match truthy (pos_get (position ChessEngine.createInitialGameState) "e4") with
  | Some p => captured Scenario.e2e4 = Some p
              ∧ color p = opponent white
  | None => captured Scenario.e2e4 = None
  end.
Proof.
  apply (moves_never_land_on_own_pieces ChessEngine.createInitialGameState
           Scenario.e2e4).
  - vm_compute. tauto.
  - reflexivity.
Defined.

Lemma check_reads_only_the_board_witness :
  isInCheck (mkGameState (position Scenario.afterDoublePush) black
                         (mkCastlingRights true true true true) None 7 3 [])
            white
  = isInCheck Scenario.afterDoublePush white.
Proof.
  apply (check_reads_only_the_board Scenario.afterDoublePush white black
           (mkCastlingRights true true true true) None 7 3 []).
  reflexivity.
Defined.

Lemma promotions_are_legal_together_witness :
  In (promotingTo (Scenario.a7a8 rook) knight)
     (generateLegalMoves Scenario.beforePromotion).
Proof.
  apply (promotions_are_legal_together Scenario.beforePromotion
           (Scenario.a7a8 rook) rook knight).
  - reflexivity.
  - vm_compute. tauto.
  - reflexivity.
  - simpl. tauto.
Defined.

End GeneratorProperties.

Section EngineProperties.
Import ChessBoard MoveGenerator.

Lemma snapshot_changes_only_in_its_move_history_witness :
  ∃ next h',
    playOnHeap Scenario.freshHeap Scenario.freshEngine [Scenario.e2e4]
    = Some (next, h')
    ∧ EngineHeap.load h' (EngineHeap.getGameState Scenario.freshEngine)
      = Some (withHistory ChessEngine.createInitialGameState
                (chess.moveHistory ChessEngine.createInitialGameState
                 ++ acceptedMoves
                      (valueOf ChessEngine.createInitialGameState
                               Scenario.freshEngine)
                      [Scenario.e2e4])).
Proof.
  apply (snapshot_changes_only_in_its_move_history Scenario.freshHeap
           Scenario.freshEngine ChessEngine.createInitialGameState
           [Scenario.e2e4]).
  reflexivity.
Defined.

Lemma reset_ends_the_sharing_witness :
  ∃ next h',
    playOnHeap (snd (EngineHeap.reset Scenario.freshHeap Scenario.freshEngine))
               (fst (EngineHeap.reset Scenario.freshHeap Scenario.freshEngine))
               [Scenario.e2e4]
    = Some (next, h')
    ∧ EngineHeap.load h' (EngineHeap.getGameState Scenario.freshEngine)
      = Some ChessEngine.createInitialGameState
    ∧ EngineHeap.load h' (EngineHeap.gameState next)
      = Some (ChessEngine.gameState
                (ChessEngine.play ChessEngine.create [Scenario.e2e4])).
Proof.
  apply (reset_ends_the_sharing Scenario.freshHeap Scenario.freshEngine
           (EngineHeap.getGameState Scenario.freshEngine)
           ChessEngine.createInitialGameState [Scenario.e2e4]).
  reflexivity.
Defined.

End EngineProperties.

Section SearchProperties.
Import JSNum ChessAI.

(** X26. On a complete board [evaluatePosition] is a finite number: every
    index [squareToIndex] computes lies inside the piece-square tables, so
    no [undefined] enters the sum. *)
Theorem evaluation_of_a_complete_board_is_finite (gameState : GameState) :
  fullBoard (position gameState) →
  ∃ z, evaluatePosition gameState = Fin z.
Proof. apply evaluatePosition_finite. Qed.

Lemma evaluation_of_a_complete_board_is_finite_witness :
  ∃ z, evaluatePosition ChessEngine.createInitialGameState = Fin z.
Proof.
  apply (evaluation_of_a_complete_board_is_finite
           ChessEngine.createInitialGameState).
  apply fullBoard_create.
Defined.

Lemma quiescence_score_stays_in_the_window_witness :
  inWindow (Fin (-50)) (Fin 50)
           (quiescenceSearch ChessEngine.createInitialGameState
                             (Fin (-50)) (Fin 50) true 0).
Proof.
  apply (quiescence_score_stays_in_the_window
           ChessEngine.createInitialGameState (Fin (-50)) (Fin 50) true 0).
  - apply fullBoard_create.
  - reflexivity.
  - lia.
Defined.

Lemma insertByScore_descending (f : Move → Z) (x : Move) (l : list Move) :
  descending f l → descending f (insertByScore f x l).
Proof.
  induction l as [|y l IH]; cbn [insertByScore descending].
  - intros _. split; [constructor|exact I].
  - intros [Hy Hl]. destruct (Z.ltb_spec (f x) (f y)).
    + cbn [descending]. split; [|now apply IH].
      eapply Permutation_Forall; [symmetry; apply insertByScore_perm|].
      constructor; [lia|exact Hy].
    + cbn [descending]. split; [|split; auto].
      constructor; [lia|].
      eapply Forall_impl; [exact Hy|]. cbn beta. intros z Hz. lia.
Qed.

Lemma insertByScore_ties (f : Move → Z) (s : Z) (x : Move) (l : list Move) :
  List.filter (fun m => f m =? s) (insertByScore f x l)
  = List.filter (fun m => f m =? s) (x :: l).
Proof.
  induction l as [|y l IH]; [reflexivity|]. cbn [insertByScore].
  destruct (Z.ltb_spec (f x) (f y)); [|reflexivity].
  cbn [List.filter] in *. rewrite IH.
  destruct (Z.eqb_spec (f y) s), (Z.eqb_spec (f x) s); auto. lia.
Qed.

(** X27. [orderMoves] returns the moves it was given, none lost and none
    added, in order of decreasing score; moves of the same score keep the
    order the generator gave them. *)
Theorem move_ordering_is_a_stable_sort_by_score (this : AI)
    (moves : list Move) (ply : nat) :
  Permutation (orderMoves this moves ply) moves
  ∧ descending (orderScore this ply) (orderMoves this moves ply)
  ∧ ∀ s, List.filter (fun m => orderScore this ply m =? s)
                     (orderMoves this moves ply)
         = List.filter (fun m => orderScore this ply m =? s) moves.
Proof.
  unfold orderMoves. generalize (orderScore this ply) as f. intros f.
  split; [apply sortByScore_perm|]. split.
  - induction moves as [|x l IH]; [exact I|].
    cbn [sortByScore fold_right]. now apply insertByScore_descending.
  - intros s. induction moves as [|x l IH]; [reflexivity|].
    cbn [sortByScore fold_right]. fold (sortByScore f l).
    rewrite insertByScore_ties. cbn [List.filter]. now rewrite IH.
Qed.

End SearchProperties.

Section InterfaceProperties.
Import ChessUI.

Lemma a_click_submits_a_legal_move_and_promotes_to_queen_witness :
  In (Scenario.a7a8 queen)
     (ChessEngine.getLegalMoves (engine Scenario.idleBoard))
  ∧ from (Scenario.a7a8 queen) = "a7" ∧ to (Scenario.a7a8 queen) = "a8"
  ∧ (promotion (Scenario.a7a8 queen) = None
     ∨ promotion (Scenario.a7a8 queen) = Some queen)
  ∧ fst (ChessEngine.makeMove (engine Scenario.idleBoard)
                              (Scenario.a7a8 queen)) = true.
Proof.
  apply (a_click_submits_a_legal_move_and_promotes_to_queen
           Scenario.idleBoard "a7" "a8" (Scenario.a7a8 queen)).
  - reflexivity.
  - vm_compute. reflexivity.
Defined.

End InterfaceProperties.
